(** * Resumable sending engine of the AI job application mailer

    A shallow embedding of [src/main.py]: the blocklist store
    ([BlockedDomainsManager]), the progress ledger ([SendingStateManager]) and
    the sending loop ([JobApplicationSystem.run_sending_process]), with the
    properties the specification states about them.

    Modelling conventions.
    - A Python [str] is a [string]; a character is one of the code points
      0..255 (Latin-1), on which [str.lower] and [str.strip] are written out.
    - A Python [int] is a [Z]; [None] is [option]'s [None].
    - The file system is a finite map from file names to documents.
      [json.dump] followed by [json.load] is the identity on the dictionaries
      the program stores (strings, integers, lists, null), so a file holds the
      value itself; a file that was opened for writing and not completely
      written holds [Torn], on which [json.load] raises.
    - External collaborators (text generation, the mail API, the clock, the
      outcome of a write) are an environment indexed by the loop position.
    - The recipients are rows with text in every cell the loop reads, and
      generated content is a dictionary with a text under ['subject'] and
      under ['body']. On other data (an address cell that pandas reads as
      missing, a reply without these keys) the program raises when it gets
      to the row, before it sends or records anything for it; such runs are
      not among the runs of the model. *)

From Stdlib Require Import ZArith Lia Ascii String Sorted.
From stdpp Require Import base strings list gmap.

Open Scope string_scope.
Open Scope list_scope.
Open Scope Z_scope.

(** ** Python strings *)

Module Str.

Definition code (c : ascii) : N := N_of_ascii c.

(** [str.lower] maps A-Z and the Latin-1 capitals U+00C0..U+00DE (without
    the multiplication sign U+00D7) 32 code points up. *)
Definition is_upper (c : ascii) : bool :=
  let n := code c in
  ((65 <=? n) && (n <=? 90) || (192 <=? n) && (n <=? 222) && negb (n =? 215))%N.

Definition lower_char (c : ascii) : ascii :=
  if is_upper c then ascii_of_N (code c + 32) else c.

Fixpoint lower (s : string) : string :=
  match s with
  | "" => ""
  | String c s' => String (lower_char c) (lower s')
  end.

(** The characters [str.strip()] removes: TAB..CR, FS..US, space, NEL, NBSP. *)
Definition is_whitespace (c : ascii) : bool :=
  let n := code c in
  ((9 <=? n) && (n <=? 13) || (28 <=? n) && (n <=? 32) || (n =? 133) || (n =? 160))%N.

Fixpoint lstrip (s : string) : string :=
  match s with
  | "" => ""
  | String c s' => if is_whitespace c then lstrip s' else s
  end.

Definition rstrip (s : string) : string := String.rev (lstrip (String.rev s)).

Definition strip (s : string) : string := rstrip (lstrip s).

(** A string with no white space at its left end. *)
Definition left_trimmed (s : string) : Prop :=
  match s with "" => True | String c _ => is_whitespace c = false end.

(** [c in s] for a one-character [c]. *)
Fixpoint contains (c : ascii) (s : string) : bool :=
  match s with
  | "" => false
  | String a s' => if decide (a = c) then true else contains c s'
  end.

(** [s.split(sep)] for a one-character separator: never the empty list. *)
Fixpoint split (sep : ascii) (s : string) : list string :=
  match s with
  | "" => [""]
  | String a s' =>
      if decide (a = sep) then "" :: split sep s'
      else match split sep s' with
           | h :: t => String a h :: t
           | [] => [String a ""]
           end
  end.

(** [l[-1]] on a list of strings that is known not to be empty. *)
Definition last_item (l : list string) : string := default "" (last l).

(** [s.replace(old, new)] for a one-character [old]. *)
Fixpoint replace (old : ascii) (new : string) (s : string) : string :=
  match s with
  | "" => ""
  | String a s' =>
      if decide (a = old) then new +:+ replace old new s'
      else String a (replace old new s')
  end.

(** [bool(s)]: a string is truthy when it is not empty. *)
Definition truthy (s : string) : bool :=
  match s with "" => false | _ => true end.

End Str.

(** ** Documents, exceptions and the file system *)

(** The dictionary [{'blocked_domains': [...], 'blocked_emails': [...]}]. *)
Record BlockData := mkData {
  blocked_domains : list string;
  blocked_emails : list string
}.

(** The dictionary [{'last_index_sent': .., 'sent_emails': [...],
    'last_run_date': ..}]. *)
Record SendingState := mkState {
  last_index_sent : Z;
  sent_emails : list string;
  last_run_date : option string
}.

(** What a file holds. [Torn] is a file that [open(path, 'w')] has truncated
    and that does not hold the complete text yet: [json.dump] has not
    finished, or it has and text is still in the buffer of the file object,
    which is written out when the [with] block closes the file. A complete
    document of the other shape is treated like a torn one by its reader:
    the program fails on it at the first key access. *)
Inductive Document :=
| BlocklistDoc (d : BlockData)
| StateDoc (s : SendingState)
| Torn.

Abbreviation FS := (gmap string Document).

Inductive Exn :=
| JSONDecodeError
| OSError
| IndexError
| OtherError (name : string).

(** How a call ends. *)
Inductive Outcome (A : Type) :=
| Returns (a : A)
| Raises (e : Exn).
Arguments Returns {A} a.
Arguments Raises {A} e.

(** How [open(path, 'w')] followed by [json.dump] ends: both complete, [open]
    raises and leaves the file alone, or [json.dump] raises after [open] has
    truncated the file. *)
Inductive WriteOutcome := WriteOk | OpenFails | DumpFails.

(** ** Blocklist store *)

Module BlockedDomainsManager.

Record t := mk {
  file_path : string;
  data : BlockData
}.

Definition empty : BlockData := mkData [] [].

Definition load (path : string) (fs : FS) : Outcome BlockData :=
  match fs !! path with
  | None => Returns empty
  | Some (BlocklistDoc d) => Returns d
  | Some _ => Raises JSONDecodeError
  end.

Definition init (path : string) (fs : FS) : Outcome t :=
  match load path fs with
  | Returns d => Returns (mk path d)
  | Raises e => Raises e
  end.

Definition save (w : WriteOutcome) (m : t) (fs : FS) : FS * Outcome unit :=
  match w with
  | WriteOk => (<[file_path m := BlocklistDoc (data m)]> fs, Returns ())
  | OpenFails => (fs, Raises OSError)
  | DumpFails => (<[file_path m := Torn]> fs, Raises OSError)
  end.

(** One round of the [for] loop of [add_domains] / [add_emails]. *)
Definition add_entry (entries : list string) (raw : string) : list string :=
  let entry := Str.lower (Str.strip raw) in
  if Str.truthy entry && bool_decide (entry ∉ entries)
  then entries ++ [entry] else entries.

Definition add_domains (w : WriteOutcome) (domains : list string) (m : t) (fs : FS)
  : t * FS * Outcome unit :=
  let d := data m in
  let m' := mk (file_path m)
               (mkData (foldl add_entry (blocked_domains d) domains) (blocked_emails d)) in
  let '(fs', r) := save w m' fs in (m', fs', r).

Definition add_emails (w : WriteOutcome) (emails : list string) (m : t) (fs : FS)
  : t * FS * Outcome unit :=
  let d := data m in
  let m' := mk (file_path m)
               (mkData (blocked_domains d) (foldl add_entry (blocked_emails d) emails)) in
  let '(fs', r) := save w m' fs in (m', fs', r).

Definition domain_of (email : string) : string :=
  if Str.contains "@" email then Str.last_item (Str.split "@" email) else "".

Definition is_blocked (m : t) (email : string) : bool :=
  let email := Str.lower (Str.strip email) in
  if bool_decide (email ∈ blocked_emails (data m)) then true
  else bool_decide (domain_of email ∈ blocked_domains (data m)).

(** A list of entries as the two [add_] operations keep it: no entry twice,
    none empty, each one trimmed and in lower case. *)
Definition normal_entries (entries : list string) : Prop :=
  NoDup entries
  ∧ Forall (λ x, x ≠ "" ∧ Str.lower (Str.strip x) = x) entries.

(** The blocklist without the domain entries that contain an [@]. *)
Definition without_at_domains (m : t) : t :=
  mk (file_path m)
     (mkData (filter (λ d, Str.contains "@" d = false) (blocked_domains (data m)))
             (blocked_emails (data m))).

(** The blocklists that [add_domains] and [add_emails] build from the empty
    store of a missing file, whatever the writes do and whichever manager
    holds them (a manager that loads a file holds what was written to it). *)
Inductive reachable : BlockData → Prop :=
| reach_empty : reachable empty
| reach_add_domains w domains m fs :
    reachable (data m) → reachable (data (add_domains w domains m fs).1.1)
| reach_add_emails w emails m fs :
    reachable (data m) → reachable (data (add_emails w emails m fs).1.1).

End BlockedDomainsManager.

(** ** Progress ledger *)

Module SendingStateManager.

Record t := mk {
  sender_email : string;
  file_path : string;
  state : SendingState
}.

Definition zero_state : SendingState := mkState (-1) [] None.

(** [sender_email.replace('@', '_at_').replace('.', '_')] *)
Definition storage_token (sender_email : string) : string :=
  Str.replace "." "_" (Str.replace "@" "_at_" sender_email).

Definition state_file (sender_email : string) : string :=
  "state_" +:+ storage_token sender_email +:+ ".json".

Definition load (path : string) (fs : FS) : Outcome SendingState :=
  match fs !! path with
  | None => Returns zero_state
  | Some (StateDoc s) => Returns s
  | Some _ => Raises JSONDecodeError
  end.

Definition init (sender_email : string) (fs : FS) : Outcome t :=
  let token := storage_token sender_email in
  let path := state_file sender_email in
  match load path fs with
  | Returns s => Returns (mk token path s)
  | Raises e => Raises e
  end.

Definition with_state (m : t) (s : SendingState) : t :=
  mk (sender_email m) (file_path m) s.

(** [now] is what [datetime.now().isoformat()] returns at the call. *)
Definition save (now : string) (w : WriteOutcome) (m : t) (fs : FS)
  : t * FS * Outcome unit :=
  let s := state m in
  let m' := with_state m (mkState (last_index_sent s) (sent_emails s) (Some now)) in
  match w with
  | WriteOk => (m', <[file_path m := StateDoc (state m')]> fs, Returns ())
  | OpenFails => (m', fs, Raises OSError)
  | DumpFails => (m', <[file_path m := Torn]> fs, Raises OSError)
  end.

Definition was_sent (m : t) (email : string) : bool :=
  bool_decide (Str.lower email ∈ Str.lower <$> sent_emails (state m)).

Definition mark_sent (now : string) (w : WriteOutcome) (index : Z) (email : string)
    (m : t) (fs : FS) : t * FS * Outcome unit :=
  let s := state m in
  let m1 := with_state m (mkState index (sent_emails s) (last_run_date s)) in
  let m2 :=
    if bool_decide (Str.lower email ∉ Str.lower <$> sent_emails (state m1))
    then with_state m1 (mkState index (sent_emails s ++ [Str.lower email]) (last_run_date s))
    else m1 in
  save now w m2 fs.

(** *** The same call, one statement at a time

    The statements of [mark_sent] and of the [save] it ends with, in program
    order; the last one is the end of the [with] block, which closes the
    file. A process that dies after the first [n] of them leaves the file
    system [crash_after n]. *)
Inductive Stmt :=
| SetIndex | AppendEmail | StampDate | OpenForWrite | JsonDump | CloseFile.

(** Where the text is when [json.dump] has returned. [json.dump] writes to
    the file object, which keeps text in its buffer and writes the buffer
    out when it is full and when the file is closed: for a ledger shorter
    than the buffer nothing is in the file before the close, and a longer
    one is in the file in full only if the buffer was written out with its
    last piece. *)
Inductive Buffering := InBuffer | WrittenOut.

(** The state of the process between two statements: the manager, the
    files, and the document that the open file object has been given and
    has not written out in full. *)
Record Process := mkProcess {
  manager : t;
  files : FS;
  unwritten : option SendingState
}.

Definition exec_stmt (buffering : Buffering) (now : string) (index : Z)
    (email : string) (st : Stmt) (c : Process) : Process :=
  let m := manager c in
  let fs := files c in
  let s := state m in
  match st with
  | SetIndex =>
      mkProcess (with_state m (mkState index (sent_emails s) (last_run_date s)))
        fs (unwritten c)
  | AppendEmail =>
      if bool_decide (Str.lower email ∉ Str.lower <$> sent_emails s)
      then mkProcess (with_state m (mkState (last_index_sent s)
                        (sent_emails s ++ [Str.lower email]) (last_run_date s)))
             fs (unwritten c)
      else c
  | StampDate =>
      mkProcess (with_state m (mkState (last_index_sent s) (sent_emails s) (Some now)))
        fs (unwritten c)
  | OpenForWrite => mkProcess m (<[file_path m := Torn]> fs) None
  | JsonDump =>
      match buffering with
      | InBuffer => mkProcess m fs (Some s)
      | WrittenOut => mkProcess m (<[file_path m := StateDoc s]> fs) None
      end
  | CloseFile =>
      match unwritten c with
      | Some doc => mkProcess m (<[file_path m := StateDoc doc]> fs) None
      | None => c
      end
  end.

Definition mark_sent_stmts : list Stmt :=
  [SetIndex; AppendEmail; StampDate; OpenForWrite; JsonDump; CloseFile].

(** The manager and the files that the first [n] statements leave; the
    buffer of the file object is lost with the process. *)
Definition crash_after (buffering : Buffering) (n : nat) (now : string) (index : Z)
    (email : string) (m : t) (fs : FS) : t * FS :=
  let c := foldl (λ c st, exec_stmt buffering now index email st c)
             (mkProcess m fs None) (take n mark_sent_stmts) in
  (manager c, files c).

(** Any number of later [mark_sent] calls on the same manager, whatever
    their writes do. *)
Record Call := mkCall {
  call_now : string;
  call_write : WriteOutcome;
  call_index : Z;
  call_email : string
}.

Definition mark_sent_call (c : t * FS) (call : Call) : t * FS :=
  (mark_sent (call_now call) (call_write call) (call_index call)
     (call_email call) c.1 c.2).1.

Definition mark_sent_many (calls : list Call) (m : t) (fs : FS) : t * FS :=
  foldl mark_sent_call (m, fs) calls.

(** The file of the ledger holds what the manager has in memory. *)
Definition synced (m : t) (fs : FS) : Prop :=
  load (file_path m) fs = Returns (state m).

(** Every stored address is in lower case, as [mark_sent] stores them. *)
Definition lowercased (s : SendingState) : Prop :=
  Forall (λ x, Str.lower x = x) (sent_emails s).

(** The ledger order: the cursor does not go back and the list of addresses
    is only extended. *)
Definition ledger_le (s s' : SendingState) : Prop :=
  last_index_sent s ≤ last_index_sent s' ∧ sent_emails s `prefix_of` sent_emails s'.

(** *** Reading a storage token back

    [untoken] reads [_at_] as [@] and any other [_] as [.]. It inverts
    [storage_token] on the addresses that [unambiguous] accepts: no [_], and
    no [.] directly followed by [at.] or [at@]. *)
Fixpoint untoken (tok : string) : string :=
  match tok with
  | "" => ""
  | String c r =>
      if decide (c = "_"%char) then
        match r with
        | String c1 (String c2 (String c3 r')) =>
            if decide (c1 = "a"%char ∧ c2 = "t"%char ∧ c3 = "_"%char)
            then String "@" (untoken r')
            else String "." (untoken r)
        | _ => String "." (untoken r)
        end
      else String c (untoken r)
  end.

Fixpoint unambiguous (s : string) : bool :=
  match s with
  | "" => true
  | String c r =>
      negb (bool_decide (c = "_"%char))
      && (if decide (c = "."%char)
          then negb (String.prefix "at." r || String.prefix "at@" r) else true)
      && unambiguous r
  end.

End SendingStateManager.

(** ** Sending engine *)

Module JobApplicationSystem.

(** One row of [recipients.csv] as the loop reads it, with text in every
    cell. A cell that pandas reads as missing is a float, on which
    [is_blocked] raises at once; a row with such an address cell ends the
    run there and is not among the rows of this model. *)
Record Recipient := mkRecipient {
  company_name : string;
  recipient_name : string;
  designation : string;
  email : string;
  job_title : string;
  job_url : string
}.

(** The dictionary [generate_email_content] returns when it succeeds. *)
Record Content := mkContent {
  subject : string;
  body : string
}.

(** What [...messages().send(...).execute()] does. *)
Inductive ApiOutcome :=
| ApiOk
| ApiHttpError (status : Z)
| ApiRaises (e : Exn).

(** The three values [send_email] returns: [True], ["QUOTA_ERROR"], [False]. *)
Inductive SendResult := SentTrue | QuotaError | SentFalse.

(** The collaborators of one run, by loop position: what the text generator
    returns for the row ([None] for nothing usable), what the Gmail call
    does, what [datetime.now().isoformat()] returns when the ledger is saved,
    and how the write of the ledger file ends. *)
Record Env := mkEnv {
  generate_email_content : Z → Recipient → option Content;
  api : Z → ApiOutcome;
  clock : Z → string;
  write : Z → WriteOutcome
}.

(** What the engine does that an observer can see, with the loop position:
    the calls of [generate_email_content], [send_email], [mark_sent] and
    [time.sleep], and the messages that report an outcome. *)
Inductive Event :=
| EvSkip (i : Z) (email : string)
| EvGenerate (i : Z) (row : Recipient)
| EvContentFailed (i : Z) (email : string)
| EvPreview (i : Z) (email : string) (subject : string) (body : string)
| EvSend (i : Z) (email : string) (content : Content)
| EvSentOk (i : Z) (email : string)
| EvMarkSent (i : Z) (email : string)
| EvQuotaStop (i : Z)
| EvSendFailed (i : Z) (email : string)
| EvSleep (i : Z).

Definition ev_index (ev : Event) : Z :=
  match ev with
  | EvSkip i _ | EvGenerate i _ | EvContentFailed i _ | EvPreview i _ _ _
  | EvSend i _ _ | EvSentOk i _ | EvMarkSent i _ | EvQuotaStop i
  | EvSendFailed i _ | EvSleep i => i
  end.

(** A delivery attempt: the transport is called. *)
Definition is_send (ev : Event) : bool :=
  match ev with EvSend _ _ _ => true | _ => false end.

Definition is_mark (ev : Event) : bool :=
  match ev with EvMarkSent _ _ => true | _ => false end.

Definition is_generate (ev : Event) : bool :=
  match ev with EvGenerate _ _ => true | _ => false end.

Definition is_preview (ev : Event) : bool :=
  match ev with EvPreview _ _ _ _ => true | _ => false end.

(** The two messages that report a row the run could not serve: no content,
    or a delivery that failed for another reason than the quota. *)
Definition is_failure (ev : Event) : bool :=
  match ev with EvContentFailed _ _ | EvSendFailed _ _ => true | _ => false end.

(** The address [mark_sent] stores for an event that calls it. *)
Definition marked_address (ev : Event) : option string :=
  match ev with EvMarkSent _ email => Some (Str.lower email) | _ => None end.

(** Reads a trace from the left and checks that the transport is not called
    while an earlier call has not been followed by a [time.sleep] yet;
    [pending] says whether such a call is open. *)
Fixpoint paced_from (pending : bool) (evs : list Event) : bool :=
  match evs with
  | [] => true
  | EvSend _ _ _ :: evs' => negb pending && paced_from true evs'
  | EvSleep _ :: evs' => paced_from false evs'
  | _ :: evs' => paced_from pending evs'
  end.

Definition paced (evs : list Event) : bool := paced_from false evs.

(** The [try] block of [send_email]. The message is assembled before it,
    from the arguments alone. *)
Definition send_email (o : ApiOutcome) : Outcome SendResult :=
  match o with
  | ApiOk => Returns SentTrue
  | ApiHttpError status =>
      if bool_decide (status ∈ [403; 429]) then Returns QuotaError
      else Returns SentFalse
  | ApiRaises e => Raises e
  end.

(** How the body of the loop is left. *)
Inductive Control := Continue | Break | Raise (e : Exn).

(** How a run ends: one of the two early returns, the end of the list, a
    [break], or an exception that nothing catches. *)
Inductive Status :=
| NotAuthenticated
| RecipientsNotFound
| Completed
| Stopped
| Raised (e : Exn).

Record Result := mkResult {
  trace : list Event;
  ledger : option SendingStateManager.t;
  disk : FS;
  status : Status
}.

(** [df.iloc[i]]: a negative position counts from the end. *)
Definition iloc (df : list Recipient) (i : Z) : option Recipient :=
  let n := Z.of_nat (length df) in
  if bool_decide (0 ≤ i) then df !! Z.to_nat i
  else if bool_decide (- n ≤ i) then df !! Z.to_nat (n + i)
  else None.

Section Loop.

Variable env : Env.
Variable test_mode : bool.
Variable start_index : Z.
Variable blocked_mgr : BlockedDomainsManager.t.
Variable df : list Recipient.

(** The body of the [for] loop at position [i], on row [row]. *)
Definition loop_body (i : Z) (row : Recipient)
    (state_mgr : SendingStateManager.t) (fs : FS)
  : list Event * SendingStateManager.t * FS * Control :=
  let email := email row in
  if BlockedDomainsManager.is_blocked blocked_mgr email
     || SendingStateManager.was_sent state_mgr email
  then ([EvSkip i email], state_mgr, fs, Continue)
  else
    match generate_email_content env i row with
    | None => ([EvGenerate i row; EvContentFailed i email], state_mgr, fs, Continue)
    | Some content =>
        if test_mode then
          ([EvGenerate i row;
            EvPreview i email (subject content) (substring 0 100 (body content))],
           state_mgr, fs,
           if bool_decide (start_index + 2 ≤ i) then Break else Continue)
        else
          match send_email (api env i) with
          | Raises e =>
              ([EvGenerate i row; EvSend i email content], state_mgr, fs, Raise e)
          | Returns SentTrue =>
              let '(m', fs', r) :=
                SendingStateManager.mark_sent (clock env i) (write env i) i email
                  state_mgr fs in
              match r with
              | Returns _ =>
                  ([EvGenerate i row; EvSend i email content; EvSentOk i email;
                    EvMarkSent i email; EvSleep i], m', fs', Continue)
              | Raises e =>
                  ([EvGenerate i row; EvSend i email content; EvSentOk i email;
                    EvMarkSent i email], m', fs', Raise e)
              end
          | Returns QuotaError =>
              ([EvGenerate i row; EvSend i email content; EvQuotaStop i],
               state_mgr, fs, Break)
          | Returns SentFalse =>
              ([EvGenerate i row; EvSend i email content; EvSendFailed i email;
                EvSleep i], state_mgr, fs, Continue)
          end
    end.

(** [for i in range(i, i + n)]. *)
Fixpoint loop (i : Z) (n : nat) (state_mgr : SendingStateManager.t) (fs : FS)
  : Result :=
  match n with
  | O => mkResult [] (Some state_mgr) fs Completed
  | S n' =>
      match iloc df i with
      | None => mkResult [] (Some state_mgr) fs (Raised IndexError)
      | Some row =>
          let '(evs, m', fs', c) := loop_body i row state_mgr fs in
          match c with
          | Continue =>
              let r := loop (i + 1) n' m' fs' in
              mkResult (evs ++ trace r) (ledger r) (disk r) (status r)
          | Break => mkResult evs (Some m') fs' Stopped
          | Raise e => mkResult evs (Some m') fs' (Raised e)
          end
      end
  end.

(** The loop over the positions [i, i + n), started with the manager [m] and
    the files [fs], gets to position [j] with the manager [mj] and the files
    [fsj]. *)
Inductive reaches :
  Z → nat → SendingStateManager.t → FS → Z → SendingStateManager.t → FS → Prop :=
| reaches_here i n m fs : reaches i (S n) m fs i m fs
| reaches_next i n m fs row evs m' fs' j mj fsj :
    iloc df i = Some row →
    loop_body i row m fs = (evs, m', fs', Continue) →
    reaches (i + 1) n m' fs' j mj fsj →
    reaches i (S n) m fs j mj fsj.

End Loop.

(** The engine object: whether [authenticate_gmail] built the service, and
    the sender address it recorded. *)
Record t := mk {
  gmail_service : bool;
  sender_email : string
}.

Definition BLOCKED_DOMAINS_FILE : string := "blocked_domains.json".

(** [recipients] is the content of [recipients.csv], [None] when the file
    does not exist. [analyze_resume] only reads the summary that the text
    generator is given, which the environment stands for. *)
Definition run_sending_process (self : t) (env : Env)
    (recipients : option (list Recipient)) (test_mode : bool) (fs : FS) : Result :=
  if negb (gmail_service self) then mkResult [] None fs NotAuthenticated
  else
    match recipients with
    | None => mkResult [] None fs RecipientsNotFound
    | Some df =>
        match BlockedDomainsManager.init BLOCKED_DOMAINS_FILE fs with
        | Raises e => mkResult [] None fs (Raised e)
        | Returns blocked_mgr =>
            match SendingStateManager.init (sender_email self) fs with
            | Raises e => mkResult [] None fs (Raised e)
            | Returns state_mgr =>
                let start_index :=
                  last_index_sent (SendingStateManager.state state_mgr) + 1 in
                loop env test_mode start_index blocked_mgr df start_index
                  (Z.to_nat (Z.of_nat (length df) - start_index)) state_mgr fs
            end
        end
    end.

(** Successive invocations of the program for one sender, each with its own
    collaborators, recipient file and mode, on the files the previous one
    left. *)
Record Invocation := mkInvocation {
  inv_env : Env;
  inv_recipients : option (list Recipient);
  inv_test_mode : bool
}.

Definition invoke (self : t) (fs : FS) (inv : Invocation) : FS :=
  disk (run_sending_process self (inv_env inv) (inv_recipients inv)
          (inv_test_mode inv) fs).

Definition invoke_all (self : t) (invs : list Invocation) (fs : FS) : FS :=
  foldl (invoke self) fs invs.

End JobApplicationSystem.

(** ** The blocklist step of [main]

    [main] builds a [BlockedDomainsManager], asks whether to update the
    blocklist and, after the answer [y], reads one line of domains separated
    by commas and passes its pieces to [add_domains]. *)

Module Main.

(** [sep.join(pieces)] for a one-character [sep]: the line a user types for
    the given pieces. *)
Fixpoint join (sep : ascii) (pieces : list string) : string :=
  match pieces with
  | [] => ""
  | [piece] => piece
  | piece :: rest => piece +:+ String sep (join sep rest)
  end.

(** [answer] and [line] are what the two [input] calls return; [line] is
    read only after a yes. The result is the manager [main] goes on with,
    unless loading or saving raised. *)
Definition update_blocked_domains (w : WriteOutcome) (answer line : string) (fs : FS)
  : FS * Outcome BlockedDomainsManager.t :=
  match BlockedDomainsManager.init JobApplicationSystem.BLOCKED_DOMAINS_FILE fs with
  | Raises e => (fs, Raises e)
  | Returns blocked_mgr =>
      if decide (Str.lower answer = "y") then
        let domains := Str.split "," line in
        let '(m', fs', r) := BlockedDomainsManager.add_domains w domains blocked_mgr fs in
        (fs', match r with Returns _ => Returns m' | Raises e => Raises e end)
      else (fs, Returns blocked_mgr)
  end.

End Main.

(** ** Replies of the text generator

    [generate_email_content] and [scrape_and_find_contacts] read the reply
    of the text generator the same way: the text from the first [{] to the
    last [}] is handed to [json.loads], and any failure is swallowed. The
    JSON decoder and the values it returns are parameters. *)

Module Reply.

(** The rest of [s] from its first [c] on. *)
Fixpoint from_first (c : ascii) (s : string) : option string :=
  match s with
  | "" => None
  | String a s' => if decide (a = c) then Some s else from_first c s'
  end.

(** [s] up to its last [c]. *)
Fixpoint upto_last (c : ascii) (s : string) : option string :=
  match s with
  | "" => None
  | String a s' =>
      match upto_last c s' with
      | Some t => Some (String a t)
      | None => if decide (a = c) then Some (String a "") else None
      end
  end.

(** [re.search(r'\{.*\}', s, re.DOTALL)], as the text it matches: the
    leftmost match starts at the first [{], and the greedy [.*] takes it to
    the last [}]. *)
Definition search_braces (s : string) : option string :=
  match from_first "{" s with
  | None => None
  | Some t => upto_last "}" t
  end.

Section Decoder.

(** Decoded JSON, and [json.loads]: [None] when it raises. *)
Variable J : Type.
Variable json_loads : string → option J.

(** [result_str] is what [self.pplx.query] returned, [None] included. *)
Definition generate_email_content (result_str : option string) : option J :=
  match result_str with
  | None => None
  | Some s =>
      if Str.truthy s then
        match search_braces s with
        | Some text => json_loads text
        | None => None
        end
      else None
  end.

(** [contact and contact.get('email')] *)
Variable has_email : J → bool.

(** The body of the loop of [scrape_and_find_contacts] for one job: the
    contact to append, if any. *)
Definition contact_of (result_str : option string) : option J :=
  match result_str with
  | None => None
  | Some s =>
      if Str.truthy s then
        match search_braces s with
        | Some text =>
            match json_loads text with
            | Some contact => if has_email contact then Some contact else None
            | None => None
            end
        | None => None
        end
      else None
  end.

(** [scrape_and_find_contacts]: [jobs] is what [scrape_jobs] found, [None]
    when the scraper is not installed; [replies] gives the reply of the text
    generator for each job; [csv] is the recipients file, a list of rows, or
    [None] when there is none. The result is the recipients file
    afterwards. *)
Definition scrape_and_find_contacts {Job : Type} (jobs : option (list Job))
    (replies : Job → option string) (csv : option (list J)) : option (list J) :=
  match jobs with
  | None => csv
  | Some jobs =>
      let recipients := omap (λ job, contact_of (replies job)) jobs in
      match recipients with
      | [] => csv
      | _ => Some recipients
      end
  end.

End Decoder.

End Reply.

(** ** Concrete runs

    The inputs of the scenarios of the specification: a sender, rows, and
    collaborators that always succeed, run out of quota at one position, or
    fail to generate content at one position. *)

Module Scenario.

Import JobApplicationSystem.

Definition system : JobApplicationSystem.t := mk true "me@gmail.com".

Definition row (address : string) : Recipient :=
  mkRecipient "Acme" "HR Manager" "Recruiter" address "Engineer"
    "https://jobs.example/1".

Definition letter : Content :=
  mkContent "Application for Engineer" "Dear HR Manager, my resume is attached.".

Definition timestamp : string := "2024-05-01T09:00:00".

Definition env_ok : Env :=
  mkEnv (λ _ _, Some letter) (λ _, ApiOk) (λ _, timestamp) (λ _, WriteOk).

Definition env_quota_at (k : Z) : Env :=
  mkEnv (λ _ _, Some letter)
        (λ i, if bool_decide (i = k) then ApiHttpError 429 else ApiOk)
        (λ _, timestamp) (λ _, WriteOk).

(** No content at position [j], quota at position [k]. *)
Definition env_no_content_then_quota (j k : Z) : Env :=
  mkEnv (λ i _, if bool_decide (i = j) then None else Some letter)
        (λ i, if bool_decide (i = k) then ApiHttpError 429 else ApiOk)
        (λ _, timestamp) (λ _, WriteOk).

Definition three_rows : list Recipient :=
  [row "A@x.com"; row "b@x.com"; row "c@x.com"].

Definition two_rows : list Recipient := [row "a@x.com"; row "b@x.com"].

(** The third row repeats the address of the first in another case. *)
Definition rows_with_duplicate : list Recipient :=
  [row "a@x.com"; row "b@x.com"; row "A@X.com"].

Definition rows_with_spam : list Recipient :=
  [row "a@x.com"; row "x@spam.example"].

Definition spam_blocklist : FS :=
  {[ BLOCKED_DOMAINS_FILE := BlocklistDoc (mkData ["spam.example"] []) ]}.

Definition ledger_path : string := "state_me_at_gmail_com.json".

Definition fresh_manager : SendingStateManager.t :=
  SendingStateManager.mk "me_at_gmail_com" ledger_path
    SendingStateManager.zero_state.

Definition one_sent : SendingState := mkState 0 ["a@x.com"] (Some timestamp).

End Scenario.

(** * Properties *)

Import JobApplicationSystem.

(** ** Strings *)

Section StrFacts.

Lemma lower_char_idemp c : Str.lower_char (Str.lower_char c) = Str.lower_char c.
Proof. destruct c as [[] [] [] [] [] [] [] []]; reflexivity. Qed.

Lemma lower_idemp s : Str.lower (Str.lower s) = Str.lower s.
Proof.
  induction s as [|c s IH]; simpl; [done|].
  by rewrite lower_char_idemp, IH.
Qed.

Lemma split_nonempty c s : Str.split c s ≠ [].
Proof.
  destruct s as [|a s]; simpl; [done|].
  case_decide; [done|]. by destruct (Str.split c s).
Qed.

Lemma split_no_sep c s : Str.contains c s = false → Str.split c s = [s].
Proof.
  induction s as [|a s IH]; simpl; [done|].
  case_decide; [done|]. intros Hc. by rewrite IH.
Qed.

Lemma last_item_cons h x t : Str.last_item (h :: x :: t) = Str.last_item (x :: t).
Proof. reflexivity. Qed.

(** With a separator in [s], the last piece of [s.split(sep)] is what follows
    the last separator. *)
Lemma split_last_suffix c s :
  Str.contains c s = true →
  (∃ h x t, Str.split c s = h :: x :: t) ∧
  ∃ pre, s = pre +:+ String c (Str.last_item (Str.split c s))
         ∧ Str.contains c (Str.last_item (Str.split c s)) = false.
Proof.
  induction s as [|a s IH]; simpl; [done|].
  case_decide as Ha.
  - subst a. intros _. destruct (Str.contains c s) eqn:Hc.
    + destruct (IH eq_refl) as [(h & x & t & Hs) (pre & Hpre & Hlast)].
      split; [rewrite Hs; eauto|].
      exists (String c pre). rewrite Hs, last_item_cons, <- Hs.
      split; [|done]. by rewrite Hpre at 1.
    + rewrite (split_no_sep _ _ Hc). split; [eauto|].
      exists "". by split.
  - intros Hc. destruct (IH Hc) as [(h & x & t & Hs) (pre & Hpre & Hlast)].
    rewrite Hs in *. split; [eauto|].
    exists (String a pre). rewrite last_item_cons. rewrite last_item_cons in Hpre, Hlast.
    split; [|done]. by rewrite Hpre at 1.
Qed.

Lemma contains_lstrip c s :
  Str.is_whitespace c = false → Str.contains c (Str.lstrip s) = Str.contains c s.
Proof.
  intros Hc. induction s as [|a s IH]; simpl; [done|].
  destruct (Str.is_whitespace a) eqn:Ha; [|done].
  rewrite decide_False by congruence. done.
Qed.

Lemma contains_rev_app c s1 s2 :
  Str.contains c (String.rev_app s1 s2) = Str.contains c s1 || Str.contains c s2.
Proof.
  revert s2. induction s1 as [|a s1 IH]; intros s2; simpl; [done|].
  rewrite IH. simpl. case_decide; [|done]. by rewrite orb_true_r.
Qed.

Lemma contains_rev c s : Str.contains c (String.rev s) = Str.contains c s.
Proof. unfold String.rev. rewrite contains_rev_app. simpl. by rewrite orb_false_r. Qed.

(** Trimming removes no character that is not white space. *)
Lemma contains_strip s : Str.contains "@" (Str.strip s) = Str.contains "@" s.
Proof.
  unfold Str.strip, Str.rstrip.
  by rewrite contains_rev, contains_lstrip, contains_rev, contains_lstrip.
Qed.

Lemma lower_char_at a : Str.lower_char a = "@"%char ↔ a = "@"%char.
Proof. destruct a as [[] [] [] [] [] [] [] []]; by vm_compute. Qed.

Lemma contains_at_lower s : Str.contains "@" (Str.lower s) = Str.contains "@" s.
Proof.
  induction s as [|a s IH]; simpl; [done|]. rewrite IH.
  destruct (decide (a = "@"%char)) as [Ha|Ha].
  - by rewrite decide_True by (by apply lower_char_at).
  - by rewrite decide_False by (by rewrite lower_char_at).
Qed.

End StrFacts.

(** ** Blocklist store *)

Section Blocklist.

Lemma add_entry_keeps_nonempty entries raw :
  "" ∉ entries → "" ∉ BlockedDomainsManager.add_entry entries raw.
Proof.
  intros Hne. unfold BlockedDomainsManager.add_entry.
  destruct (Str.lower (Str.strip raw)) eqn:E; simpl; [done|].
  case_bool_decide; [|done].
  intros [?|Hin%list_elem_of_singleton]%elem_of_app; done.
Qed.

Lemma add_entries_keep_nonempty raws entries :
  "" ∉ entries → "" ∉ foldl BlockedDomainsManager.add_entry entries raws.
Proof.
  revert entries. induction raws as [|r raws IH]; intros entries H; simpl; [done|].
  by apply IH, add_entry_keeps_nonempty.
Qed.

Lemma reachable_no_empty_domain d :
  BlockedDomainsManager.reachable d → "" ∉ blocked_domains d.
Proof.
  induction 1 as [|w domains m fs _ IH|w emails m fs _ IH].
  - simpl. apply not_elem_of_nil.
  - unfold BlockedDomainsManager.add_domains.
    destruct (BlockedDomainsManager.save _ _ _); simpl.
    by apply add_entries_keep_nonempty.
  - unfold BlockedDomainsManager.add_emails.
    by destruct (BlockedDomainsManager.save _ _ _).
Qed.

Lemma is_blocked_iff m e :
  BlockedDomainsManager.is_blocked m e = true ↔
  Str.lower (Str.strip e) ∈ blocked_emails (BlockedDomainsManager.data m) ∨
  BlockedDomainsManager.domain_of (Str.lower (Str.strip e))
    ∈ blocked_domains (BlockedDomainsManager.data m).
Proof.
  unfold BlockedDomainsManager.is_blocked.
  case_bool_decide as H1; [tauto|].
  rewrite bool_decide_eq_true. tauto.
Qed.

(** C9. For a blocklist built by [add_domains]/[add_emails], [is_blocked e]
    holds exactly when the trimmed, lower-cased [e] is a blocked address or
    its domain is a blocked domain; the domain is what follows the last [@]
    of the normalised address, and the empty string when [e] has no [@];
    the empty string is never a blocked domain, so an address without [@] is
    blocked only as an exact address. *)
Theorem is_blocked_spec (m : BlockedDomainsManager.t) (e : string) :
  BlockedDomainsManager.reachable (BlockedDomainsManager.data m) →
  let norm := Str.lower (Str.strip e) in
  let domain := BlockedDomainsManager.domain_of norm in
  (BlockedDomainsManager.is_blocked m e = true ↔
     norm ∈ blocked_emails (BlockedDomainsManager.data m) ∨
     domain ∈ blocked_domains (BlockedDomainsManager.data m))
  ∧ (Str.contains "@" e = true →
       (∃ pre, norm = pre +:+ String "@" domain) ∧ Str.contains "@" domain = false)
  ∧ (Str.contains "@" e = false →
       domain = "" ∧
       (BlockedDomainsManager.is_blocked m e = true ↔
          norm ∈ blocked_emails (BlockedDomainsManager.data m)))
  ∧ "" ∉ blocked_domains (BlockedDomainsManager.data m).
Proof.
  intros Hreach norm domain.
  pose proof (reachable_no_empty_domain _ Hreach) as Hne.
  assert (Str.contains "@" norm = Str.contains "@" e) as Hat.
  { subst norm. by rewrite contains_at_lower, contains_strip. }
  rewrite <- Hat.
  split; [apply is_blocked_iff|]. split; [|split; [|done]].
  - intros Hc. subst domain. unfold BlockedDomainsManager.domain_of. rewrite Hc.
    destruct (split_last_suffix _ _ Hc) as [_ (pre & Hpre & Hlast)]. eauto.
  - intros Hc.
    assert (domain = "") as Hd.
    { subst domain. unfold BlockedDomainsManager.domain_of. by rewrite Hc. }
    split; [done|]. rewrite is_blocked_iff. fold norm. fold domain. rewrite Hd.
    tauto.
Qed.

End Blocklist.

(** ** Progress ledger *)

Section Ledger.

Import SendingStateManager.

Implicit Types (m : SendingStateManager.t) (fs : FS) (s : SendingState).

Lemma ledger_le_refl s : ledger_le s s.
Proof. split; [lia|done]. Qed.

Lemma ledger_le_trans s1 s2 s3 : ledger_le s1 s2 → ledger_le s2 s3 → ledger_le s1 s3.
Proof. intros [? ?] [? ?]. split; [lia|by etrans]. Qed.

Lemma was_sent_true m e :
  was_sent m e = true ↔ Str.lower e ∈ Str.lower <$> sent_emails (state m).
Proof. unfold was_sent. apply bool_decide_eq_true. Qed.

(** An address stored in lower case is found whatever the case of the query. *)
Lemma stored_lower_was_sent m e :
  Str.lower e ∈ sent_emails (state m) → was_sent m e = true.
Proof.
  intros Hin. apply was_sent_true.
  rewrite <- (lower_idemp e). by apply list_elem_of_fmap_2.
Qed.

Lemma was_sent_prefix m m' e :
  sent_emails (state m) `prefix_of` sent_emails (state m') →
  was_sent m e = true → was_sent m' e = true.
Proof.
  rewrite !was_sent_true. intros [k ->]. rewrite fmap_app, elem_of_app. auto.
Qed.

(** What [mark_sent] leaves in memory, whatever the write does. *)
Lemma mark_sent_memory now w p e m fs :
  let m' := (mark_sent now w p e m fs).1.1 in
  sender_email m' = sender_email m
  ∧ file_path m' = file_path m
  ∧ last_index_sent (state m') = p
  ∧ sent_emails (state m') =
      (if was_sent m e then sent_emails (state m)
       else sent_emails (state m) ++ [Str.lower e])
  ∧ last_run_date (state m') = Some now.
Proof.
  unfold mark_sent, save, was_sent; simpl.
  destruct (decide (Str.lower e ∈ Str.lower <$> sent_emails (state m))) as [Hin|Hin].
  - rewrite (bool_decide_eq_true_2 _ Hin), bool_decide_eq_false_2 by auto.
    by destruct w.
  - rewrite (bool_decide_eq_false_2 _ Hin), bool_decide_eq_true_2 by done.
    by destruct w.
Qed.

(** What [mark_sent] leaves on disk, by the outcome of the write. *)
Lemma mark_sent_disk now w p e m fs :
  let '(m', fs', r) := mark_sent now w p e m fs in
  match w with
  | WriteOk => fs' = <[file_path m := StateDoc (state m')]> fs ∧ r = Returns ()
  | OpenFails => fs' = fs ∧ r = Raises OSError
  | DumpFails => fs' = <[file_path m := Torn]> fs ∧ r = Raises OSError
  end.
Proof.
  unfold mark_sent, save; simpl. case_bool_decide; by destruct w.
Qed.

Lemma mark_sent_returns now w p e m fs m' fs' :
  mark_sent now w p e m fs = (m', fs', Returns ()) → w = WriteOk.
Proof.
  intros H. pose proof (mark_sent_disk now w p e m fs) as Hd. rewrite H in Hd.
  destruct w; [done| |]; by destruct Hd.
Qed.

Lemma mark_sent_grows now w p e m fs :
  sent_emails (state m) `prefix_of` sent_emails (state (mark_sent now w p e m fs).1.1).
Proof.
  destruct (mark_sent_memory now w p e m fs) as (_ & _ & _ & -> & _).
  destruct (was_sent m e); [done|]. by apply prefix_app_r.
Qed.

Lemma mark_sent_was_sent now w p e m fs :
  was_sent (mark_sent now w p e m fs).1.1 e = true.
Proof.
  apply was_sent_true.
  destruct (mark_sent_memory now w p e m fs) as (_ & _ & _ & -> & _).
  destruct (was_sent m e) eqn:Hw; [by apply was_sent_true|].
  rewrite fmap_app, elem_of_app. right. simpl. rewrite lower_idemp.
  apply list_elem_of_singleton. done.
Qed.

Lemma mark_sent_lowercased now w p e m fs :
  lowercased (state m) → lowercased (state (mark_sent now w p e m fs).1.1).
Proof.
  unfold lowercased.
  destruct (mark_sent_memory now w p e m fs) as (_ & _ & _ & -> & _).
  destruct (was_sent m e); [done|]. intros H.
  apply Forall_app. split; [done|]. constructor; [apply lower_idemp|constructor].
Qed.

Lemma mark_sent_many_grows calls m fs :
  sent_emails (state m) `prefix_of` sent_emails (state (mark_sent_many calls m fs).1).
Proof.
  unfold mark_sent_many. revert m fs.
  induction calls as [|c calls IH]; intros m fs; simpl; [done|].
  unfold mark_sent_call at 2; simpl.
  destruct (mark_sent _ _ _ _ m fs) as [[m1 fs1] r1] eqn:E; simpl.
  etrans; [|apply IH].
  pose proof (mark_sent_grows (call_now c) (call_write c) (call_index c) (call_email c) m fs) as Hg.
  by rewrite E in Hg.
Qed.

(** C3. When [mark_sent p e] returns, the cursor is [p] whatever it was; the
    lower-cased [e] is in the address list, appended only when no stored
    address equals it up to case; the run date is the current time; the file
    of the ledger holds the new state; [was_sent e] is true now, after any
    later calls of the process, and for a manager that is built again from
    the files for the same sender. *)
Theorem mark_sent_spec now w p e m fs m' fs' :
  mark_sent now w p e m fs = (m', fs', Returns ()) →
  last_index_sent (state m') = p
  ∧ Str.lower e ∈ Str.lower <$> sent_emails (state m')
  ∧ (lowercased (state m) → Str.lower e ∈ sent_emails (state m'))
  ∧ sent_emails (state m') =
      (if was_sent m e then sent_emails (state m)
       else sent_emails (state m) ++ [Str.lower e])
  ∧ last_run_date (state m') = Some now
  ∧ fs' !! file_path m = Some (StateDoc (state m'))
  ∧ was_sent m' e = true
  ∧ (∀ calls, was_sent (mark_sent_many calls m' fs').1 e = true)
  ∧ load (file_path m) fs' = Returns (state m')
  ∧ (∀ sender, file_path m = state_file sender →
       ∃ m2, init sender fs' = Returns m2 ∧ state m2 = state m'
             ∧ was_sent m2 e = true).
Proof.
  intros H.
  pose proof (mark_sent_returns _ _ _ _ _ _ _ _ H) as ->.
  pose proof (mark_sent_memory now WriteOk p e m fs) as (_ & Hpath & Hidx & Hsent & Hdate).
  pose proof (mark_sent_disk now WriteOk p e m fs) as Hd.
  pose proof (mark_sent_was_sent now WriteOk p e m fs) as Hw.
  pose proof (mark_sent_lowercased now WriteOk p e m fs) as Hlow.
  rewrite H in *. simpl in *. destruct Hd as [-> _].
  assert (load (file_path m) (<[file_path m:=StateDoc (state m')]> fs)
          = Returns (state m')) as Hload.
  { unfold load. by rewrite lookup_insert_eq. }
  repeat split; try done.
  - by apply was_sent_true.
  - intros Hl. specialize (Hlow Hl). apply was_sent_true in Hw.
    apply list_elem_of_fmap in Hw as (x & Hx & Hin).
    rewrite Hx.
    unfold lowercased in Hlow. rewrite Forall_forall in Hlow.
    by rewrite (Hlow x Hin).
  - apply lookup_insert_eq.
  - intros calls. eapply was_sent_prefix; [apply mark_sent_many_grows|done].
  - intros sender Hs. unfold init. rewrite <- Hs, Hload.
    eexists. split; [done|]. split; [done|].
    by apply was_sent_true, was_sent_true.
Qed.

End Ledger.

(** ** Sending engine: one iteration *)

Section Body.

Import SendingStateManager.

Variable env : Env.
Variable test_mode : bool.
Variable start_index : Z.
Variable blocked_mgr : BlockedDomainsManager.t.

Implicit Types (m : SendingStateManager.t) (fs : FS) (row : Recipient).

Local Abbreviation body := (loop_body env test_mode start_index blocked_mgr).

(** Splits a statement about [loop_body] into the paths of the body. *)
Ltac body_paths H :=
  unfold loop_body in H;
  repeat match type of H with
         | context [if ?b then _ else _] => destruct b eqn:?
         | context [match ?x with _ => _ end] => destruct x eqn:?
         end;
  simplify_eq.

(** A row that is blocked or already sent is skipped: nothing is generated,
    nothing is sent and the ledger is not touched. *)
Lemma body_skip i row m fs :
  BlockedDomainsManager.is_blocked blocked_mgr (email row) || was_sent m (email row) = true →
  body i row m fs = ([EvSkip i (email row)], m, fs, Continue).
Proof. intros H. unfold loop_body. by rewrite H. Qed.

Lemma body_index i row m fs evs m' fs' c :
  body i row m fs = (evs, m', fs', c) →
  evs ≠ [] ∧ Forall (λ ev, ev_index ev = i) evs.
Proof.
  intros H. body_paths H; (split; [done|]); repeat constructor.
Qed.

(** Either the iteration leaves the ledger alone and marks nothing, or it is
    a delivery: the transport returned [True] for a row that was neither
    blocked nor sent, and [mark_sent i] ran. *)
Lemma body_ledger i row m fs evs m' fs' c :
  body i row m fs = (evs, m', fs', c) →
  (m' = m ∧ fs' = fs ∧ filter is_mark evs = [])
  ∨ (test_mode = false
     ∧ send_email (api env i) = Returns SentTrue
     ∧ was_sent m (email row) = false
     ∧ filter is_mark evs = [EvMarkSent i (email row)]
     ∧ ∃ r, mark_sent (clock env i) (write env i) i (email row) m fs = (m', fs', r)
            ∧ c = match r with Returns _ => Continue | Raises e => Raise e end).
Proof.
  intros H. body_paths H; try (left; done);
    right; repeat split; try done;
    try (by match goal with
            | H : _ || _ = false |- _ => apply orb_false_elim in H as [_ ?]
            end);
    eexists; split; try done; done.
Qed.

(** What an attempted delivery says about the iteration. *)
Lemma body_send i row m fs evs m' fs' c j e content :
  body i row m fs = (evs, m', fs', c) →
  EvSend j e content ∈ evs →
  j = i ∧ e = email row ∧ test_mode = false
  ∧ BlockedDomainsManager.is_blocked blocked_mgr e = false
  ∧ was_sent m e = false
  ∧ generate_email_content env i row = Some content.
Proof.
  intros H Hin. body_paths H;
    repeat (apply elem_of_cons in Hin as [Hin|Hin]; [try discriminate|]);
    try (by apply elem_of_nil in Hin);
    simplify_eq;
    match goal with
    | H : _ || _ = false |- _ => apply orb_false_elim in H as [? ?]
    end; done.
Qed.

Lemma body_generate i row m fs evs m' fs' c j row' :
  body i row m fs = (evs, m', fs', c) →
  EvGenerate j row' ∈ evs →
  BlockedDomainsManager.is_blocked blocked_mgr (email row) = false
  ∧ was_sent m (email row) = false.
Proof.
  intros H Hin. body_paths H;
    repeat (apply elem_of_cons in Hin as [Hin|Hin]; [try discriminate|]);
    try (by apply elem_of_nil in Hin);
    match goal with
    | H : _ || _ = false |- _ => apply orb_false_elim in H as [? ?]
    end; done.
Qed.

(** The quota path: the loop is left at once and the ledger is as it was. *)
Lemma body_quota i row m fs evs m' fs' c :
  body i row m fs = (evs, m', fs', c) →
  send_email (api env i) = Returns QuotaError →
  (∃ content, EvSend i (email row) content ∈ evs) →
  c = Break ∧ m' = m ∧ fs' = fs ∧ was_sent m (email row) = false
  ∧ filter is_mark evs = [] ∧ last evs = Some (EvQuotaStop i).
Proof.
  intros H Hq [content Hin]. body_paths H;
    repeat (apply elem_of_cons in Hin as [Hin|Hin]; [try discriminate|]);
    try (by apply elem_of_nil in Hin);
    match goal with
    | H : _ || _ = false |- _ => apply orb_false_elim in H as [? ?]
    end; done.
Qed.

(** An exception of the transport that is not an [HttpError] leaves the body. *)
Lemma body_api_raises i row m fs evs m' fs' c e :
  body i row m fs = (evs, m', fs', c) →
  api env i = ApiRaises e →
  (∃ content, EvSend i (email row) content ∈ evs) →
  c = Raise e ∧ m' = m ∧ fs' = fs ∧ filter is_mark evs = []
  ∧ ∃ content, last evs = Some (EvSend i (email row) content).
Proof.
  intros H Ha [content Hin]. unfold loop_body in H. rewrite Ha in H. simpl in H.
  body_paths H;
    repeat (apply elem_of_cons in Hin as [Hin|Hin]; [try discriminate|]);
    try (by apply elem_of_nil in Hin); eauto 10.
Qed.

(** In test mode the body neither sends nor marks, and changes nothing. *)
Lemma body_test_mode i row m fs evs m' fs' c :
  test_mode = true →
  body i row m fs = (evs, m', fs', c) →
  m' = m ∧ fs' = fs ∧ Forall (λ ev, is_send ev = false ∧ is_mark ev = false) evs.
Proof.
  intros -> H. body_paths H; (split; [done|split; [done|]]); repeat constructor.
Qed.

(** One iteration at a position above the cursor moves the ledger forward. *)
Lemma body_forward i row m fs evs m' fs' c :
  body i row m fs = (evs, m', fs', c) →
  sender_email m' = sender_email m ∧ file_path m' = file_path m
  ∧ sent_emails (state m) `prefix_of` sent_emails (state m')
  ∧ (last_index_sent (state m) < i →
     last_index_sent (state m) ≤ last_index_sent (state m') < i + 1).
Proof.
  intros H.
  destruct (body_ledger _ _ _ _ _ _ _ _ H)
    as [(-> & _ & _)|(_ & _ & Hw & _ & r & Hm & _)].
  { repeat split; try done; lia. }
  pose proof (mark_sent_memory (clock env i) (write env i) i (email row) m fs) as Hmem.
  pose proof (mark_sent_grows (clock env i) (write env i) i (email row) m fs) as Hg.
  rewrite Hm in Hmem, Hg. simpl in Hmem, Hg. destruct Hmem as (? & ? & Hi & _ & _).
  repeat split; try done; lia.
Qed.

End Body.

(** ** Sending engine: the loop *)

Section LoopFacts.

Import SendingStateManager.

Variable env : Env.
Variable test_mode : bool.
Variable start_index : Z.
Variable blocked_mgr : BlockedDomainsManager.t.
Variable df : list Recipient.

Implicit Types (m : SendingStateManager.t) (fs : FS) (row : Recipient).

Local Abbreviation body := (loop_body env test_mode start_index blocked_mgr).
Local Abbreviation run_loop := (loop env test_mode start_index blocked_mgr df).

(** Induction along the iterations of the loop. *)
Lemma loop_ind (P : Z → nat → SendingStateManager.t → FS → Result → Prop) :
  (∀ i m fs, P i O m fs (mkResult [] (Some m) fs Completed)) →
  (∀ i n m fs, iloc df i = None →
     P i (S n) m fs (mkResult [] (Some m) fs (Raised IndexError))) →
  (∀ i n m fs row evs m' fs',
     iloc df i = Some row → body i row m fs = (evs, m', fs', Continue) →
     P (i + 1) n m' fs' (run_loop (i + 1) n m' fs') →
     P i (S n) m fs
       (let r := run_loop (i + 1) n m' fs' in
        mkResult (evs ++ trace r) (ledger r) (disk r) (status r))) →
  (∀ i n m fs row evs m' fs',
     iloc df i = Some row → body i row m fs = (evs, m', fs', Break) →
     P i (S n) m fs (mkResult evs (Some m') fs' Stopped)) →
  (∀ i n m fs row evs m' fs' e,
     iloc df i = Some row → body i row m fs = (evs, m', fs', Raise e) →
     P i (S n) m fs (mkResult evs (Some m') fs' (Raised e))) →
  ∀ i n m fs, P i n m fs (run_loop i n m fs).
Proof.
  intros H0 Hnone Hcont Hbreak Hraise i n. revert i.
  induction n as [|n IH]; intros i m fs; simpl; [apply H0|].
  destruct (iloc df i) as [row|] eqn:Hrow; [|by apply Hnone].
  destruct (body i row m fs) as [[[evs m'] fs'] c] eqn:Hb.
  destruct c; eauto.
Qed.

Lemma iloc_is_Some i :
  is_Some (iloc df i) ↔ - Z.of_nat (length df) ≤ i < Z.of_nat (length df).
Proof.
  unfold iloc. repeat case_bool_decide; rewrite ?lookup_lt_is_Some; try lia.
  split; [intros [? ?]; done|lia].
Qed.

(** Every event of the loop over [i, i + n) carries a position of that range. *)
Lemma loop_index i n m fs ev :
  ev ∈ trace (run_loop i n m fs) → i ≤ ev_index ev < i + Z.of_nat n.
Proof.
  revert ev. pattern i, n, m, fs, (run_loop i n m fs). apply loop_ind; clear; simpl.
  - intros i m fs ev Hin. by apply elem_of_nil in Hin.
  - intros i n m fs _ ev Hin. by apply elem_of_nil in Hin.
  - intros i n m fs row evs m' fs' _ Hb IH ev [Hin|Hin]%elem_of_app.
    + apply body_index in Hb as [_ Hb]. rewrite Forall_forall in Hb.
      rewrite (Hb _ Hin). lia.
    + specialize (IH _ Hin). lia.
  - intros i n m fs row evs m' fs' _ Hb ev Hin.
    apply body_index in Hb as [_ Hb]. rewrite Forall_forall in Hb.
    rewrite (Hb _ Hin). lia.
  - intros i n m fs row evs m' fs' e _ Hb ev Hin.
    apply body_index in Hb as [_ Hb]. rewrite Forall_forall in Hb.
    rewrite (Hb _ Hin). lia.
Qed.

(** The loop returns the manager it was given, moved forward. *)
Lemma loop_forward i n m fs :
  ∃ m', ledger (run_loop i n m fs) = Some m'
        ∧ sender_email m' = sender_email m ∧ file_path m' = file_path m
        ∧ sent_emails (state m) `prefix_of` sent_emails (state m')
        ∧ (last_index_sent (state m) < i →
           last_index_sent (state m) ≤ last_index_sent (state m') < i + Z.of_nat n).
Proof.
  pattern i, n, m, fs, (run_loop i n m fs). apply loop_ind; clear; simpl.
  - intros i m fs. exists m. repeat split; auto; lia.
  - intros i n m fs _. exists m. repeat split; auto; lia.
  - intros i n m fs row evs m' fs' _ Hb (m'' & Hl & Hs & Hp & Hpre & Hc).
    apply body_forward in Hb as (Hs' & Hp' & Hpre' & Hc').
    exists m''. split; [done|]. split; [congruence|]. split; [congruence|].
    split; [by etrans|]. intros Hlt. specialize (Hc' Hlt). lia.
  - intros i n m fs row evs m' fs' _ Hb.
    apply body_forward in Hb as (Hs' & Hp' & Hpre' & Hc').
    exists m'. split; [done|]. split; [done|]. split; [done|].
    split; [done|]. intros Hlt. specialize (Hc' Hlt). lia.
  - intros i n m fs row evs m' fs' e _ Hb.
    apply body_forward in Hb as (Hs' & Hp' & Hpre' & Hc').
    exists m'. split; [done|]. split; [done|]. split; [done|].
    split; [done|]. intros Hlt. specialize (Hc' Hlt). lia.
Qed.

(** The positions passed to [mark_sent] in one pass of the loop go strictly
    up. *)
Lemma loop_marks_sorted i n m fs :
  StronglySorted Z.lt (ev_index <$> filter is_mark (trace (run_loop i n m fs))).
Proof.
  pattern i, n, m, fs, (run_loop i n m fs). apply loop_ind; clear; simpl.
  - constructor.
  - constructor.
  - intros i n m fs row evs m' fs' _ Hb IH. rewrite filter_app, fmap_app.
    destruct (body_ledger _ _ _ _ _ _ _ _ _ _ _ _ Hb)
      as [(_ & _ & ->)|(_ & _ & _ & -> & _)]; simpl; [done|].
    constructor; [done|]. apply Forall_forall. intros k Hk.
    apply list_elem_of_fmap in Hk as (ev & -> & Hev).
    apply list_elem_of_filter in Hev as [_ Hev].
    apply loop_index in Hev. lia.
  - intros i n m fs row evs m' fs' _ Hb.
    destruct (body_ledger _ _ _ _ _ _ _ _ _ _ _ _ Hb)
      as [(_ & _ & ->)|(_ & _ & _ & -> & _)]; simpl; repeat constructor.
  - intros i n m fs row evs m' fs' e _ Hb.
    destruct (body_ledger _ _ _ _ _ _ _ _ _ _ _ _ Hb)
      as [(_ & _ & ->)|(_ & _ & _ & -> & _)]; simpl; repeat constructor.
Qed.

Lemma was_sent_false_prefix m m' e :
  sent_emails (state m) `prefix_of` sent_emails (state m') →
  was_sent m' e = false → was_sent m e = false.
Proof.
  intros Hp Hf. destruct (was_sent m e) eqn:Hw; [|done].
  by rewrite (was_sent_prefix _ _ _ Hp Hw) in Hf.
Qed.

(** A delivery is only attempted for a row that is not blocked and whose
    address was not in the ledger the loop started from. *)
Lemma loop_send i n m fs j e content :
  EvSend j e content ∈ trace (run_loop i n m fs) →
  test_mode = false
  ∧ BlockedDomainsManager.is_blocked blocked_mgr e = false
  ∧ was_sent m e = false
  ∧ ∃ row, iloc df j = Some row ∧ email row = e.
Proof.
  pattern i, n, m, fs, (run_loop i n m fs). apply loop_ind; clear; simpl.
  - intros i m fs Hin. by apply elem_of_nil in Hin.
  - intros i n m fs _ Hin. by apply elem_of_nil in Hin.
  - intros i n m fs row evs m' fs' Hrow Hb IH [Hin|Hin]%elem_of_app.
    + destruct (body_send _ _ _ _ _ _ _ _ _ _ _ _ _ _ _ Hb Hin) as (-> & -> & ? & ? & ? & _).
      eauto 10.
    + destruct (IH Hin) as (? & ? & Hw & ?).
      apply body_forward in Hb as (_ & _ & Hpre & _).
      repeat split; try done. by eapply was_sent_false_prefix.
  - intros i n m fs row evs m' fs' Hrow Hb Hin.
    destruct (body_send _ _ _ _ _ _ _ _ _ _ _ _ _ _ _ Hb Hin) as (-> & -> & ? & ? & ? & _).
    eauto 10.
  - intros i n m fs row evs m' fs' e' Hrow Hb Hin.
    destruct (body_send _ _ _ _ _ _ _ _ _ _ _ _ _ _ _ Hb Hin) as (-> & -> & ? & ? & ? & _).
    eauto 10.
Qed.

(** A row that is blocked, or whose address is in the ledger the loop starts
    from, leaves no event but its skip. *)
Lemma loop_skip i n m fs j row :
  iloc df j = Some row →
  BlockedDomainsManager.is_blocked blocked_mgr (email row) || was_sent m (email row) = true →
  ∀ ev, ev ∈ trace (run_loop i n m fs) → ev_index ev = j → ev = EvSkip j (email row).
Proof.
  intros Hj. pattern i, n, m, fs, (run_loop i n m fs). apply loop_ind; simpl.
  - intros ? ? ? _ ev Hin. by apply elem_of_nil in Hin.
  - intros ? ? ? ? _ _ ev Hin. by apply elem_of_nil in Hin.
  - intros i' n' m' fs' row' evs m'' fs'' Hrow Hb IH Hc ev [Hin|Hin]%elem_of_app Hev.
    + pose proof Hb as Hb'. apply body_index in Hb' as [_ Hidx].
      rewrite Forall_forall in Hidx. rewrite (Hidx _ Hin) in Hev. subst i'.
      simplify_eq. rewrite (body_skip _ _ _ _ _ _ _ _ Hc) in Hb. simplify_eq.
      by apply list_elem_of_singleton in Hin.
    + apply IH; [|done..].
      apply body_forward in Hb as (_ & _ & Hpre & _).
      apply orb_true_iff in Hc as [Hc|Hc]; apply orb_true_iff; [by left|right].
      by eapply was_sent_prefix.
  - intros i' n' m' fs' row' evs m'' fs'' Hrow Hb Hc ev Hin Hev.
    pose proof Hb as Hb'. apply body_index in Hb' as [_ Hidx].
    rewrite Forall_forall in Hidx. rewrite (Hidx _ Hin) in Hev. subst i'.
    simplify_eq. rewrite (body_skip _ _ _ _ _ _ _ _ Hc) in Hb. simplify_eq.
  - intros i' n' m' fs' row' evs m'' fs'' e Hrow Hb Hc ev Hin Hev.
    pose proof Hb as Hb'. apply body_index in Hb' as [_ Hidx].
    rewrite Forall_forall in Hidx. rewrite (Hidx _ Hin) in Hev. subst i'.
    simplify_eq. rewrite (body_skip _ _ _ _ _ _ _ _ Hc) in Hb. simplify_eq.
Qed.

(** In test mode the loop leaves the ledger and the files as they were. *)
Lemma loop_test_mode i n m fs :
  test_mode = true →
  ledger (run_loop i n m fs) = Some m ∧ disk (run_loop i n m fs) = fs
  ∧ Forall (λ ev, is_send ev = false ∧ is_mark ev = false) (trace (run_loop i n m fs)).
Proof.
  intros Ht. pattern i, n, m, fs, (run_loop i n m fs). apply loop_ind; clear - Ht; simpl.
  - intros. repeat split; constructor.
  - intros. repeat split; constructor.
  - intros i n m fs row evs m' fs' _ Hb (Hl & Hd & Hf).
    apply (body_test_mode _ _ _ _ _ _ _ _ _ _ _ _ Ht) in Hb as (-> & -> & Hevs).
    repeat split; try done. by apply Forall_app.
  - intros i n m fs row evs m' fs' _ Hb.
    by apply (body_test_mode _ _ _ _ _ _ _ _ _ _ _ _ Ht) in Hb as (-> & -> & Hevs).
  - intros i n m fs row evs m' fs' e _ Hb.
    by apply (body_test_mode _ _ _ _ _ _ _ _ _ _ _ _ Ht) in Hb as (-> & -> & Hevs).
Qed.

End LoopFacts.

Section LoopDisk.

Import SendingStateManager.

Variable env : Env.
Variable test_mode : bool.
Variable start_index : Z.
Variable blocked_mgr : BlockedDomainsManager.t.
Variable df : list Recipient.

Implicit Types (m : SendingStateManager.t) (fs : FS) (row : Recipient).

Local Abbreviation body := (loop_body env test_mode start_index blocked_mgr).
Local Abbreviation run_loop := (loop env test_mode start_index blocked_mgr df).

(** Whatever a loadable ledger file holds after an iteration is ahead of any
    state that both the memory and the file were ahead of before. *)
Lemma body_disk i row m fs evs m' fs' c s0 :
  body i row m fs = (evs, m', fs', c) →
  last_index_sent (state m) < i →
  ledger_le s0 (state m) →
  (∀ s, load (file_path m) fs = Returns s → ledger_le s0 s) →
  ledger_le s0 (state m')
  ∧ ∀ s, load (file_path m) fs' = Returns s → ledger_le s0 s.
Proof.
  intros Hb Hlt Hmem Hdisk.
  pose proof (body_forward _ _ _ _ _ _ _ _ _ _ _ _ Hb) as (_ & _ & Hpre & Hcur).
  specialize (Hcur Hlt).
  assert (ledger_le s0 (state m')) as Hmem'.
  { eapply ledger_le_trans; [done|]. split; [lia|done]. }
  split; [done|].
  destruct (body_ledger _ _ _ _ _ _ _ _ _ _ _ _ Hb)
    as [(_ & -> & _)|(_ & _ & _ & _ & r & Hm & _)]; [done|].
  pose proof (mark_sent_disk (clock env i) (write env i) i (email row) m fs) as Hd.
  rewrite Hm in Hd. destruct (write env i); destruct Hd as [-> _]; [| done |].
  - intros s. unfold load. rewrite lookup_insert_eq. by intros [= <-].
  - intros s. unfold load. by rewrite lookup_insert_eq.
Qed.

Lemma loop_disk i n m fs s0 :
  last_index_sent (state m) < i →
  ledger_le s0 (state m) →
  (∀ s, load (file_path m) fs = Returns s → ledger_le s0 s) →
  ∀ s, load (file_path m) (disk (run_loop i n m fs)) = Returns s → ledger_le s0 s.
Proof.
  pattern i, n, m, fs, (run_loop i n m fs). apply loop_ind; clear - s0; simpl.
  - auto.
  - auto.
  - intros i n m fs row evs m' fs' _ Hb IH Hlt Hmem Hdisk.
    destruct (body_disk _ _ _ _ _ _ _ _ _ Hb Hlt Hmem Hdisk) as [Hmem' Hdisk'].
    apply body_forward in Hb as (_ & Hp & _ & Hcur). rewrite <- Hp.
    apply IH; [lia|done|by rewrite Hp].
  - intros i n m fs row evs m' fs' _ Hb Hlt Hmem Hdisk.
    by destruct (body_disk _ _ _ _ _ _ _ _ _ Hb Hlt Hmem Hdisk).
  - intros i n m fs row evs m' fs' e _ Hb Hlt Hmem Hdisk.
    by destruct (body_disk _ _ _ _ _ _ _ _ _ Hb Hlt Hmem Hdisk).
Qed.

(** An iteration that does not raise leaves memory and file in step. *)
Lemma body_synced i row m fs evs m' fs' c :
  body i row m fs = (evs, m', fs', c) →
  (∀ e, c ≠ Raise e) →
  synced m fs → synced m' fs'.
Proof.
  intros Hb Hc Hs.
  destruct (body_ledger _ _ _ _ _ _ _ _ _ _ _ _ Hb)
    as [(-> & -> & _)|(_ & _ & _ & _ & r & Hm & ->)]; [done|].
  pose proof (mark_sent_disk (clock env i) (write env i) i (email row) m fs) as Hd.
  pose proof (mark_sent_memory (clock env i) (write env i) i (email row) m fs)
    as (_ & Hp & _).
  rewrite Hm in Hd, Hp. simpl in Hp.
  destruct (write env i); destruct Hd as [-> ->]; [|by destruct (Hc OSError)..].
  unfold synced, load. by rewrite Hp, lookup_insert_eq.
Qed.

Lemma loop_synced i n m fs m' :
  synced m fs →
  (∀ e, status (run_loop i n m fs) ≠ Raised e) →
  ledger (run_loop i n m fs) = Some m' →
  synced m' (disk (run_loop i n m fs)).
Proof.
  revert m'. pattern i, n, m, fs, (run_loop i n m fs). apply loop_ind; clear; simpl.
  - by intros i m fs m' Hs _ [= <-].
  - intros i n m fs _ m' _ Hc. by destruct (Hc IndexError).
  - intros i n m fs row evs m1 fs1 _ Hb IH m' Hs Hc Hl.
    apply IH; [|done..]. eapply body_synced; [done| |done]. done.
  - intros i n m fs row evs m1 fs1 _ Hb m' Hs _ [= <-].
    eapply body_synced; [done| |done]. done.
  - intros i n m fs row evs m1 fs1 e _ Hb m' _ Hc. by destruct (Hc e).
Qed.

(** The loop starts with its first position. *)
Lemma loop_head i n m fs :
  is_Some (iloc df i) → n ≠ O →
  ∃ ev rest, trace (run_loop i n m fs) = ev :: rest ∧ ev_index ev = i.
Proof.
  intros [row Hrow] Hn. destruct n as [|n]; [done|]. simpl. rewrite Hrow.
  destruct (body i row m fs) as [[[evs m'] fs'] c] eqn:Hb.
  apply body_index in Hb as [Hne Hidx].
  destruct evs as [|ev evs]; [done|]. apply Forall_cons in Hidx as [Hev _].
  destruct c; simpl; eauto.
Qed.

(** A quota answer at position [k] ends the loop there. *)
Lemma loop_quota i n m fs k e content :
  EvSend k e content ∈ trace (run_loop i n m fs) →
  send_email (api env k) = Returns QuotaError →
  status (run_loop i n m fs) = Stopped
  ∧ last (trace (run_loop i n m fs)) = Some (EvQuotaStop k)
  ∧ (∀ ev, ev ∈ trace (run_loop i n m fs) → ev_index ev ≤ k)
  ∧ (∀ ev, ev ∈ trace (run_loop i n m fs) → is_mark ev = true → ev_index ev < k)
  ∧ ∃ m', ledger (run_loop i n m fs) = Some m'
          ∧ was_sent m' e = false
          ∧ (last_index_sent (state m) < i → last_index_sent (state m') < k).
Proof.
  intros Hin Hq. revert Hin.
  pattern i, n, m, fs, (run_loop i n m fs). apply loop_ind; clear - Hq; simpl.
  - intros i m fs Hin. by apply elem_of_nil in Hin.
  - intros i n m fs _ Hin. by apply elem_of_nil in Hin.
  - intros i n m fs row evs m' fs' Hrow Hb IH [Hin|Hin]%elem_of_app.
    { destruct (body_send _ _ _ _ _ _ _ _ _ _ _ _ _ _ _ Hb Hin) as (-> & -> & _).
      by destruct (body_quota _ _ _ _ _ _ _ _ _ _ _ _ Hb Hq (ex_intro _ content Hin)). }
    pose proof (loop_index _ _ _ _ _ _ _ _ _ _ Hin) as Hk. simpl in Hk.
    destruct (IH Hin) as (Hst & Hlast & Hle & Hmk & m'' & Hl & Hw & Hcur).
    pose proof Hb as Hb'. apply body_index in Hb' as [_ Hidx].
    rewrite Forall_forall in Hidx.
    split; [done|]. split.
    { rewrite last_app, Hlast. done. }
    split.
    { intros ev [Hev|Hev]%elem_of_app; [rewrite (Hidx _ Hev); lia|by apply Hle]. }
    split.
    { intros ev [Hev|Hev]%elem_of_app ?; [rewrite (Hidx _ Hev); lia|by apply Hmk]. }
    exists m''. split; [done|]. split; [done|]. intros Hlt. apply Hcur.
    apply body_forward in Hb as (_ & _ & _ & Hc). specialize (Hc Hlt). lia.
  - intros i n m fs row evs m' fs' Hrow Hb Hin.
    destruct (body_send _ _ _ _ _ _ _ _ _ _ _ _ _ _ _ Hb Hin) as (-> & -> & _ & _ & Hw & _).
    destruct (body_quota _ _ _ _ _ _ _ _ _ _ _ _ Hb Hq (ex_intro _ content Hin))
      as (_ & -> & -> & _ & Hmk & Hlast).
    pose proof Hb as Hb'. apply body_index in Hb' as [_ Hidx].
    rewrite Forall_forall in Hidx.
    split; [done|]. split; [done|]. split.
    { intros ev Hev. rewrite (Hidx _ Hev). lia. }
    split.
    { intros ev Hev Hm. 
      assert (ev ∈ filter is_mark evs) as Hf by (apply list_elem_of_filter; by rewrite Hm).
      rewrite Hmk in Hf. by apply elem_of_nil in Hf. }
    eauto.
  - intros i n m fs row evs m' fs' e' Hrow Hb Hin.
    destruct (body_send _ _ _ _ _ _ _ _ _ _ _ _ _ _ _ Hb Hin) as (-> & -> & _).
    by destruct (body_quota _ _ _ _ _ _ _ _ _ _ _ _ Hb Hq (ex_intro _ content Hin)).
Qed.

End LoopDisk.

Section LoopReach.

Import SendingStateManager.

Variable env : Env.
Variable test_mode : bool.
Variable start_index : Z.
Variable blocked_mgr : BlockedDomainsManager.t.
Variable df : list Recipient.

Implicit Types (m : SendingStateManager.t) (fs : FS) (row : Recipient).

Local Abbreviation body := (loop_body env test_mode start_index blocked_mgr).
Local Abbreviation run_loop := (loop env test_mode start_index blocked_mgr df).
Local Abbreviation gets_to := (reaches env test_mode start_index blocked_mgr df).

(** An exception of the transport at position [k] ends the loop there. *)
Lemma loop_api_raises i n m fs k e content x :
  EvSend k e content ∈ trace (run_loop i n m fs) →
  api env k = ApiRaises x →
  status (run_loop i n m fs) = Raised x
  ∧ last (trace (run_loop i n m fs)) = Some (EvSend k e content)
  ∧ (∀ ev, ev ∈ trace (run_loop i n m fs) → ev_index ev ≤ k)
  ∧ (∀ ev, ev ∈ trace (run_loop i n m fs) → is_mark ev = true → ev_index ev < k)
  ∧ ∃ m', ledger (run_loop i n m fs) = Some m' ∧ was_sent m' e = false.
Proof.
  intros Hin Hx. revert Hin.
  pattern i, n, m, fs, (run_loop i n m fs). apply loop_ind; clear - Hx; simpl.
  - intros i m fs Hin. by apply elem_of_nil in Hin.
  - intros i n m fs _ Hin. by apply elem_of_nil in Hin.
  - intros i n m fs row evs m' fs' Hrow Hb IH [Hin|Hin]%elem_of_app.
    { destruct (body_send _ _ _ _ _ _ _ _ _ _ _ _ _ _ _ Hb Hin) as (-> & -> & _).
      by destruct (body_api_raises _ _ _ _ _ _ _ _ _ _ _ _ _ Hb Hx (ex_intro _ content Hin)). }
    pose proof (loop_index _ _ _ _ _ _ _ _ _ _ Hin) as Hk. simpl in Hk.
    destruct (IH Hin) as (Hst & Hlast & Hle & Hmk & m'' & Hl & Hw).
    pose proof Hb as Hb'. apply body_index in Hb' as [_ Hidx].
    rewrite Forall_forall in Hidx.
    split; [done|]. split.
    { rewrite last_app, Hlast. done. }
    split.
    { intros ev [Hev|Hev]%elem_of_app; [rewrite (Hidx _ Hev); lia|by apply Hle]. }
    split.
    { intros ev [Hev|Hev]%elem_of_app ?; [rewrite (Hidx _ Hev); lia|by apply Hmk]. }
    eauto.
  - intros i n m fs row evs m' fs' Hrow Hb Hin.
    destruct (body_send _ _ _ _ _ _ _ _ _ _ _ _ _ _ _ Hb Hin) as (-> & -> & _).
    by destruct (body_api_raises _ _ _ _ _ _ _ _ _ _ _ _ _ Hb Hx (ex_intro _ content Hin)).
  - intros i n m fs row evs m' fs' e' Hrow Hb Hin.
    destruct (body_send _ _ _ _ _ _ _ _ _ _ _ _ _ _ _ Hb Hin) as (-> & -> & _ & _ & Hw & Hg).
    destruct (body_api_raises _ _ _ _ _ _ _ _ _ _ _ _ _ Hb Hx (ex_intro _ content Hin))
      as ([= ->] & -> & -> & Hmk & content' & Hlast).
    pose proof Hb as Hb'. apply body_index in Hb' as [_ Hidx].
    rewrite Forall_forall in Hidx.
    split; [done|]. split.
    { rewrite Hlast. f_equal. f_equal.
      assert (EvSend i (email row) content' ∈ evs) as Hin'.
      { by apply last_Some_elem_of. }
      destruct (body_send _ _ _ _ _ _ _ _ _ _ _ _ _ _ _ Hb Hin') as (_ & _ & _ & _ & _ & Hg').
      congruence. }
    split.
    { intros ev Hev. rewrite (Hidx _ Hev). lia. }
    split.
    { intros ev Hev Hm.
      assert (ev ∈ filter is_mark evs) as Hf by (apply list_elem_of_filter; by rewrite Hm).
      rewrite Hmk in Hf. by apply elem_of_nil in Hf. }
    eauto.
Qed.

Lemma reaches_range i n m fs j mj fsj :
  gets_to i n m fs j mj fsj → i ≤ j < i + Z.of_nat n.
Proof. induction 1; lia. Qed.

(** The loop gets to every position with the cursor below it. *)
Lemma reaches_forward i n m fs j mj fsj :
  gets_to i n m fs j mj fsj →
  last_index_sent (state m) < i →
  last_index_sent (state mj) < j ∧ ledger_le (state m) (state mj).
Proof.
  induction 1 as [i n m fs|i n m fs row evs m' fs' j mj fsj Hrow Hb Hr IH];
    intros Hlt.
  - split; [done|apply ledger_le_refl].
  - apply body_forward in Hb as (_ & _ & Hpre & Hcur). specialize (Hcur Hlt).
    destruct IH as [Hj Hle]; [lia|]. split; [done|].
    eapply ledger_le_trans; [|done]. split; [lia|done].
Qed.

(** When the loop gets to a row that is blocked or already sent at that
    moment, the body only skips it, and no other event of the whole loop
    belongs to that position. *)
Lemma reaches_skip i n m fs j mj fsj row :
  gets_to i n m fs j mj fsj →
  iloc df j = Some row →
  BlockedDomainsManager.is_blocked blocked_mgr (email row) || was_sent mj (email row) = true →
  body j row mj fsj = ([EvSkip j (email row)], mj, fsj, Continue)
  ∧ ∀ ev, ev ∈ trace (run_loop i n m fs) → ev_index ev = j → ev = EvSkip j (email row).
Proof.
  intros Hr Hrow Hc. split; [by apply body_skip|].
  induction Hr as [i n m fs|i n m fs row' evs m' fs' j mj fsj Hrow' Hb Hr IH].
  - by apply loop_skip.
  - intros ev. simpl. rewrite Hrow', Hb. simpl.
    intros [Hin|Hin]%elem_of_app Hev; [|by apply IH].
    apply body_index in Hb as [_ Hidx]. rewrite Forall_forall in Hidx.
    rewrite (Hidx _ Hin) in Hev. apply reaches_range in Hr. lia.
Qed.

End LoopReach.

(** ** Sending engine: a run *)

Section Run.

Import SendingStateManager.

Lemma init_synced sender fs m :
  init sender fs = Returns m →
  synced m fs ∧ file_path m = state_file sender
  ∧ load (state_file sender) fs = Returns (state m).
Proof.
  unfold init, synced. destruct (load (state_file sender) fs) eqn:Hl; [|done].
  by intros [= <-].
Qed.

(** A run either ends before the loop, with nothing done, or is the loop from
    the position after the cursor to the end of the list. *)
Lemma run_cases (self : JobApplicationSystem.t) env recipients test_mode fs :
  let r := run_sending_process self env recipients test_mode fs in
  (trace r = [] ∧ ledger r = None ∧ disk r = fs ∧ status r ≠ Completed ∧ status r ≠ Stopped)
  ∨ ∃ df blocked_mgr m0,
      recipients = Some df
      ∧ BlockedDomainsManager.init BLOCKED_DOMAINS_FILE fs = Returns blocked_mgr
      ∧ init (JobApplicationSystem.sender_email self) fs = Returns m0
      ∧ r = loop env test_mode (last_index_sent (state m0) + 1) blocked_mgr df
              (last_index_sent (state m0) + 1)
              (Z.to_nat (Z.of_nat (length df) - (last_index_sent (state m0) + 1)))
              m0 fs.
Proof.
  unfold run_sending_process.
  destruct (gmail_service self); simpl; [|by left].
  destruct recipients as [df|]; [|by left].
  destruct (BlockedDomainsManager.init _ _) as [bl|e] eqn:Hbl; [|by left].
  destruct (init _ _) as [m0|e] eqn:Hm; [|by left].
  right. eauto 10.
Qed.

End Run.

Section RunFacts.

Import SendingStateManager.

Implicit Types (self : JobApplicationSystem.t) (m : SendingStateManager.t) (fs : FS).

Lemma body_other_files env test_mode start_index blocked_mgr i row m fs evs m' fs' c path :
  loop_body env test_mode start_index blocked_mgr i row m fs = (evs, m', fs', c) →
  path ≠ file_path m → fs' !! path = fs !! path.
Proof.
  intros Hb Hp.
  destruct (body_ledger _ _ _ _ _ _ _ _ _ _ _ _ Hb)
    as [(_ & -> & _)|(_ & _ & _ & _ & r & Hm & _)]; [done|].
  pose proof (mark_sent_disk (clock env i) (write env i) i (email row) m fs) as Hd.
  rewrite Hm in Hd.
  destruct (write env i); destruct Hd as [-> _]; by rewrite ?lookup_insert_ne.
Qed.

(** The loop writes no file but the one of its ledger. *)
Lemma loop_other_files env test_mode start_index blocked_mgr df i n m fs path :
  path ≠ file_path m →
  disk (loop env test_mode start_index blocked_mgr df i n m fs) !! path = fs !! path.
Proof.
  pattern i, n, m, fs, (loop env test_mode start_index blocked_mgr df i n m fs).
  apply loop_ind; clear - path; simpl; try done.
  - intros i n m fs row evs m' fs' _ Hb IH Hp.
    pose proof (body_forward _ _ _ _ _ _ _ _ _ _ _ _ Hb) as (_ & Hp' & _).
    rewrite IH by congruence. by eapply body_other_files.
  - intros i n m fs row evs m' fs' _ Hb Hp. by eapply body_other_files.
  - intros i n m fs row evs m' fs' e _ Hb Hp. by eapply body_other_files.
Qed.

Lemma loop_events_iloc env test_mode start_index blocked_mgr df i n m fs :
  trace (loop env test_mode start_index blocked_mgr df i n m fs) ≠ [] →
  is_Some (iloc df i).
Proof.
  destruct n as [|n]; simpl; [done|]. destruct (iloc df i); [eauto|done].
Qed.

Lemma state_file_not_blocklist sender : state_file sender ≠ BLOCKED_DOMAINS_FILE.
Proof. unfold state_file. done. Qed.

(** A run leaves the blocklist file alone. *)
Lemma run_blocklist_file self env recipients test_mode fs :
  BlockedDomainsManager.init BLOCKED_DOMAINS_FILE
    (disk (run_sending_process self env recipients test_mode fs))
  = BlockedDomainsManager.init BLOCKED_DOMAINS_FILE fs.
Proof.
  destruct (run_cases self env recipients test_mode fs)
    as [(_ & _ & -> & _)|(df & bl & m0 & -> & Hbl & Hm & ->)]; [done|].
  unfold BlockedDomainsManager.init, BlockedDomainsManager.load.
  rewrite loop_other_files; [done|].
  apply init_synced in Hm as (_ & -> & _). apply not_eq_sym, state_file_not_blocklist.
Qed.

(** What a run does to the ledger of its sender. *)
Lemma run_forward self env recipients test_mode fs m0 :
  init (JobApplicationSystem.sender_email self) fs = Returns m0 →
  let r := run_sending_process self env recipients test_mode fs in
  (∀ m', ledger r = Some m' →
     file_path m' = file_path m0 ∧ ledger_le (state m0) (state m'))
  ∧ (∀ ev, ev ∈ trace r → last_index_sent (state m0) + 1 ≤ ev_index ev)
  ∧ StronglySorted Z.lt (ev_index <$> filter is_mark (trace r))
  ∧ (∀ s, load (file_path m0) (disk r) = Returns s → ledger_le (state m0) s).
Proof.
  intros Hm r. subst r.
  destruct (run_cases self env recipients test_mode fs)
    as [(-> & -> & -> & _)|(df & bl & m0' & -> & Hbl & Hm' & ->)].
  { split; [done|]. split; [by intros ev ?%elem_of_nil|]. split; [constructor|].
    apply init_synced in Hm as (Hs & _). intros s. rewrite Hs. intros [= <-].
    apply ledger_le_refl. }
  assert (m0' = m0) as -> by congruence. clear Hm'.
  set (start := last_index_sent (state m0) + 1).
  split.
  { intros m' Hl.
    destruct (loop_forward env test_mode start bl df start
                (Z.to_nat (Z.of_nat (length df) - start)) m0 fs)
      as (m'' & Hl' & _ & Hp & Hpre & Hcur).
    rewrite Hl in Hl'. simplify_eq. split; [done|]. split; [|done].
    subst start. lia. }
  split.
  { intros ev Hev. apply loop_index in Hev. lia. }
  split; [apply loop_marks_sorted|].
  apply loop_disk; [subst start; lia|apply ledger_le_refl|].
  apply init_synced in Hm as (Hs & _). intros s. rewrite Hs. intros [= <-].
  apply ledger_le_refl.
Qed.

(** A run that cannot load the ledger changes no file. *)
Lemma run_load_fails self env recipients test_mode fs e :
  load (state_file (JobApplicationSystem.sender_email self)) fs = Raises e →
  disk (run_sending_process self env recipients test_mode fs) = fs.
Proof.
  intros Hl.
  destruct (run_cases self env recipients test_mode fs)
    as [(_ & _ & -> & _)|(df & bl & m0' & -> & Hbl & Hm' & ->)]; [done|].
  apply init_synced in Hm' as (_ & _ & Hl'). congruence.
Qed.

Lemma invoke_all_forward self invs fs s s' :
  load (state_file (JobApplicationSystem.sender_email self)) fs = Returns s →
  load (state_file (JobApplicationSystem.sender_email self)) (invoke_all self invs fs)
    = Returns s' →
  ledger_le s s'.
Proof.
  unfold invoke_all. revert fs s.
  induction invs as [|inv invs IH]; intros fs s Hs Hs'; simpl in *.
  { rewrite Hs in Hs'. simplify_eq. apply ledger_le_refl. }
  set (path := state_file (JobApplicationSystem.sender_email self)) in *.
  destruct (load path (invoke self fs inv)) as [s1|e] eqn:H1.
  - eapply ledger_le_trans; [|by eapply IH].
    assert (init (JobApplicationSystem.sender_email self) fs
            = Returns (mk (storage_token (JobApplicationSystem.sender_email self)) path s)) as Hm.
    { unfold init. fold path. by rewrite Hs. }
    destruct (run_forward self (inv_env inv) (inv_recipients inv) (inv_test_mode inv) fs _ Hm)
      as (_ & _ & _ & Hd).
    by apply Hd.
  - exfalso. clear IH Hs.
    assert (∀ fs0, load path fs0 = Raises e →
              load path (foldl (invoke self) fs0 invs) = Raises e) as Hstuck.
    { clear. induction invs as [|inv invs IH]; intros fs0 H0; simpl; [done|].
      apply IH. unfold invoke. by erewrite run_load_fails. }
    rewrite (Hstuck _ H1) in Hs'. done.
Qed.

End RunFacts.

(** ** The engine's properties *)

Section Engine.

Import SendingStateManager.

Implicit Types (self : JobApplicationSystem.t) (m : SendingStateManager.t) (fs : FS).

Lemma status_quota st :
  bool_decide (st ∈ [403; 429]) = true ↔ st = 403 ∨ st = 429.
Proof.
  rewrite bool_decide_eq_true, elem_of_cons, list_elem_of_singleton. done.
Qed.

Lemma send_email_true o : send_email o = Returns SentTrue ↔ o = ApiOk.
Proof.
  destruct o as [|st|x]; simpl; [done| |done].
  destruct (bool_decide _); done.
Qed.

Lemma send_email_quota o :
  send_email o = Returns QuotaError ↔
  ∃ st, o = ApiHttpError st ∧ (st = 403 ∨ st = 429).
Proof.
  destruct o as [|st|x]; simpl.
  - split; [done|]. by intros (st & ? & _).
  - destruct (bool_decide _) eqn:Hst.
    + apply status_quota in Hst. split; eauto.
    + split; [done|]. intros (st' & [= <-] & Hq).
      apply status_quota in Hq. congruence.
  - split; [done|]. by intros (st & ? & _).
Qed.

Lemma send_email_false o :
  send_email o = Returns SentFalse ↔
  ∃ st, o = ApiHttpError st ∧ st ≠ 403 ∧ st ≠ 429.
Proof.
  destruct o as [|st|x]; simpl.
  - split; [done|]. by intros (st & ? & _).
  - destruct (bool_decide _) eqn:Hst.
    + apply status_quota in Hst. split; [done|].
      intros (st' & [= <-] & ? & ?). by destruct Hst.
    + split; [|done]. intros _. exists st. split; [done|].
      split; intros ->; done.
  - split; [done|]. by intros (st & ? & _).
Qed.

Lemma send_email_raises o e : send_email o = Raises e ↔ o = ApiRaises e.
Proof.
  destruct o as [|st|x]; simpl; [done| |].
  - destruct (bool_decide _); done.
  - split; by intros [= ->].
Qed.

Lemma send_email_returns o :
  (∃ res, send_email o = Returns res) ↔ (o = ApiOk ∨ ∃ st, o = ApiHttpError st).
Proof.
  destruct o as [|st|x]; simpl.
  - split; eauto.
  - split; [eauto|]. intros _. destruct (bool_decide _); eauto.
  - split; [by intros [res ?]|]. by intros [?|[st ?]].
Qed.

(** C8. In test mode a run never calls the transport and never calls
    [mark_sent], whatever the recipients and the collaborators: the files
    after the run are the files before it, and the ledger in memory is the
    one that was loaded. *)
Theorem dry_run_changes_nothing self env recipients fs :
  let r := run_sending_process self env recipients true fs in
  Forall (λ ev, is_send ev = false ∧ is_mark ev = false) (trace r)
  ∧ disk r = fs
  ∧ ∀ m, ledger r = Some m →
         init (JobApplicationSystem.sender_email self) fs = Returns m.
Proof.
  intros r. subst r.
  destruct (run_cases self env recipients true fs)
    as [(-> & -> & -> & _)|(df & bl & m0 & -> & Hbl & Hm & ->)].
  { split; [constructor|]. split; [done|]. intros m Hl. discriminate. }
  destruct (loop_test_mode env true (last_index_sent (state m0) + 1) bl df
              (last_index_sent (state m0) + 1)
              (Z.to_nat (Z.of_nat (length df) - (last_index_sent (state m0) + 1)))
              m0 fs eq_refl) as (Hl & Hd & Hf).
  split; [done|]. split; [done|]. intros m. rewrite Hl. by intros [= <-].
Qed.

(** C10. [send_email] returns [True] exactly when the API call raises
    nothing, ["QUOTA_ERROR"] exactly on an [HttpError] with status 403 or
    429, [False] exactly on any other [HttpError]; it has one of these three
    results exactly when the API raises nothing or an [HttpError]. Any other
    exception leaves [send_email], and the run with it: the run ends raising
    that exception at that position, with no [mark_sent] for it and the
    address not in the ledger. *)
Theorem send_email_outcomes :
  (∀ o,
     (send_email o = Returns SentTrue ↔ o = ApiOk)
     ∧ (send_email o = Returns QuotaError ↔
          ∃ st, o = ApiHttpError st ∧ (st = 403 ∨ st = 429))
     ∧ (send_email o = Returns SentFalse ↔
          ∃ st, o = ApiHttpError st ∧ st ≠ 403 ∧ st ≠ 429)
     ∧ (∀ e, send_email o = Raises e ↔ o = ApiRaises e)
     ∧ ((∃ res, send_email o = Returns res) ↔
          (o = ApiOk ∨ ∃ st, o = ApiHttpError st)))
  ∧ (∀ self env recipients test_mode fs k e content x,
       let r := run_sending_process self env recipients test_mode fs in
       EvSend k e content ∈ trace r →
       api env k = ApiRaises x →
       status r = Raised x
       ∧ last (trace r) = Some (EvSend k e content)
       ∧ (∀ ev, ev ∈ trace r → ev_index ev ≤ k)
       ∧ (∀ ev, ev ∈ trace r → is_mark ev = true → ev_index ev < k)
       ∧ ∃ m', ledger r = Some m' ∧ was_sent m' e = false).
Proof.
  split.
  - intros o. split; [apply send_email_true|]. split; [apply send_email_quota|].
    split; [apply send_email_false|]. split; [apply send_email_raises|].
    apply send_email_returns.
  - intros self env recipients test_mode fs k e content x r Hin Hx. subst r.
    destruct (run_cases self env recipients test_mode fs)
      as [(Ht & _)|(df & bl & m0 & -> & Hbl & Hm & Hr)].
    { rewrite Ht in Hin. by apply elem_of_nil in Hin. }
    rewrite Hr in Hin |- *. by eapply loop_api_raises.
Qed.

End Engine.

Section EngineRuns.

Import SendingStateManager.

Implicit Types (self : JobApplicationSystem.t) (m : SendingStateManager.t) (fs : FS).

(** C1. A second run on the files the first run left, over the same
    recipients: every position it visits lies after the cursor; it attempts
    no delivery to an address that the ledger already holds (compared in
    lower case); and a row with such an address leaves no event but the skip
    of the [was_sent] check. *)
Theorem second_run_sends_nothing_again self env1 env2 recipients tm1 tm2 fs m1 :
  let r1 := run_sending_process self env1 recipients tm1 fs in
  let r2 := run_sending_process self env2 recipients tm2 (disk r1) in
  init (JobApplicationSystem.sender_email self) (disk r1) = Returns m1 →
  (∀ ev, ev ∈ trace r2 → last_index_sent (state m1) < ev_index ev)
  ∧ (∀ j e content, EvSend j e content ∈ trace r2 →
       (Str.lower e ∉ Str.lower <$> sent_emails (state m1))
       ∧ (Str.lower e ∉ sent_emails (state m1)))
  ∧ (∀ df j row, recipients = Some df → iloc df j = Some row →
       Str.lower (email row) ∈ Str.lower <$> sent_emails (state m1) →
       ∀ ev, ev ∈ trace r2 → ev_index ev = j → ev = EvSkip j (email row)).
Proof.
  intros r1 r2 Hm1. subst r2. generalize dependent (disk r1). clear r1.
  intros fs1 Hm1.
  destruct (run_cases self env2 recipients tm2 fs1)
    as [(-> & _)|(df & bl & m0 & -> & Hbl & Hm & ->)].
  { repeat split; intros; exfalso; eapply elem_of_nil; eauto. }
  assert (m0 = m1) as -> by congruence.
  split; [|split].
  - intros ev Hev. apply loop_index in Hev. lia.
  - intros j e content Hin.
    apply loop_send in Hin as (_ & _ & Hw & _).
    assert (Str.lower e ∉ Str.lower <$> sent_emails (state m1)) as Hnot.
    { intros Hin. apply was_sent_true in Hin. congruence. }
    split; [done|]. intros Hin. apply stored_lower_was_sent in Hin. congruence.
  - intros df' j row [= <-] Hrow Hin. apply loop_skip with (row := row); [done|].
    apply orb_true_iff. right. by apply was_sent_true.
Qed.

(** C4. When the loop gets to a row that is blocked or already sent at that
    moment, the body only reports the skip and returns the ledger and the
    files as they were; in the whole run no event of that position is a call
    of the generator, of the transport or of [mark_sent]. An address whose
    domain is a blocked domain is blocked, so its row never gets to the
    generator. *)
Theorem skipped_rows_untouched self env df test_mode fs blocked_mgr m0 j mj fsj row :
  JobApplicationSystem.gmail_service self = true →
  BlockedDomainsManager.init BLOCKED_DOMAINS_FILE fs = Returns blocked_mgr →
  init (JobApplicationSystem.sender_email self) fs = Returns m0 →
  let start := last_index_sent (state m0) + 1 in
  reaches env test_mode start blocked_mgr df start
    (Z.to_nat (Z.of_nat (length df) - start)) m0 fs j mj fsj →
  iloc df j = Some row →
  BlockedDomainsManager.is_blocked blocked_mgr (email row) = true
  ∨ was_sent mj (email row) = true →
  let r := run_sending_process self env (Some df) test_mode fs in
  loop_body env test_mode start blocked_mgr j row mj fsj
    = ([EvSkip j (email row)], mj, fsj, Continue)
  ∧ (∀ ev, ev ∈ trace r → ev_index ev = j →
       ev = EvSkip j (email row)
       ∧ is_generate ev = false ∧ is_send ev = false ∧ is_mark ev = false)
  ∧ (BlockedDomainsManager.domain_of (Str.lower (Str.strip (email row)))
       ∈ blocked_domains (BlockedDomainsManager.data blocked_mgr) →
     BlockedDomainsManager.is_blocked blocked_mgr (email row) = true).
Proof.
  intros Hauth Hbl Hm start Hreach Hrow Hcond r.
  assert (BlockedDomainsManager.is_blocked blocked_mgr (email row)
          || was_sent mj (email row) = true) as Hc.
  { apply orb_true_iff. done. }
  destruct (reaches_skip _ _ _ _ _ _ _ _ _ _ _ _ _ Hreach Hrow Hc) as [Hbody Htrace].
  split; [done|]. split.
  - intros ev Hev Hidx.
    assert (ev = EvSkip j (email row)) as ->; [|done].
    apply Htrace; [|done]. subst r. unfold run_sending_process in Hev.
    by rewrite Hauth, Hbl, Hm in Hev.
  - intros Hd. apply is_blocked_iff. by right.
Qed.

(** C7. The ledger only moves forward. One iteration above the cursor leaves
    the cursor at least where it was and only extends the list of addresses,
    and a run gets to every position with the cursor below it; so a run
    moves the ledger forward, its [mark_sent] calls come with strictly
    increasing positions, all of them after the cursor the run loaded; and
    whatever ledger the file holds after any number of successive runs for
    the same sender is ahead of the ledger it held before them. *)
Theorem ledger_only_moves_forward :
  (∀ env test_mode start_index blocked_mgr i row m fs evs m' fs' c,
     last_index_sent (state m) < i →
     loop_body env test_mode start_index blocked_mgr i row m fs = (evs, m', fs', c) →
     ledger_le (state m) (state m'))
  ∧ (∀ self env recipients test_mode fs m0,
       init (JobApplicationSystem.sender_email self) fs = Returns m0 →
       let r := run_sending_process self env recipients test_mode fs in
       (∀ m', ledger r = Some m' → ledger_le (state m0) (state m'))
       ∧ StronglySorted Z.lt (ev_index <$> filter is_mark (trace r))
       ∧ (∀ ev, ev ∈ trace r → is_mark ev = true →
            last_index_sent (state m0) + 1 ≤ ev_index ev)
       ∧ (∀ blocked_mgr df n j mj fsj,
            reaches env test_mode (last_index_sent (state m0) + 1) blocked_mgr df
              (last_index_sent (state m0) + 1) n m0 fs j mj fsj →
            last_index_sent (state mj) < j ∧ ledger_le (state m0) (state mj)))
  ∧ (∀ self invs fs s s',
       load (state_file (JobApplicationSystem.sender_email self)) fs = Returns s →
       load (state_file (JobApplicationSystem.sender_email self))
         (invoke_all self invs fs) = Returns s' →
       ledger_le s s').
Proof.
  split; [|split].
  - intros env test_mode start_index blocked_mgr i row m fs evs m' fs' c Hlt Hb.
    apply body_forward in Hb as (_ & _ & Hpre & Hcur). split; [|done].
    specialize (Hcur Hlt). lia.
  - intros self env recipients test_mode fs m0 Hm r.
    destruct (run_forward self env recipients test_mode fs m0 Hm)
      as (Hl & Hidx & Hsorted & _).
    split; [|split; [done|split]].
    + intros m' Hm'. by apply Hl.
    + intros ev Hev _. by apply Hidx.
    + intros blocked_mgr df n j mj fsj Hreach.
      eapply reaches_forward; [done|lia].
  - apply invoke_all_forward.
Qed.

End EngineRuns.

Section QuotaStop.

Import SendingStateManager.

Implicit Types (self : JobApplicationSystem.t) (m : SendingStateManager.t) (fs : FS).

(** C2, as the code has it. When the transport answers quota-exceeded for
    position [k], the run stops there: the quota stop is its last event, no
    later position is visited, [mark_sent] is not called for [k] or any
    later position, the cursor stays below [k] and the address of [k] is not
    in the ledger, in memory and on disk alike. The next run on these files
    starts at [cursor + 1 <= k] and visits that position first; position [k]
    is in its range, and is the first one only when [cursor + 1 = k]. *)
Theorem quota_stop_resumes_at_cursor self env1 env2 df tm1 tm2 fs k e content :
  let r1 := run_sending_process self env1 (Some df) tm1 fs in
  let r2 := run_sending_process self env2 (Some df) tm2 (disk r1) in
  EvSend k e content ∈ trace r1 →
  send_email (api env1 k) = Returns QuotaError →
  status r1 = Stopped
  ∧ last (trace r1) = Some (EvQuotaStop k)
  ∧ (∀ ev, ev ∈ trace r1 → ev_index ev ≤ k)
  ∧ (∀ ev, ev ∈ trace r1 → is_mark ev = true → ev_index ev < k)
  ∧ ∃ m1, ledger r1 = Some m1
          ∧ init (JobApplicationSystem.sender_email self) (disk r1) = Returns m1
          ∧ was_sent m1 e = false
          ∧ last_index_sent (state m1) + 1 ≤ k < Z.of_nat (length df)
          ∧ ∃ ev rest, trace r2 = ev :: rest
                       ∧ ev_index ev = last_index_sent (state m1) + 1.
Proof.
  intros r1 r2 Hin Hq.
  pose proof (run_blocklist_file self env1 (Some df) tm1 fs) as Hbl2. fold r1 in Hbl2.
  destruct (run_cases self env1 (Some df) tm1 fs)
    as [(Ht & _)|(df' & bl & m0 & [= <-] & Hbl & Hm & Hr)].
  { fold r1 in Ht. rewrite Ht in Hin. by apply elem_of_nil in Hin. }
  fold r1 in Hr.
  set (start := last_index_sent (state m0) + 1) in *.
  set (n := Z.to_nat (Z.of_nat (length df) - start)) in *.
  assert (Hin' := Hin). rewrite Hr in Hin'.
  destruct (loop_quota _ _ _ _ _ _ _ _ _ _ _ _ Hin' Hq)
    as (Hst & Hlast & Hle & Hmk & m1 & Hl & Hw & Hcur).
  rewrite <- Hr in Hst, Hlast, Hle, Hmk, Hl.
  split; [done|]. split; [done|]. split; [done|]. split; [done|].
  exists m1. split; [done|].
  destruct (init_synced _ _ _ Hm) as (Hsync & Hpath & _).
  destruct (loop_forward env1 tm1 start bl df start n m0 fs)
    as (m1' & Hl' & Htok & Hp & _ & Hc0).
  rewrite <- Hr, Hl in Hl'. injection Hl' as <-.
  assert (synced m1 (disk r1)) as Hsync1.
  { rewrite Hr. apply loop_synced; [done| |by rewrite <- Hr].
    intros x. rewrite <- Hr, Hst. done. }
  assert (init (JobApplicationSystem.sender_email self) (disk r1) = Returns m1) as Hm1.
  { unfold init. unfold synced in Hsync1. rewrite Hp, Hpath in Hsync1.
    rewrite Hsync1. f_equal. destruct m1 as [tok path s]. simpl in *.
    unfold init in Hm. destruct (load _ fs); [|done].
    injection Hm as <-. simpl in *. by subst. }
  split; [done|]. split; [done|].
  assert (last_index_sent (state m0) < start) as Hlt0 by (subst start; lia).
  specialize (Hcur Hlt0). specialize (Hc0 Hlt0).
  apply loop_send in Hin' as (_ & _ & _ & row & Hrow & _).
  assert (is_Some (iloc df k)) as Hk by eauto. apply iloc_is_Some in Hk.
  split; [lia|].
  assert (is_Some (iloc df start)) as Hs0.
  { apply (loop_events_iloc env1 tm1 start bl df start n m0 fs).
    rewrite <- Hr. intros Ht. rewrite Ht in Hin. by apply elem_of_nil in Hin. }
  apply iloc_is_Some in Hs0.
  subst r2. unfold run_sending_process.
  destruct (JobApplicationSystem.gmail_service self) eqn:Hauth; simpl.
  2:{ unfold r1, run_sending_process in Hin. rewrite Hauth in Hin. simpl in Hin.
      by apply elem_of_nil in Hin. }
  rewrite Hbl2, Hbl, Hm1.
  apply loop_head; [apply iloc_is_Some; lia|lia].
Qed.

End QuotaStop.

(** ** The ledger file: crashes, failed writes and file names *)

Section LedgerFile.

Import SendingStateManager.

Implicit Types (m : SendingStateManager.t) (fs : FS).

Lemma crash_after_mem buffering now p e m fs n :
  (crash_after buffering n now p e m fs).2 =
  match n with
  | 0%nat | 1%nat | 2%nat | 3%nat => fs
  | 4%nat => <[file_path m := Torn]> fs
  | 5%nat =>
      match buffering with
      | InBuffer => <[file_path m := Torn]> fs
      | WrittenOut =>
          <[file_path m := StateDoc (state (mark_sent now WriteOk p e m fs).1.1)]> fs
      end
  | _ => <[file_path m := StateDoc (state (mark_sent now WriteOk p e m fs).1.1)]> fs
  end
  ∧ ((2 ≤ n)%nat → was_sent (crash_after buffering n now p e m fs).1 e = true)
  ∧ ((3 ≤ n)%nat →
     (crash_after buffering n now p e m fs).1 = (mark_sent now WriteOk p e m fs).1.1).
Proof.
  assert (Str.lower e ∈ Str.lower <$> (sent_emails (state m) ++ [Str.lower e])) as Happ.
  { rewrite fmap_app, elem_of_app. right. simpl. rewrite lower_idemp.
    by apply list_elem_of_singleton. }
  unfold crash_after, mark_sent_stmts, mark_sent, save, was_sent.
  destruct buffering, n as [|[|[|[|[|[|[|n]]]]]]]; simpl;
    case_bool_decide as Hin; simpl; rewrite ?insert_insert_eq;
    (split; [done|split]); try lia; try done; intros _;
    apply bool_decide_eq_true_2; try done;
    by apply dec_stable in Hin.
Qed.

(** C5, as the code has it. [mark_sent] rewrites the ledger file in place.
    A process that dies before the file is opened leaves the files as they
    were, and one that dies after the file is closed leaves the complete new
    state; one that dies in between leaves a truncated file that cannot be
    loaded, also when [json.dump] has already returned and the text is
    still in the buffer of the file object (the file then holds the new
    state only if the buffer happened to be written out in full). From the
    second statement on, the address is already in the ledger in memory. A
    write that fails raises [OSError] out of [mark_sent] after the same
    statements, and out of the loop body: the success message is already
    printed and the memory already updated, while whatever can be loaded
    from the file afterwards is what could be loaded before. *)
Theorem mark_sent_in_place buffering now p e m fs :
  (∀ n, (n ≤ 3)%nat → (crash_after buffering n now p e m fs).2 = fs)
  ∧ ((crash_after buffering 4 now p e m fs).2 = <[file_path m := Torn]> fs
     ∧ load (file_path m) (crash_after buffering 4 now p e m fs).2
       = Raises JSONDecodeError)
  ∧ ((crash_after InBuffer 5 now p e m fs).2 = <[file_path m := Torn]> fs
     ∧ load (file_path m) (crash_after InBuffer 5 now p e m fs).2
       = Raises JSONDecodeError)
  ∧ (∀ n, (6 ≤ n)%nat ∨ (n = 5%nat ∧ buffering = WrittenOut) →
       crash_after buffering n now p e m fs = (mark_sent now WriteOk p e m fs).1
       ∧ load (file_path m) (crash_after buffering n now p e m fs).2
         = Returns (state (mark_sent now WriteOk p e m fs).1.1))
  ∧ (∀ n, (2 ≤ n)%nat → was_sent (crash_after buffering n now p e m fs).1 e = true)
  ∧ mark_sent now OpenFails p e m fs
    = (crash_after buffering 3 now p e m fs, Raises OSError)
  ∧ mark_sent now DumpFails p e m fs
    = (crash_after buffering 4 now p e m fs, Raises OSError)
  ∧ (∀ env test_mode start_index blocked_mgr i row evs m' fs' c,
       loop_body env test_mode start_index blocked_mgr i row m fs = (evs, m', fs', c) →
       EvMarkSent i (email row) ∈ evs →
       write env i ≠ WriteOk →
       c = Raise OSError
       ∧ EvSentOk i (email row) ∈ evs
       ∧ was_sent m (email row) = false
       ∧ was_sent m' (email row) = true
       ∧ ∀ s, load (file_path m) fs' = Returns s → load (file_path m) fs = Returns s).
Proof.
  assert (∀ b n, (crash_after b n now p e m fs).2 = (mark_sent now WriteOk p e m fs).1.2 →
                 (3 ≤ n)%nat →
                 crash_after b n now p e m fs = (mark_sent now WriteOk p e m fs).1) as Hpair.
  { intros b n Hd Hn. destruct (crash_after_mem b now p e m fs n) as (_ & _ & Hm).
    specialize (Hm Hn). destruct (crash_after b n now p e m fs), (mark_sent _ _ _ _ _ _).1.
    simpl in *. by subst. }
  assert ((mark_sent now WriteOk p e m fs).1.2
          = <[file_path m := StateDoc (state (mark_sent now WriteOk p e m fs).1.1)]> fs)
    as Hdone.
  { unfold mark_sent, save. simpl. by destruct (bool_decide _). }
  split; [|split; [|split; [|split; [|split; [|split; [|split]]]]]].
  - intros n Hn. destruct (crash_after_mem buffering now p e m fs n) as (-> & _).
    by destruct n as [|[|[|[|n]]]]; [..|lia].
  - destruct (crash_after_mem buffering now p e m fs 4) as (-> & _).
    split; [done|]. unfold load. by rewrite lookup_insert_eq.
  - destruct (crash_after_mem InBuffer now p e m fs 5) as (-> & _).
    split; [done|]. unfold load. by rewrite lookup_insert_eq.
  - intros n Hn. destruct (crash_after_mem buffering now p e m fs n) as (Hd & _).
    assert ((crash_after buffering n now p e m fs).2
            = <[file_path m := StateDoc (state (mark_sent now WriteOk p e m fs).1.1)]> fs)
      as Hd'.
    { rewrite Hd. destruct Hn as [Hn|[-> ->]]; [|done].
      by destruct n as [|[|[|[|[|[|n]]]]]]; try lia. }
    split.
    + apply Hpair; [by rewrite Hd', Hdone|]. destruct Hn as [?|[-> _]]; lia.
    + rewrite Hd'. unfold load. by rewrite lookup_insert_eq.
  - intros n Hn. by apply crash_after_mem.
  - unfold crash_after, mark_sent_stmts, mark_sent, save; simpl.
    by destruct (bool_decide _).
  - unfold crash_after, mark_sent_stmts, mark_sent, save; simpl.
    by destruct (bool_decide _).
  - intros env test_mode start_index blocked_mgr i row evs m' fs' c Hb Hin Hw.
    destruct (body_ledger _ _ _ _ _ _ _ _ _ _ _ _ Hb)
      as [(_ & _ & Hmk)|(_ & _ & Hws & _ & r & Hm & ->)].
    { assert (EvMarkSent i (email row) ∈ filter is_mark evs) as Hf
        by (by apply list_elem_of_filter).
      rewrite Hmk in Hf. by apply elem_of_nil in Hf. }
    pose proof (mark_sent_disk (clock env i) (write env i) i (email row) m fs) as Hd.
    pose proof (mark_sent_was_sent (clock env i) (write env i) i (email row) m fs) as Hw'.
    rewrite Hm in Hd, Hw'. simpl in Hw'.
    assert (EvSentOk i (email row) ∈ evs) as Hok.
    { clear - Hb Hin. unfold loop_body in Hb.
      repeat match type of Hb with
             | context [if ?b then _ else _] => destruct b eqn:?
             | context [match ?x with _ => _ end] => destruct x eqn:?
             end; simplify_eq;
        repeat (apply elem_of_cons in Hin as [Hin|Hin]; [try discriminate|]);
        try (by apply elem_of_nil in Hin);
        apply elem_of_cons; right; apply elem_of_cons; right; by left. }
    destruct (write env i); [done|..]; destruct Hd as [-> ->];
      repeat split; try done.
    intros s. unfold load. by rewrite lookup_insert_eq.
Qed.

End LedgerFile.

Section FileNames.

Import SendingStateManager.

Implicit Types (m : SendingStateManager.t) (fs : FS) (s : string).

Lemma token_at s :
  storage_token (String "@" s)
  = String "_" (String "a" (String "t" (String "_" (storage_token s)))).
Proof. reflexivity. Qed.

Lemma untoken_at r :
  untoken (String "_" (String "a" (String "t" (String "_" r)))) = String "@" (untoken r).
Proof. reflexivity. Qed.

Lemma token_dot s : storage_token (String "." s) = String "_" (storage_token s).
Proof. reflexivity. Qed.

Lemma token_other a s :
  a ≠ "@"%char → a ≠ "."%char →
  storage_token (String a s) = String a (storage_token s).
Proof.
  intros H1 H2. unfold storage_token. simpl.
  rewrite decide_False by done. simpl. by rewrite decide_False by done.
Qed.

(** A token that begins with [at_] comes from an address that begins with
    [at.], [at@] or [at_]. *)
Lemma token_starts_at s r :
  storage_token s = String "a" (String "t" (String "_" r)) →
  unambiguous s = true →
  String.prefix "at." s || String.prefix "at@" s = true.
Proof.
  destruct s as [|b1 s1]; [done|].
  destruct (decide (b1 = "@"%char)) as [->|H1]; [done|].
  destruct (decide (b1 = "."%char)) as [->|H1']; [done|].
  rewrite token_other by done. intros [= -> Ht].
  destruct s1 as [|b2 s2]; [done|].
  destruct (decide (b2 = "@"%char)) as [->|H2]; [done|].
  destruct (decide (b2 = "."%char)) as [->|H2']; [done|].
  rewrite token_other in Ht by done. injection Ht as -> Ht.
  destruct s2 as [|b3 s3]; [done|].
  destruct (decide (b3 = "@"%char)) as [->|H3]; [by destruct s3|].
  destruct (decide (b3 = "."%char)) as [->|H3']; [by destruct s3|].
  rewrite token_other in Ht by done. injection Ht as -> Ht.
  done.
Qed.

(** [untoken] reads the address back from the token of an unambiguous
    address. *)
Lemma untoken_token s : unambiguous s = true → untoken (storage_token s) = s.
Proof.
  induction s as [|a s IH]; [done|].
  intros Hu. simpl in Hu.
  apply andb_true_iff in Hu as [Hu Hs]. apply andb_true_iff in Hu as [Ha Hdot].
  apply negb_true_iff, bool_decide_eq_false in Ha.
  specialize (IH Hs).
  destruct (decide (a = "@"%char)) as [->|H1].
  { by rewrite token_at, untoken_at, IH. }
  destruct (decide (a = "."%char)) as [->|H2].
  { rewrite token_dot. simpl in Hdot. apply negb_true_iff in Hdot.
    change (untoken (String "_" (storage_token s)))
      with (match storage_token s with
            | String c1 (String c2 (String c3 r')) =>
                if decide (c1 = "a"%char ∧ c2 = "t"%char ∧ c3 = "_"%char)
                then String "@" (untoken r')
                else String "." (untoken (storage_token s))
            | _ => String "." (untoken (storage_token s))
            end).
    destruct (storage_token s) as [|c1 [|c2 [|c3 r']]] eqn:Ht; rewrite ?IH; try done.
    case_decide as Hc; [|done]. destruct Hc as (-> & -> & ->).
    rewrite (token_starts_at _ _ Ht Hs) in Hdot. done. }
  rewrite token_other by done. simpl. rewrite decide_False by done. by rewrite IH.
Qed.

Lemma string_app_length s1 s2 :
  String.length (s1 +:+ s2) = (String.length s1 + String.length s2)%nat.
Proof. induction s1 as [|a s1 IH]; simpl; [done|]. by rewrite <- IH. Qed.

Lemma string_app_inv_tail s1 s2 t : s1 +:+ t = s2 +:+ t → s1 = s2.
Proof.
  revert s2. induction s1 as [|a s1 IH]; intros [|b s2] H; simpl in *; try done.
  - apply (f_equal String.length) in H.
    rewrite !string_app_length in H. simpl in H. lia.
  - apply (f_equal String.length) in H.
    rewrite !string_app_length in H. simpl in H. lia.
  - injection H as -> H. f_equal. by apply IH.
Qed.

Lemma state_file_token a b :
  state_file a = state_file b → storage_token a = storage_token b.
Proof.
  unfold state_file. intros H. apply (inj (String.app "state_")) in H.
  by apply string_app_inv_tail in H.
Qed.

(** X29. Where the ledger files keep senders apart. Two senders whose
    addresses are unambiguous (no [_], no [.] directly followed by [at.] or
    [at@]) have different ledger files; a [mark_sent] of one sender,
    whatever its write does, never changes what a sender with a different
    file name loads; and a manager built again for a sender after a
    [mark_sent] that returned is the manager that wrote. *)
Theorem state_file_partition :
  (∀ sender fs m now p e m' fs',
       init sender fs = Returns m →
       mark_sent now WriteOk p e m fs = (m', fs', Returns ()) →
       init sender fs' = Returns m')
  ∧ (∀ a b, unambiguous a = true → unambiguous b = true →
            state_file a = state_file b → a = b)
  ∧ (∀ a b fs ma now w p e,
       init a fs = Returns ma →
       state_file a ≠ state_file b →
       init b (mark_sent now w p e ma fs).1.2 = init b fs).
Proof.
  split; [|split].
  - intros sender fs m now p e m' fs' Hm Hmark.
    pose proof (mark_sent_disk now WriteOk p e m fs) as Hd.
    pose proof (mark_sent_memory now WriteOk p e m fs) as (Htok & Hp & _).
    rewrite Hmark in Htok, Hp, Hd. simpl in Htok, Hp. destruct Hd as [-> _].
    destruct (init_synced _ _ _ Hm) as (_ & Hpath & _).
    unfold init, load. rewrite <- Hpath, lookup_insert_eq. f_equal.
    destruct m' as [tok path s]. simpl in *. subst.
    unfold init in Hm. destruct (load _ fs); [|done]. by injection Hm as <-.
  - intros a b Ha Hb Hf. apply state_file_token in Hf.
    rewrite <- (untoken_token a Ha), <- (untoken_token b Hb). by rewrite Hf.
  - intros a b fs ma now w p e Hm Hne.
    apply init_synced in Hm as (_ & Hpath & _).
    pose proof (mark_sent_disk now w p e ma fs) as Hd.
    destruct (mark_sent now w p e ma fs) as [[m' fs'] r]. simpl.
    unfold init, load.
    destruct w; destruct Hd as [-> _]; rewrite ?lookup_insert_ne; congruence.
Qed.

End FileNames.

(** ** The scenarios of the specification, run *)

Section Scenarios.

Import SendingStateManager.

Example python_strings :
  Str.lower (Str.strip "  Jane.Doe@Example.COM ") = "jane.doe@example.com"
  ∧ Str.split "@" "a@b@c" = ["a"; "b"; "c"]
  ∧ Str.split "@" "" = [""]
  ∧ BlockedDomainsManager.domain_of "a@b@c.org" = "c.org"
  ∧ BlockedDomainsManager.domain_of "no-at-sign" = ""
  ∧ state_file "me@gmail.com" = "state_me_at_gmail_com.json".
Proof. repeat split; reflexivity. Qed.

Example iloc_counts_from_the_end :
  iloc Scenario.three_rows (-1) = Some (Scenario.row "c@x.com")
  ∧ iloc Scenario.three_rows (-4) = None
  ∧ iloc Scenario.three_rows 3 = None.
Proof. repeat split; reflexivity. Qed.

(** Scenario A: three rows, nothing blocked, an empty ledger, every delivery
    succeeds. *)
Example scenario_A :
  let r := run_sending_process Scenario.system Scenario.env_ok
             (Some Scenario.three_rows) false ∅ in
  status r = Completed
  ∧ state <$> ledger r
    = Some (mkState 2 ["a@x.com"; "b@x.com"; "c@x.com"] (Some Scenario.timestamp))
  ∧ disk r !! Scenario.ledger_path
    = Some (StateDoc (mkState 2 ["a@x.com"; "b@x.com"; "c@x.com"]
                        (Some Scenario.timestamp))).
Proof. repeat split; vm_compute; reflexivity. Qed.

(** Scenario B: the address of the second row is in the ledger already. *)
Example scenario_B :
  let fs : FS := {[ Scenario.ledger_path := StateDoc (mkState (-1) ["b@x.com"] None) ]} in
  let r := run_sending_process Scenario.system Scenario.env_ok
             (Some Scenario.three_rows) false fs in
  filter is_send (trace r)
  = [EvSend 0 "A@x.com" Scenario.letter; EvSend 2 "c@x.com" Scenario.letter]
  ∧ trace r !! 5%nat = Some (EvSkip 1 "b@x.com").
Proof. repeat split; vm_compute; reflexivity. Qed.

(** Scenario C: the quota runs out at the second row. *)
Example scenario_C :
  let r := run_sending_process Scenario.system (Scenario.env_quota_at 1)
             (Some Scenario.three_rows) false ∅ in
  status r = Stopped
  ∧ ev_index <$> filter is_send (trace r) = [0; 1]
  ∧ filter is_mark (trace r) = [EvMarkSent 0 "A@x.com"]
  ∧ state <$> ledger r = Some (mkState 0 ["a@x.com"] (Some Scenario.timestamp)).
Proof. repeat split; vm_compute; reflexivity. Qed.

(** Scenario D: the domain [spam.example] is blocked. *)
Example scenario_D :
  let r := run_sending_process Scenario.system Scenario.env_ok
             (Some Scenario.rows_with_spam) false Scenario.spam_blocklist in
  filter is_generate (trace r) = [EvGenerate 0 (Scenario.row "a@x.com")]
  ∧ filter (λ ev, bool_decide (ev_index ev = 1)) (trace r)
    = [EvSkip 1 "x@spam.example"].
Proof. repeat split; vm_compute; reflexivity. Qed.

(** A failed write: the run ends with [OSError] after the success message,
    with the address in memory and not in the file. *)
Example write_failure :
  let env := mkEnv (λ _ _, Some Scenario.letter) (λ _, ApiOk)
                   (λ _, Scenario.timestamp) (λ _, OpenFails) in
  let r := run_sending_process Scenario.system env (Some Scenario.two_rows) false ∅ in
  status r = Raised OSError
  ∧ last (trace r) = Some (EvMarkSent 0 "a@x.com")
  ∧ EvSentOk 0 "a@x.com" ∈ trace r
  ∧ (sent_emails ∘ state) <$> ledger r = Some ["a@x.com"]
  ∧ disk r !! Scenario.ledger_path = None.
Proof.
  repeat split; try (vm_compute; reflexivity).
  apply list_elem_of_In. vm_compute. auto 10.
Qed.

(** An exception of the transport that is not an [HttpError]: the run ends
    with it at that position, and the ledger holds the first row only. *)
Example transport_exception :
  let env := mkEnv (λ _ _, Some Scenario.letter)
                   (λ i, if bool_decide (i = 1) then ApiRaises (OtherError "TimeoutError")
                         else ApiOk)
                   (λ _, Scenario.timestamp) (λ _, WriteOk) in
  let r := run_sending_process Scenario.system env (Some Scenario.three_rows) false ∅ in
  status r = Raised (OtherError "TimeoutError")
  ∧ last (trace r) = Some (EvSend 1 "b@x.com" Scenario.letter)
  ∧ disk r !! Scenario.ledger_path = Some (StateDoc Scenario.one_sent).
Proof. repeat split; vm_compute; reflexivity. Qed.

(** Three invocations in a row: a preview, a run that stops on the quota at
    the second row, and a run that completes. *)
Example successive_runs :
  let invs := [mkInvocation Scenario.env_ok (Some Scenario.three_rows) true;
               mkInvocation (Scenario.env_quota_at 1) (Some Scenario.three_rows) false;
               mkInvocation Scenario.env_ok (Some Scenario.three_rows) false] in
  invoke_all Scenario.system (take 1 invs) ∅ !! Scenario.ledger_path = None
  ∧ invoke_all Scenario.system (take 2 invs) ∅ !! Scenario.ledger_path
    = Some (StateDoc Scenario.one_sent)
  ∧ invoke_all Scenario.system invs ∅ !! Scenario.ledger_path
    = Some (StateDoc (mkState 2 ["a@x.com"; "b@x.com"; "c@x.com"]
                        (Some Scenario.timestamp))).
Proof. repeat split; vm_compute; reflexivity. Qed.

End Scenarios.

(** ** The theorems at concrete inputs *)

Section Witnesses.

Import SendingStateManager.

(** C9 on a blocklist built from two entries, one of them blank. *)
Lemma is_blocked_spec_witness :
  let m := (BlockedDomainsManager.add_domains WriteOk [" Spam.Example"; "  "]
              (BlockedDomainsManager.mk BLOCKED_DOMAINS_FILE BlockedDomainsManager.empty)
              ∅).1.1 in
  BlockedDomainsManager.reachable (BlockedDomainsManager.data m)
  ∧ (BlockedDomainsManager.is_blocked m " X@SPAM.example " = true ↔
       "x@spam.example" ∈ blocked_emails (BlockedDomainsManager.data m)
       ∨ "spam.example" ∈ blocked_domains (BlockedDomainsManager.data m))
  ∧ blocked_domains (BlockedDomainsManager.data m) = ["spam.example"].
Proof.
  intros m.
  assert (BlockedDomainsManager.reachable (BlockedDomainsManager.data m)) as Hreach.
  { apply BlockedDomainsManager.reach_add_domains, BlockedDomainsManager.reach_empty. }
  split; [exact Hreach|]. split; [|reflexivity].
  exact (proj1 (is_blocked_spec m " X@SPAM.example " Hreach)).
Defined.

(** C3 on the first [mark_sent] of a fresh ledger. *)
Lemma mark_sent_spec_witness :
  let call := mark_sent Scenario.timestamp WriteOk 0 "A@x.com" Scenario.fresh_manager ∅ in
  call = (call.1.1, call.1.2, Returns ())
  ∧ last_index_sent (state call.1.1) = 0
  ∧ sent_emails (state call.1.1) = ["a@x.com"]
  ∧ was_sent call.1.1 "a@X.COM" = true
  ∧ load Scenario.ledger_path call.1.2 = Returns (state call.1.1).
Proof.
  intros call.
  assert (call = (call.1.1, call.1.2, Returns ())) as Hcall by reflexivity.
  split; [exact Hcall|].
  pose proof (mark_sent_spec Scenario.timestamp WriteOk 0 "A@x.com"
                Scenario.fresh_manager ∅ call.1.1 call.1.2 Hcall)
    as (Hidx & _ & _ & _ & _ & _ & _ & _ & Hload & _).
  split; [exact Hidx|]. split; [reflexivity|]. split; [reflexivity|]. exact Hload.
Defined.

(** C1 on two runs over rows whose third address repeats the first. *)
Lemma second_run_witness :
  let r1 := run_sending_process Scenario.system Scenario.env_ok
              (Some Scenario.rows_with_duplicate) false ∅ in
  let r2 := run_sending_process Scenario.system Scenario.env_ok
              (Some Scenario.rows_with_duplicate) false (disk r1) in
  let m1 := mk "me_at_gmail_com" Scenario.ledger_path
              (mkState 1 ["a@x.com"; "b@x.com"] (Some Scenario.timestamp)) in
  init "me@gmail.com" (disk r1) = Returns m1
  ∧ trace r2 = [EvSkip 2 "A@X.com"]
  ∧ (∀ ev, ev ∈ trace r2 → 1 < ev_index ev)
  ∧ (∀ j e content, EvSend j e content ∈ trace r2 →
       (Str.lower e ∉ Str.lower <$> sent_emails (state m1))
       ∧ (Str.lower e ∉ sent_emails (state m1))).
Proof.
  intros r1 r2 m1.
  assert (init "me@gmail.com" (disk r1) = Returns m1) as Hm by (vm_compute; reflexivity).
  split; [exact Hm|]. split; [vm_compute; reflexivity|].
  pose proof (second_run_sends_nothing_again Scenario.system Scenario.env_ok
                Scenario.env_ok (Some Scenario.rows_with_duplicate) false false ∅ m1 Hm)
    as (Hidx & Hsend & _).
  split; [exact Hidx|exact Hsend].
Defined.

(** C4 on the run of scenario D, at the blocked second row. *)
Lemma skipped_rows_witness :
  let r := run_sending_process Scenario.system Scenario.env_ok
             (Some Scenario.rows_with_spam) false Scenario.spam_blocklist in
  iloc Scenario.rows_with_spam 1 = Some (Scenario.row "x@spam.example")
  ∧ trace r !! 5%nat = Some (EvSkip 1 "x@spam.example")
  ∧ (∀ ev, ev ∈ trace r → ev_index ev = 1 →
       ev = EvSkip 1 "x@spam.example"
       ∧ is_generate ev = false ∧ is_send ev = false ∧ is_mark ev = false).
Proof.
  intros r. split; [reflexivity|]. split; [vm_compute; reflexivity|].
  set (bl := BlockedDomainsManager.mk BLOCKED_DOMAINS_FILE (mkData ["spam.example"] [])).
  set (step := loop_body Scenario.env_ok false 0 bl 0 (Scenario.row "a@x.com")
                 Scenario.fresh_manager Scenario.spam_blocklist).
  refine (proj1 (proj2 (skipped_rows_untouched Scenario.system Scenario.env_ok
            Scenario.rows_with_spam false Scenario.spam_blocklist bl Scenario.fresh_manager
            1 step.1.1.2 step.1.2 (Scenario.row "x@spam.example") _ _ _ _ _ _))).
  - reflexivity.
  - vm_compute; reflexivity.
  - vm_compute; reflexivity.
  - apply (reaches_next _ _ _ _ _ 0 1%nat _ _ (Scenario.row "a@x.com")
             step.1.1.1 step.1.1.2 step.1.2); [reflexivity|reflexivity|].
    apply reaches_here.
  - reflexivity.
  - left. vm_compute; reflexivity.
Defined.

(** C2 on the run of scenario C and the run that follows it. *)
Lemma quota_stop_witness :
  let r1 := run_sending_process Scenario.system (Scenario.env_quota_at 1)
              (Some Scenario.three_rows) false ∅ in
  let r2 := run_sending_process Scenario.system Scenario.env_ok
              (Some Scenario.three_rows) false (disk r1) in
  EvSend 1 "b@x.com" Scenario.letter ∈ trace r1
  ∧ send_email (api (Scenario.env_quota_at 1) 1) = Returns QuotaError
  ∧ status r1 = Stopped
  ∧ last (trace r1) = Some (EvQuotaStop 1)
  ∧ (∀ ev, ev ∈ trace r1 → ev_index ev ≤ 1)
  ∧ head (trace r2) = Some (EvGenerate 1 (Scenario.row "b@x.com")).
Proof.
  intros r1 r2.
  assert (EvSend 1 "b@x.com" Scenario.letter ∈ trace r1) as Hin.
  { apply list_elem_of_In. vm_compute. auto 10. }
  assert (send_email (api (Scenario.env_quota_at 1) 1) = Returns QuotaError) as Hq
    by reflexivity.
  pose proof (quota_stop_resumes_at_cursor Scenario.system (Scenario.env_quota_at 1)
                Scenario.env_ok Scenario.three_rows false false ∅ 1 "b@x.com"
                Scenario.letter Hin Hq) as (Hst & Hlast & Hle & _).
  split; [exact Hin|]. split; [exact Hq|]. split; [exact Hst|]. split; [exact Hlast|].
  split; [exact Hle|]. vm_compute; reflexivity.
Defined.

End Witnesses.

(** ** Where the specification and the code part *)

Section Counterexamples.

Import SendingStateManager.

(** C2, as stated, fails. No content is generated for position 0 and the
    quota runs out at position 1: the next run starts at position 0, which
    it evaluates and delivers before it gets to position 1. *)
Lemma quota_stop_not_first :
  let env1 := Scenario.env_no_content_then_quota 0 1 in
  let r1 := run_sending_process Scenario.system env1 (Some Scenario.two_rows) false ∅ in
  let r2 := run_sending_process Scenario.system Scenario.env_ok
              (Some Scenario.two_rows) false (disk r1) in
  EvSend 1 "b@x.com" Scenario.letter ∈ trace r1
  ∧ send_email (api env1 1) = Returns QuotaError
  ∧ status r1 = Stopped
  ∧ ev_index <$> head (trace r2) = Some 0
  ∧ 0 ≠ 1
  ∧ trace r2 !! 1%nat = Some (EvSend 0 "a@x.com" Scenario.letter).
Proof.
  intros env1 r1 r2.
  split; [apply list_elem_of_In; vm_compute; auto 10|].
  repeat split; try (vm_compute; reflexivity). done.
Qed.

(** C5, as stated, fails. A process that dies between [open(path, 'w')] and
    the end of [json.dump], or after [json.dump] and before the file is
    closed, leaves a file that is neither the ledger before the call nor
    the ledger after it. *)
Lemma mark_sent_torn_by_crash :
  let fs : FS := {[ Scenario.ledger_path := StateDoc Scenario.one_sent ]} in
  let m := mk "me_at_gmail_com" Scenario.ledger_path Scenario.one_sent in
  let crashed := (crash_after InBuffer 4 Scenario.timestamp 1 "b@x.com" m fs).2 in
  let unclosed := (crash_after InBuffer 5 Scenario.timestamp 1 "b@x.com" m fs).2 in
  let completed := (mark_sent Scenario.timestamp WriteOk 1 "b@x.com" m fs).1.2 in
  crashed !! Scenario.ledger_path = Some Torn
  ∧ crashed !! Scenario.ledger_path ≠ fs !! Scenario.ledger_path
  ∧ crashed !! Scenario.ledger_path ≠ completed !! Scenario.ledger_path
  ∧ load Scenario.ledger_path crashed = Raises JSONDecodeError
  ∧ unclosed !! Scenario.ledger_path = Some Torn
  ∧ unclosed !! Scenario.ledger_path ≠ fs !! Scenario.ledger_path
  ∧ unclosed !! Scenario.ledger_path ≠ completed !! Scenario.ledger_path
  ∧ load Scenario.ledger_path unclosed = Raises JSONDecodeError.
Proof.
  intros fs m crashed unclosed completed.
  assert (crashed !! Scenario.ledger_path = Some Torn) as Hc by (vm_compute; reflexivity).
  assert (unclosed !! Scenario.ledger_path = Some Torn) as Hu by (vm_compute; reflexivity).
  split; [exact Hc|]. rewrite Hc.
  split; [vm_compute; discriminate|]. split; [vm_compute; discriminate|].
  split; [unfold load; by rewrite Hc|].
  split; [exact Hu|]. rewrite Hu.
  split; [vm_compute; discriminate|]. split; [vm_compute; discriminate|].
  unfold load. by rewrite Hu.
Qed.

(** C6. The code misses the partition by sender that it sets out to keep
    (the class is documented to track progress per sender email): the token
    turns [.] and [_] into the same character, so the different addresses
    [a.b@x.com] and [a_b@x.com] get one ledger file, and the second sender
    finds the first sender's delivery in it. *)
Lemma state_file_collision :
  let a := "a.b@x.com" in
  let b := "a_b@x.com" in
  a ≠ b
  ∧ state_file a = state_file b
  ∧ ∃ ma fs' mb,
      init a ∅ = Returns ma
      ∧ (mark_sent Scenario.timestamp WriteOk 0 "hr@corp.com" ma ∅).1.2 = fs'
      ∧ init b fs' = Returns mb
      ∧ was_sent mb "hr@corp.com" = true.
Proof.
  intros a b. split; [done|]. split; [reflexivity|].
  eexists _, _, _. split; [reflexivity|]. split; [reflexivity|].
  split; [vm_compute; reflexivity|]. vm_compute; reflexivity.
Qed.

End Counterexamples.

(** ** More on strings: trimming and case *)

Section StrNormal.

Implicit Types (s t : string) (c : ascii).

Lemma rev_app_app s t u : String.rev_app s (t +:+ u) = String.rev_app s t +:+ u.
Proof.
  revert t. induction s as [|a s IH]; intros t; simpl; [done|].
  by rewrite <- IH.
Qed.

Lemma rev_cons a s : String.rev (String a s) = String.rev s +:+ String a "".
Proof.
  unfold String.rev. simpl.
  change (String a "") with ("" +:+ String a ""). by rewrite rev_app_app.
Qed.

Lemma string_app_nil_r s : s +:+ "" = s.
Proof. induction s as [|a s IH]; [done|]. by rewrite <- IH at 2. Qed.

Lemma string_app_cons a s t : String a s +:+ t = String a (s +:+ t).
Proof. reflexivity. Qed.

Lemma string_app_assoc s t u : (s +:+ t) +:+ u = s +:+ (t +:+ u).
Proof.
  induction s as [|a s IH]; [done|]. by rewrite !string_app_cons, IH.
Qed.

Lemma rev_snoc s a : String.rev (s +:+ String a "") = String a (String.rev s).
Proof.
  induction s as [|b s IH]; [done|].
  change (String b s +:+ String a "") with (String b (s +:+ String a "")).
  rewrite !rev_cons, IH. done.
Qed.

Lemma rev_involutive s : String.rev (String.rev s) = s.
Proof.
  induction s as [|a s IH]; [done|]. by rewrite rev_cons, rev_snoc, IH.
Qed.

Lemma lstrip_left_trimmed s : Str.left_trimmed (Str.lstrip s).
Proof.
  induction s as [|a s IH]; simpl; [done|].
  destruct (Str.is_whitespace a) eqn:Ha; [done|]. simpl. done.
Qed.

Lemma left_trimmed_lstrip s : Str.left_trimmed s → Str.lstrip s = s.
Proof. destruct s as [|a s]; simpl; [done|]. by intros ->. Qed.

Lemma lstrip_snoc s c :
  Str.is_whitespace c = false →
  ∃ t, Str.lstrip (s +:+ String c "") = t +:+ String c "".
Proof.
  intros Hc. induction s as [|a s IH].
  - exists "". simpl. by rewrite Hc.
  - change (String a s +:+ String c "") with (String a (s +:+ String c "")).
    simpl. destruct (Str.is_whitespace a); [done|].
    by exists (String a s).
Qed.

Lemma rstrip_left_trimmed s : Str.left_trimmed s → Str.left_trimmed (Str.rstrip s).
Proof.
  unfold Str.rstrip. destruct s as [|c s]; [done|]. simpl. intros Hc.
  rewrite rev_cons. destruct (lstrip_snoc (String.rev s) c Hc) as [t ->].
  by rewrite rev_snoc.
Qed.

(** [strip] leaves no white space at either end, and changes nothing in a
    string that has none there. *)
Lemma strip_trimmed s :
  Str.left_trimmed (Str.strip s) ∧ Str.left_trimmed (String.rev (Str.strip s)).
Proof.
  unfold Str.strip. split.
  - apply rstrip_left_trimmed, lstrip_left_trimmed.
  - unfold Str.rstrip. rewrite rev_involutive. apply lstrip_left_trimmed.
Qed.

Lemma trimmed_strip s :
  Str.left_trimmed s → Str.left_trimmed (String.rev s) → Str.strip s = s.
Proof.
  intros H1 H2. unfold Str.strip, Str.rstrip.
  by rewrite (left_trimmed_lstrip s H1), (left_trimmed_lstrip _ H2), rev_involutive.
Qed.

Lemma strip_idemp s : Str.strip (Str.strip s) = Str.strip s.
Proof. destruct (strip_trimmed s). by apply trimmed_strip. Qed.

Lemma lower_char_whitespace c :
  Str.is_whitespace (Str.lower_char c) = Str.is_whitespace c.
Proof. destruct c as [[] [] [] [] [] [] [] []]; reflexivity. Qed.

Lemma lower_app s t : Str.lower (s +:+ t) = Str.lower s +:+ Str.lower t.
Proof.
  induction s as [|a s IH]; [done|].
  change (String a s +:+ t) with (String a (s +:+ t)). simpl. by rewrite IH.
Qed.

Lemma lower_rev s : Str.lower (String.rev s) = String.rev (Str.lower s).
Proof.
  induction s as [|a s IH]; [done|]. simpl.
  by rewrite !rev_cons, lower_app, IH.
Qed.

Lemma lower_lstrip s : Str.lower (Str.lstrip s) = Str.lstrip (Str.lower s).
Proof.
  induction s as [|a s IH]; [done|]. simpl. rewrite lower_char_whitespace.
  destruct (Str.is_whitespace a); [done|]. done.
Qed.

(** Lower-casing and trimming commute. *)
Lemma lower_strip s : Str.lower (Str.strip s) = Str.strip (Str.lower s).
Proof.
  unfold Str.strip, Str.rstrip.
  by rewrite lower_rev, lower_lstrip, lower_rev, lower_lstrip.
Qed.

(** The normal form of an address or domain is a fixed point of the
    normalisation. *)
Lemma normal_idemp s :
  Str.lower (Str.strip (Str.lower (Str.strip s))) = Str.lower (Str.strip s).
Proof. by rewrite <- lower_strip, strip_idemp, lower_idemp. Qed.

End StrNormal.

(** ** More on the blocklist store *)

Section BlocklistMore.

Import BlockedDomainsManager.

Implicit Types (m : BlockedDomainsManager.t) (fs : FS) (entries raws : list string).

Local Abbreviation norm s := (Str.lower (Str.strip s)).

Lemma add_entry_cases entries raw :
  (add_entry entries raw = entries
   ∧ (norm raw = "" ∨ norm raw ∈ entries))
  ∨ (add_entry entries raw = entries ++ [norm raw]
     ∧ norm raw ≠ "" ∧ norm raw ∉ entries).
Proof.
  unfold add_entry. destruct (norm raw) as [|a s] eqn:E; simpl; [left; auto|].
  case_bool_decide as Hin; [right|left]; (split; [done|]).
  - done.
  - by right.
Qed.

Lemma add_entry_normal entries raw :
  normal_entries entries → normal_entries (add_entry entries raw).
Proof.
  intros [Hnd Hall].
  destruct (add_entry_cases entries raw) as [[-> _]|(-> & Hne & Hnin)]; [done|].
  split.
  - apply NoDup_app. split; [done|]. split; [|apply NoDup_singleton].
    intros x Hx ->%list_elem_of_singleton. done.
  - apply Forall_app. split; [done|]. constructor; [|constructor].
    split; [done|]. apply normal_idemp.
Qed.

Lemma add_entry_elem entries raw x :
  x ∈ add_entry entries raw ↔ x ∈ entries ∨ (x ≠ "" ∧ x = norm raw).
Proof.
  destruct (add_entry_cases entries raw) as [[-> H]|(-> & Hne & Hnin)].
  - split; [auto|]. intros [?|[Hx Heq]]; [done|]. subst x. by destruct H.
  - rewrite elem_of_app, list_elem_of_singleton. split.
    + intros [?|Heq]; [by left|]. subst x. by right.
    + intros [?|[_ Heq]]; auto.
Qed.

Lemma add_entries_normal raws entries :
  normal_entries entries → normal_entries (foldl add_entry entries raws).
Proof.
  revert entries. induction raws as [|r raws IH]; intros entries H; simpl; [done|].
  by apply IH, add_entry_normal.
Qed.

Lemma add_entries_prefix raws entries :
  entries `prefix_of` foldl add_entry entries raws.
Proof.
  revert entries. induction raws as [|r raws IH]; intros entries; simpl; [done|].
  etrans; [|apply IH].
  destruct (add_entry_cases entries r) as [[-> _]|(-> & _)]; [done|].
  by apply prefix_app_r.
Qed.

Lemma add_entries_elem raws entries x :
  x ∈ foldl add_entry entries raws ↔
  x ∈ entries ∨ (x ≠ "" ∧ ∃ r, r ∈ raws ∧ x = norm r).
Proof.
  revert entries. induction raws as [|r raws IH]; intros entries; simpl.
  - split; [auto|]. intros [?|(_ & r & Hr & _)]; [done|]. by apply elem_of_nil in Hr.
  - rewrite IH, add_entry_elem. split.
    + intros [[?|[? Heq]]|(? & r' & ? & Heq)]; [by left|right..].
      * split; [done|]. exists r. split; [by left|done].
      * split; [done|]. exists r'. split; [by right|done].
    + intros [?|(Hne & r' & Hr & Heq)]; [by left; left|].
      apply elem_of_cons in Hr as [Hr|Hr].
      * subst r'. left. right. done.
      * right. split; [done|]. eauto.
Qed.

(** Adding the same entries again changes nothing. *)
Lemma add_entries_again raws entries :
  (∀ r, r ∈ raws → norm r = "" ∨ norm r ∈ entries) →
  foldl add_entry entries raws = entries.
Proof.
  induction raws as [|r raws IH]; intros H; simpl; [done|].
  destruct (add_entry_cases entries r) as [[-> _]|(_ & Hne & Hnin)].
  - apply IH. intros r' Hr'. apply H. by right.
  - destruct (H r) as [?|?]; [by left|done..].
Qed.

Lemma add_domains_data w domains m fs :
  (add_domains w domains m fs).1.1
  = mk (file_path m)
       (mkData (foldl add_entry (blocked_domains (data m)) domains)
               (blocked_emails (data m))).
Proof. unfold add_domains. by destruct (save _ _ _). Qed.

Lemma add_emails_data w emails m fs :
  (add_emails w emails m fs).1.1
  = mk (file_path m)
       (mkData (blocked_domains (data m))
               (foldl add_entry (blocked_emails (data m)) emails)).
Proof. unfold add_emails. by destruct (save _ _ _). Qed.

(** X1. On a list of domains without duplicates whose entries are trimmed,
    lower-case and not empty, [add_domains] keeps these three properties,
    keeps the old entries in their order in front of the new ones, and
    holds afterwards exactly the old entries and the non-empty normal forms
    of the given ones; the blocked addresses are not touched. *)
Theorem add_domains_keeps_store w domains m fs :
  normal_entries (blocked_domains (data m)) →
  let m' := (add_domains w domains m fs).1.1 in
  normal_entries (blocked_domains (data m'))
  ∧ blocked_domains (data m) `prefix_of` blocked_domains (data m')
  ∧ (∀ x, x ∈ blocked_domains (data m') ↔
          x ∈ blocked_domains (data m)
          ∨ (x ≠ "" ∧ ∃ r, r ∈ domains ∧ x = Str.lower (Str.strip r)))
  ∧ blocked_emails (data m') = blocked_emails (data m)
  ∧ file_path m' = file_path m.
Proof.
  intros H m'. subst m'. rewrite add_domains_data. simpl.
  split; [by apply add_entries_normal|]. split; [apply add_entries_prefix|].
  split; [apply add_entries_elem|done].
Qed.

(** X2. The same for [add_emails] and the list of blocked addresses. *)
Theorem add_emails_keeps_store w emails m fs :
  normal_entries (blocked_emails (data m)) →
  let m' := (add_emails w emails m fs).1.1 in
  normal_entries (blocked_emails (data m'))
  ∧ blocked_emails (data m) `prefix_of` blocked_emails (data m')
  ∧ (∀ x, x ∈ blocked_emails (data m') ↔
          x ∈ blocked_emails (data m)
          ∨ (x ≠ "" ∧ ∃ r, r ∈ emails ∧ x = Str.lower (Str.strip r)))
  ∧ blocked_domains (data m') = blocked_domains (data m)
  ∧ file_path m' = file_path m.
Proof.
  intros H m'. subst m'. rewrite add_emails_data. simpl.
  split; [by apply add_entries_normal|]. split; [apply add_entries_prefix|].
  split; [apply add_entries_elem|done].
Qed.

(** X3. Every blocklist built from the empty store by [add_domains] and
    [add_emails] has no duplicate in either list, and only trimmed,
    lower-case, non-empty entries. *)
Theorem reachable_normal d :
  reachable d →
  normal_entries (blocked_domains d) ∧ normal_entries (blocked_emails d).
Proof.
  induction 1 as [|w domains m fs _ [IH1 IH2]|w emails m fs _ [IH1 IH2]].
  - split; (split; [constructor|constructor]).
  - rewrite add_domains_data. simpl. split; [by apply add_entries_normal|done].
  - rewrite add_emails_data. simpl. split; [done|by apply add_entries_normal].
Qed.

(** X4. Adding the same domains (or the same addresses) a second time, right
    after the first, changes nothing in the blocklist, whatever was in it
    before. *)
Theorem add_twice_is_add_once w1 w2 raws m fs fs2 :
  data (add_domains w2 raws (add_domains w1 raws m fs).1.1 fs2).1.1
    = data (add_domains w1 raws m fs).1.1
  ∧ data (add_emails w2 raws (add_emails w1 raws m fs).1.1 fs2).1.1
    = data (add_emails w1 raws m fs).1.1.
Proof.
  rewrite !add_domains_data, !add_emails_data. simpl.
  split; f_equal; apply add_entries_again; intros r Hr;
    destruct (decide (norm r = "")) as [?|Hne]; auto; right;
    apply add_entries_elem; right; eauto.
Qed.

End BlocklistMore.

Section BlocklistLookup.

Import BlockedDomainsManager.

Implicit Types (m : BlockedDomainsManager.t) (fs : FS) (entries raws : list string).

Local Abbreviation norm s := (Str.lower (Str.strip s)).

Lemma contains_app c s t :
  Str.contains c (s +:+ t) = Str.contains c s || Str.contains c t.
Proof.
  induction s as [|a s IH]; [done|]. rewrite string_app_cons. simpl.
  by case_decide.
Qed.

(** The domain of [pre@d] is [d] when [d] has no [@]. *)
Lemma domain_of_at pre d :
  Str.contains "@" d = false → domain_of (pre +:+ String "@" d) = d.
Proof.
  intros Hd. unfold domain_of.
  assert (Str.contains "@" (pre +:+ String "@" d) = true) as Hc.
  { rewrite contains_app. simpl. by rewrite orb_true_r. }
  rewrite Hc. destruct (split_last_suffix _ _ Hc) as [_ (pre' & Hpre & Hlast)].
  set (d' := Str.last_item (Str.split "@" (pre +:+ String "@" d))) in *.
  clearbody d'. clear Hc. revert pre' Hpre.
  induction pre as [|a pre IH]; intros pre' Hpre.
  - destruct pre' as [|b pre'].
    + by injection Hpre.
    + change ("" +:+ String "@" d) with (String "@" d) in Hpre.
      rewrite string_app_cons in Hpre. injection Hpre as <- Hpre.
      rewrite Hpre, contains_app in Hd. simpl in Hd.
      by rewrite orb_true_r in Hd.
  - destruct pre' as [|b pre'].
    + change ("" +:+ String "@" d') with (String "@" d') in Hpre.
      rewrite string_app_cons in Hpre. injection Hpre as -> Hpre.
      rewrite <- Hpre, contains_app in Hlast. simpl in Hlast.
      by rewrite orb_true_r in Hlast.
    + rewrite !string_app_cons in Hpre. injection Hpre as _ Hpre. by eapply IH.
Qed.

Lemma is_blocked_norm m e e' :
  Str.lower (Str.strip e) = Str.lower (Str.strip e') →
  is_blocked m e = is_blocked m e'.
Proof. unfold is_blocked. by intros ->. Qed.

(** X5. A domain given to [add_domains] is blocked from then on, in any case
    and with any surrounding white space: when its normal form [d] is not
    empty and has no [@], every address whose normal form is [pre@d] is
    blocked, whatever the write of the file did. *)
Theorem add_domains_blocks w domains m fs r e pre :
  r ∈ domains →
  Str.lower (Str.strip r) ≠ "" →
  Str.contains "@" (Str.lower (Str.strip r)) = false →
  Str.lower (Str.strip e) = pre +:+ String "@" (Str.lower (Str.strip r)) →
  is_blocked (add_domains w domains m fs).1.1 e = true.
Proof.
  intros Hr Hne Hat He. apply is_blocked_iff. right.
  rewrite He, domain_of_at by done. rewrite add_domains_data. simpl.
  apply add_entries_elem. right. eauto.
Qed.

(** X6. An address given to [add_emails] is blocked from then on, in any
    case and with any surrounding white space, unless it is blank. *)
Theorem add_emails_blocks w emails m fs r e :
  r ∈ emails →
  Str.lower (Str.strip r) ≠ "" →
  Str.lower (Str.strip e) = Str.lower (Str.strip r) →
  is_blocked (add_emails w emails m fs).1.1 e = true.
Proof.
  intros Hr Hne He. apply is_blocked_iff. left.
  rewrite He. rewrite add_emails_data. simpl.
  apply add_entries_elem. right. eauto.
Qed.

(** X7. Neither operation ever unblocks: an address that is blocked stays
    blocked after [add_domains] and after [add_emails]. *)
Theorem add_never_unblocks w raws m fs e :
  is_blocked m e = true →
  is_blocked (add_domains w raws m fs).1.1 e = true
  ∧ is_blocked (add_emails w raws m fs).1.1 e = true.
Proof.
  rewrite !is_blocked_iff, add_domains_data, add_emails_data. simpl.
  intros [H|H]; split.
  - by left.
  - left. apply add_entries_elem. by left.
  - right. apply add_entries_elem. by left.
  - by right.
Qed.

(** X8. [is_blocked] does not depend on the case of the address it is asked
    about, nor on white space around it. *)
Theorem is_blocked_ignores_case_and_space m e :
  is_blocked m (Str.lower e) = is_blocked m e
  ∧ is_blocked m (Str.strip e) = is_blocked m e.
Proof.
  split; apply is_blocked_norm.
  - by rewrite <- lower_strip, lower_idemp.
  - by rewrite strip_idemp.
Qed.

Lemma domain_of_no_at s : Str.contains "@" (domain_of s) = false.
Proof.
  unfold domain_of. destruct (Str.contains "@" s) eqn:Hc; [|done].
  by destruct (split_last_suffix _ _ Hc) as [_ (pre & _ & Hlast)].
Qed.

(** X9. A blocked-domain entry that contains an [@] blocks nothing: the
    answer of [is_blocked] is the same without these entries, for every
    blocklist and every address. *)
Theorem at_domains_block_nothing m e :
  is_blocked (without_at_domains m) e = is_blocked m e.
Proof.
  unfold is_blocked, without_at_domains. simpl.
  destruct (bool_decide (norm e ∈ blocked_emails (data m))); [done|].
  apply bool_decide_ext. rewrite list_elem_of_filter.
  pose proof (domain_of_no_at (norm e)). tauto.
Qed.

Lemma save_load w m fs :
  let '(fs', r) := save w m fs in
  match w with
  | WriteOk => r = Returns () ∧ init (file_path m) fs' = Returns m
  | OpenFails => r = Raises OSError ∧ fs' = fs
  | DumpFails => r = Raises OSError ∧ init (file_path m) fs' = Raises JSONDecodeError
  end.
Proof.
  destruct w; simpl; (split; [done|]); try done;
    unfold init, load; rewrite lookup_insert_eq; by destruct m.
Qed.

(** X10. What the two operations leave in the file. When the write
    completes, a manager built from the file afterwards is the manager in
    memory. When [open] fails the files are as before, and when the dump
    fails the file cannot be loaded; in both cases the call raises and the
    manager in memory already holds the new entries. No other file is
    changed. *)
Theorem add_persists w raws m fs :
  let '(m1, fs1, r1) := add_domains w raws m fs in
  let '(m2, fs2, r2) := add_emails w raws m fs in
  match w with
  | WriteOk =>
      r1 = Returns () ∧ init (file_path m) fs1 = Returns m1
      ∧ r2 = Returns () ∧ init (file_path m) fs2 = Returns m2
  | OpenFails =>
      r1 = Raises OSError ∧ fs1 = fs ∧ r2 = Raises OSError ∧ fs2 = fs
  | DumpFails =>
      r1 = Raises OSError ∧ init (file_path m) fs1 = Raises JSONDecodeError
      ∧ r2 = Raises OSError ∧ init (file_path m) fs2 = Raises JSONDecodeError
  end
  ∧ ∀ path, path ≠ file_path m → fs1 !! path = fs !! path ∧ fs2 !! path = fs !! path.
Proof.
  unfold add_domains, add_emails.
  set (m1 := mk (file_path m) (mkData (foldl add_entry _ raws) _)).
  set (m2 := mk (file_path m) (mkData _ (foldl add_entry _ raws))).
  pose proof (save_load w m1 fs) as H1. pose proof (save_load w m2 fs) as H2.
  destruct (save w m1 fs) as [fs1 r1] eqn:E1.
  destruct (save w m2 fs) as [fs2 r2] eqn:E2.
  split.
  - destruct w; destruct H1 as [? ?], H2 as [? ?]; done.
  - intros path Hp. unfold save in E1, E2.
    destruct w; simplify_eq; simpl; rewrite ?lookup_insert_ne; done.
Qed.

End BlocklistLookup.

(** ** More on the progress ledger *)

Section LedgerMore.

Import SendingStateManager.

Implicit Types (m : SendingStateManager.t) (fs : FS).

Lemma mark_sent_nodup now w p e m fs :
  NoDup (Str.lower <$> sent_emails (state m)) →
  NoDup (Str.lower <$> sent_emails (state (mark_sent now w p e m fs).1.1)).
Proof.
  intros Hnd.
  destruct (mark_sent_memory now w p e m fs) as (_ & _ & _ & -> & _).
  destruct (was_sent m e) eqn:Hw; [done|].
  rewrite fmap_app. apply NoDup_app. split; [done|]. split; [|apply NoDup_singleton].
  intros x Hx Hx'. simpl in Hx'. apply list_elem_of_singleton in Hx'. subst x.
  rewrite lower_idemp in Hx. apply was_sent_true in Hx. congruence.
Qed.

(** X11. The ledger never lists an address twice, not even in two different
    cases: when no two stored addresses are equal in lower case, this is
    still so after any number of [mark_sent] calls, whatever their writes
    do; and when the stored addresses are in lower case, they stay so. *)
Theorem mark_sent_keeps_addresses_distinct calls m fs :
  NoDup (Str.lower <$> sent_emails (state m)) →
  let m' := (mark_sent_many calls m fs).1 in
  NoDup (Str.lower <$> sent_emails (state m'))
  ∧ (lowercased (state m) → lowercased (state m') ∧ NoDup (sent_emails (state m'))).
Proof.
  intros Hnd m'. subst m'. unfold mark_sent_many.
  revert m fs Hnd. induction calls as [|c calls IH]; intros m fs Hnd; simpl.
  - split; [done|]. intros Hl. split; [done|]. by eapply NoDup_fmap_1.
  - unfold mark_sent_call at 2 4 6. simpl.
    pose proof (mark_sent_nodup (call_now c) (call_write c) (call_index c)
                  (call_email c) m fs Hnd) as Hnd1.
    pose proof (mark_sent_lowercased (call_now c) (call_write c) (call_index c)
                  (call_email c) m fs) as Hl1.
    destruct (mark_sent _ _ _ _ m fs) as [[m1 fs1] r1]. simpl in *.
    destruct (IH m1 fs1 Hnd1) as [IH1 IH2]. split; [done|].
    intros Hl. by apply IH2, Hl1.
Qed.

(** X12. [mark_sent] changes the answer of [was_sent] for the marked
    address in all its cases, and for no other address. *)
Theorem mark_sent_was_sent_others now w p e m fs e' :
  was_sent (mark_sent now w p e m fs).1.1 e'
  = was_sent m e' || bool_decide (Str.lower e' = Str.lower e).
Proof.
  unfold was_sent at 1.
  destruct (mark_sent_memory now w p e m fs) as (_ & _ & _ & -> & _).
  destruct (was_sent m e) eqn:Hw.
  - fold (was_sent m e'). case_bool_decide as Heq; [|by rewrite orb_false_r].
    rewrite orb_true_r. unfold was_sent in *. by rewrite Heq.
  - rewrite fmap_app. simpl. rewrite lower_idemp.
    apply eq_true_iff_eq. rewrite orb_true_iff, !bool_decide_eq_true.
    rewrite elem_of_app, list_elem_of_singleton. unfold was_sent.
    by rewrite bool_decide_eq_true.
Qed.

Lemma contains_replace_other c old new (s : string) :
  c ≠ old → Str.contains c new = false →
  Str.contains c (Str.replace old new s) = Str.contains c s.
Proof.
  intros Hc Hnew. induction s as [|a s IH]; simpl; [done|].
  destruct (decide (a = old)) as [->|Ha].
  - rewrite contains_app, Hnew, IH. simpl. by rewrite decide_False.
  - simpl. by rewrite IH.
Qed.

Lemma contains_replace_old old new (s : string) :
  Str.contains old new = false → Str.contains old (Str.replace old new s) = false.
Proof.
  intros Hnew. induction s as [|a s IH]; simpl; [done|].
  destruct (decide (a = old)) as [->|Ha].
  - by rewrite contains_app, Hnew, IH.
  - simpl. by rewrite decide_False.
Qed.

(** X13. The name of the ledger file has no [@] and no [.] left from the
    sender address, whatever the address is, and it is never the name of
    the blocklist file. *)
Theorem storage_token_has_no_at_or_dot sender :
  Str.contains "@" (storage_token sender) = false
  ∧ Str.contains "." (storage_token sender) = false
  ∧ state_file sender ≠ BLOCKED_DOMAINS_FILE.
Proof.
  unfold storage_token. split; [|split].
  - rewrite contains_replace_other by done. by apply contains_replace_old.
  - by apply contains_replace_old.
  - apply state_file_not_blocklist.
Qed.

End LedgerMore.

(** ** More on the sending engine *)

Section LoopMore.

Import SendingStateManager.

Variable env : Env.
Variable test_mode : bool.
Variable start_index : Z.
Variable blocked_mgr : BlockedDomainsManager.t.
Variable df : list Recipient.

Implicit Types (m : SendingStateManager.t) (fs : FS) (row : Recipient).

Local Abbreviation body := (loop_body env test_mode start_index blocked_mgr).
Local Abbreviation run_loop := (loop env test_mode start_index blocked_mgr df).

Ltac body_paths H :=
  unfold loop_body in H;
  repeat match type of H with
         | context [if ?b then _ else _] => destruct b eqn:?
         | context [match ?x with _ => _ end] => destruct x eqn:?
         end;
  simplify_eq.

Lemma omap_marked_filter (evs : list Event) :
  omap marked_address evs = omap marked_address (filter is_mark evs).
Proof.
  induction evs as [|ev evs IH]; [done|].
  destruct (is_mark ev) eqn:E.
  - rewrite filter_cons_True by (by rewrite E).
    destruct ev as [| | | | | |j a| | |]; try discriminate.
    exact (f_equal (cons (Str.lower a)) IH).
  - rewrite filter_cons_False by (rewrite E; intros []).
    destruct ev; try discriminate; exact IH.
Qed.

(** What one iteration appends to the list of addresses. *)
Lemma body_marks i row m fs evs m' fs' c :
  body i row m fs = (evs, m', fs', c) →
  (omap marked_address evs = [] ∧ sent_emails (state m') = sent_emails (state m))
  ∨ (omap marked_address evs = [Str.lower (email row)]
     ∧ sent_emails (state m') = sent_emails (state m) ++ [Str.lower (email row)]
     ∧ Str.lower (email row) ∉ Str.lower <$> sent_emails (state m)).
Proof.
  intros Hb. rewrite omap_marked_filter.
  destruct (body_ledger _ _ _ _ _ _ _ _ _ _ _ _ Hb)
    as [(-> & _ & ->)|(_ & _ & Hw & -> & r & Hm & _)]; simpl; [by left|].
  pose proof (mark_sent_memory (clock env i) (write env i) i (email row) m fs)
    as (_ & _ & _ & Hs & _).
  rewrite Hm in Hs. simpl in Hs. rewrite Hw in Hs. right.
  split; [done|]. split; [done|].
  intros Hin. apply was_sent_true in Hin. congruence.
Qed.

Lemma body_marks_end i row m fs evs m' fs' c :
  body i row m fs = (evs, m', fs', c) →
  sent_emails (state m') = sent_emails (state m) ++ omap marked_address evs
  ∧ NoDup (omap marked_address evs)
  ∧ ∀ a, a ∈ omap marked_address evs →
         Str.lower a = a ∧ a ∉ Str.lower <$> sent_emails (state m).
Proof.
  intros Hb. destruct (body_marks _ _ _ _ _ _ _ _ Hb) as [[-> ->]|(-> & -> & Hnin)].
  - rewrite app_nil_r. split; [done|]. split; [constructor|].
    by intros a ?%elem_of_nil.
  - split; [done|]. split; [apply NoDup_singleton|].
    intros a ->%list_elem_of_singleton. split; [apply lower_idemp|done].
Qed.

(** The ledger after the loop lists the addresses it had, followed by the
    addresses of the [mark_sent] calls of the loop, which are pairwise
    different and were not in it. *)
Lemma loop_marks i n m fs :
  ∃ m', ledger (run_loop i n m fs) = Some m'
        ∧ sent_emails (state m')
          = sent_emails (state m) ++ omap marked_address (trace (run_loop i n m fs))
        ∧ NoDup (omap marked_address (trace (run_loop i n m fs)))
        ∧ ∀ a, a ∈ omap marked_address (trace (run_loop i n m fs)) →
               Str.lower a = a ∧ a ∉ Str.lower <$> sent_emails (state m).
Proof.
  pattern i, n, m, fs, (run_loop i n m fs). apply loop_ind; clear; simpl.
  - intros i m fs. exists m. rewrite app_nil_r. split; [done|]. split; [done|].
    split; [constructor|]. by intros a ?%elem_of_nil.
  - intros i n m fs _. exists m. rewrite app_nil_r. split; [done|]. split; [done|].
    split; [constructor|]. by intros a ?%elem_of_nil.
  - intros i n m fs row evs m1 fs1 _ Hb (m' & Hl & Hs & Hnd & Hnew).
    apply body_marks_end in Hb as (Hs1 & Hnd1 & Hnew1).
    exists m'. split; [done|]. rewrite omap_app. split.
    { by rewrite Hs, Hs1, app_assoc. }
    split.
    + apply NoDup_app. split; [done|]. split; [|done].
      intros a Ha Ha'. destruct (Hnew a Ha') as [_ Hnin]. apply Hnin.
      rewrite Hs1, fmap_app, elem_of_app. right.
      destruct (Hnew1 a Ha) as [<- _]. by apply list_elem_of_fmap_2.
    + intros a [Ha|Ha]%elem_of_app; [by apply Hnew1|].
      destruct (Hnew a Ha) as [? Hnin]. split; [done|].
      intros Hin. apply Hnin. rewrite Hs1, fmap_app, elem_of_app. by left.
  - intros i n m fs row evs m1 fs1 _ Hb.
    apply body_marks_end in Hb as (Hs1 & Hnd1 & Hnew1). by exists m1.
  - intros i n m fs row evs m1 fs1 e _ Hb.
    apply body_marks_end in Hb as (Hs1 & Hnd1 & Hnew1). by exists m1.
Qed.

(** With test mode off, an iteration that goes on to the next one leaves the
    row blocked or in the ledger, or has reported that it failed: no content
    was generated, or the transport did not deliver. *)
Lemma body_accounted i row m fs evs m' fs' :
  test_mode = false →
  body i row m fs = (evs, m', fs', Continue) →
  BlockedDomainsManager.is_blocked blocked_mgr (email row) = true
  ∨ was_sent m' (email row) = true
  ∨ ∃ ev, ev ∈ evs ∧ is_failure ev = true
          ∧ (generate_email_content env i row = None ∨ api env i ≠ ApiOk).
Proof.
  intros Ht Hb. subst test_mode. unfold loop_body in Hb.
  destruct (BlockedDomainsManager.is_blocked blocked_mgr (email row)
            || was_sent m (email row)) eqn:Hskip.
  { injection Hb as <- <- <-. apply orb_true_iff in Hskip as [?|?]; auto. }
  destruct (generate_email_content env i row) as [content|] eqn:Hc.
  2:{ injection Hb as <- <- <-. right. right.
      exists (EvContentFailed i (email row)).
      split; [apply elem_of_cons; right; apply elem_of_cons; by left|]. auto. }
  destruct (api env i) as [|code|x] eqn:Ha; simpl in Hb.
  - pose proof (mark_sent_was_sent (clock env i) (write env i) i (email row) m fs) as Hws.
    destruct (mark_sent (clock env i) (write env i) i (email row) m fs) as [[m1 fs1] r].
    destruct r; [|done]. injection Hb as <- <- <-. simpl in Hws. auto.
  - case_bool_decide; [done|]. injection Hb as <- <- <-. right. right.
    exists (EvSendFailed i (email row)).
    split; [do 2 (apply elem_of_cons; right); apply elem_of_cons; by left|].
    split; [done|]. by right.
  - done.
Qed.

(** A loop that completes with test mode off leaves no row of its range
    unaccounted for. *)
Lemma loop_accounted i n m fs :
  test_mode = false →
  status (run_loop i n m fs) = Completed →
  ∃ m', ledger (run_loop i n m fs) = Some m'
        ∧ ∀ j row, i ≤ j < i + Z.of_nat n → iloc df j = Some row →
            BlockedDomainsManager.is_blocked blocked_mgr (email row) = true
            ∨ was_sent m' (email row) = true
            ∨ ∃ ev, ev ∈ trace (run_loop i n m fs) ∧ ev_index ev = j
                    ∧ is_failure ev = true
                    ∧ (generate_email_content env j row = None ∨ api env j ≠ ApiOk).
Proof.
  intros Ht. pattern i, n, m, fs, (run_loop i n m fs). apply loop_ind; clear - Ht; simpl.
  - intros i m fs _. exists m. split; [done|]. intros; lia.
  - done.
  - intros i n m fs row evs m1 fs1 Hrow Hb IH Hst.
    destruct (IH Hst) as (m' & Hl & Hall). exists m'. split; [done|].
    intros j row' Hj Hrow'.
    destruct (decide (j = i)) as [->|Hne].
    + assert (row' = row) as -> by congruence.
      pose proof (body_index _ _ _ _ _ _ _ _ _ _ _ _ Hb) as [_ Hidx].
      rewrite Forall_forall in Hidx.
      destruct (body_accounted _ _ _ _ _ _ _ Ht Hb) as [?|[Hs|(ev & Hev & Hf & Hwhy)]].
      * by left.
      * right. left.
        destruct (loop_forward env test_mode start_index blocked_mgr df (i + 1) n m1 fs1)
          as (m'' & Hl' & _ & _ & Hpre & _).
        assert (m'' = m') as -> by congruence.
        by eapply was_sent_prefix.
      * right. right. exists ev. split; [apply elem_of_app; by left|].
        split; [by apply Hidx|]. done.
    + destruct (Hall j row') as [?|[?|(ev & Hev & ? & ? & ?)]]; [lia|done|auto..].
      right. right. exists ev. split; [apply elem_of_app; by right|]. done.
  - done.
  - done.
Qed.

(** In test mode the loop previews at most the rows before position
    [start_index + 2] and one more. *)
Lemma loop_previews i n m fs :
  test_mode = true →
  (length (filter is_preview (trace (run_loop i n m fs)))
   ≤ Z.to_nat (start_index + 2 - i) + 1)%nat.
Proof.
  intros Ht. pattern i, n, m, fs, (run_loop i n m fs). apply loop_ind; clear - Ht; simpl.
  - intros. lia.
  - intros. lia.
  - intros i n m fs row evs m' fs' _ Hb IH.
    rewrite filter_app, length_app.
    body_paths Hb; simpl in *; try discriminate; rewrite ?filter_cons; simpl;
      try case_bool_decide; try lia; simplify_eq.
  - intros i n m fs row evs m' fs' _ Hb.
    body_paths Hb; simpl in *; try discriminate; rewrite ?filter_cons; simpl; lia.
  - intros i n m fs row evs m' fs' e _ Hb.
    body_paths Hb; simpl in *; try discriminate.
Qed.

(** The transport is never called twice without a sleep in between. *)
Lemma loop_paced i n m fs : paced (trace (run_loop i n m fs)) = true.
Proof.
  unfold paced.
  pattern i, n, m, fs, (run_loop i n m fs). apply loop_ind; clear; simpl; try done.
  - intros i n m fs row evs m' fs' _ Hb IH. body_paths Hb; simpl; done.
  - intros i n m fs row evs m' fs' _ Hb. body_paths Hb; simpl; done.
  - intros i n m fs row evs m' fs' e _ Hb. body_paths Hb; simpl; done.
Qed.

(** The positions the loop visits are the positions from its first one to
    the one it ends at, none left out; when it completes, they are all the
    positions of its range. *)
Lemma loop_visits i n m fs :
  (∀ ev j, ev ∈ trace (run_loop i n m fs) → i ≤ j ≤ ev_index ev →
           ∃ ev', ev' ∈ trace (run_loop i n m fs) ∧ ev_index ev' = j)
  ∧ (status (run_loop i n m fs) = Completed →
     ∀ j, i ≤ j < i + Z.of_nat n →
          ∃ ev', ev' ∈ trace (run_loop i n m fs) ∧ ev_index ev' = j).
Proof.
  pattern i, n, m, fs, (run_loop i n m fs). apply loop_ind; clear; simpl.
  - intros i m fs. split; [by intros ev j ?%elem_of_nil|]. intros _ j Hj. lia.
  - intros i n m fs _. split; [by intros ev j ?%elem_of_nil|]. done.
  - intros i n m fs row evs m' fs' _ Hb [IH1 IH2].
    apply body_index in Hb as [Hne Hidx]. rewrite Forall_forall in Hidx.
    assert (∃ ev0, ev0 ∈ evs ∧ ev_index ev0 = i) as (ev0 & Hev0 & Hi0).
    { destruct evs as [|ev0 evs]; [done|]. exists ev0. split; [by left|].
      apply Hidx. by left. }
    split.
    + intros ev j [Hev|Hev]%elem_of_app Hj.
      * rewrite (Hidx _ Hev) in Hj. exists ev0. split; [|lia].
        apply elem_of_app. by left.
      * destruct (decide (j = i)) as [->|Hji].
        { exists ev0. split; [|done]. apply elem_of_app. by left. }
        destruct (IH1 ev j Hev) as (ev' & Hev' & Hj'); [lia|].
        exists ev'. split; [|done]. apply elem_of_app. by right.
    + intros Hst j Hj. destruct (decide (j = i)) as [->|Hji].
      { exists ev0. split; [|done]. apply elem_of_app. by left. }
      destruct (IH2 Hst j) as (ev' & Hev' & Hj'); [lia|].
      exists ev'. split; [|done]. apply elem_of_app. by right.
  - intros i n m fs row evs m' fs' _ Hb.
    apply body_index in Hb as [Hne Hidx]. rewrite Forall_forall in Hidx.
    split; [|done]. intros ev j Hev Hj. rewrite (Hidx _ Hev) in Hj.
    exists ev. split; [done|]. rewrite (Hidx _ Hev). lia.
  - intros i n m fs row evs m' fs' e _ Hb.
    apply body_index in Hb as [Hne Hidx]. rewrite Forall_forall in Hidx.
    split; [|done]. intros ev j Hev Hj. rewrite (Hidx _ Hev) in Hj.
    exists ev. split; [done|]. rewrite (Hidx _ Hev). lia.
Qed.

(** The cursor after the loop is the position of its last [mark_sent]; with
    no [mark_sent], the ledger and the files are as they were. *)
Lemma loop_cursor i n m fs :
  ∃ m', ledger (run_loop i n m fs) = Some m'
        ∧ match last (filter is_mark (trace (run_loop i n m fs))) with
          | None => m' = m ∧ disk (run_loop i n m fs) = fs
          | Some ev => last_index_sent (state m') = ev_index ev
          end.
Proof.
  pattern i, n, m, fs, (run_loop i n m fs). apply loop_ind; clear; simpl.
  - intros. eauto.
  - intros. eauto.
  - intros i n m fs row evs m1 fs1 _ Hb (m' & Hl & Hlast).
    exists m'. split; [done|]. rewrite filter_app, last_app.
    destruct (last (filter is_mark (trace _))) as [ev|]; [done|].
    destruct Hlast as [-> ->].
    destruct (body_ledger _ _ _ _ _ _ _ _ _ _ _ _ Hb)
      as [(-> & -> & ->)|(_ & _ & _ & -> & r & Hm & _)]; simpl; [done|].
    pose proof (mark_sent_memory (clock env i) (write env i) i (email row) m fs)
      as (_ & _ & Hi & _).
    by rewrite Hm in Hi.
  - intros i n m fs row evs m1 fs1 _ Hb. exists m1. split; [done|].
    destruct (body_ledger _ _ _ _ _ _ _ _ _ _ _ _ Hb)
      as [(-> & -> & ->)|(_ & _ & _ & -> & r & Hm & _)]; simpl; [done|].
    pose proof (mark_sent_memory (clock env i) (write env i) i (email row) m fs)
      as (_ & _ & Hi & _).
    by rewrite Hm in Hi.
  - intros i n m fs row evs m1 fs1 e _ Hb. exists m1. split; [done|].
    destruct (body_ledger _ _ _ _ _ _ _ _ _ _ _ _ Hb)
      as [(-> & -> & ->)|(_ & _ & _ & -> & r & Hm & _)]; simpl; [done|].
    pose proof (mark_sent_memory (clock env i) (write env i) i (email row) m fs)
      as (_ & _ & Hi & _).
    by rewrite Hm in Hi.
Qed.

End LoopMore.

Section RunMore.

Import SendingStateManager.

Implicit Types (self : JobApplicationSystem.t) (m : SendingStateManager.t) (fs : FS).

(** X14. In one run no address is passed to [mark_sent] twice, in whatever
    case it is written, and none that the loaded ledger already held; the
    ledger in memory after the run lists the addresses it held before,
    followed by the lower-cased addresses of the run's [mark_sent] calls in
    their order. *)
Theorem run_marks_each_address_once self env recipients test_mode fs m0 :
  init (JobApplicationSystem.sender_email self) fs = Returns m0 →
  let r := run_sending_process self env recipients test_mode fs in
  let marked := omap marked_address (trace r) in
  NoDup marked
  ∧ (∀ a, a ∈ marked → a ∉ Str.lower <$> sent_emails (state m0))
  ∧ (∀ m', ledger r = Some m' →
           sent_emails (state m') = sent_emails (state m0) ++ marked).
Proof.
  intros Hm r marked. subst marked r.
  destruct (run_cases self env recipients test_mode fs)
    as [(-> & -> & _)|(df & bl & m0' & -> & Hbl & Hm' & ->)].
  { split; [constructor|]. split; [by intros a ?%elem_of_nil|]. done. }
  assert (m0' = m0) as -> by congruence.
  destruct (loop_marks env test_mode (last_index_sent (state m0) + 1) bl df
              (last_index_sent (state m0) + 1)
              (Z.to_nat (Z.of_nat (length df) - (last_index_sent (state m0) + 1)))
              m0 fs) as (m' & Hl & Hs & Hnd & Hnew).
  split; [done|]. split; [intros a Ha; by apply Hnew|].
  intros m'' Hl'. congruence.
Qed.

(** After a run that does not raise, the ledger file holds what the run has
    in memory. *)
Lemma run_synced self env recipients test_mode fs m' :
  ledger (run_sending_process self env recipients test_mode fs) = Some m' →
  (∀ e, status (run_sending_process self env recipients test_mode fs) ≠ Raised e) →
  init (JobApplicationSystem.sender_email self)
    (disk (run_sending_process self env recipients test_mode fs)) = Returns m'.
Proof.
  intros Hl Hst.
  destruct (run_cases self env recipients test_mode fs)
    as [(_ & Hnone & _)|(df & bl & m0 & -> & Hbl & Hm & Hr)]; [congruence|].
  rewrite Hr in Hl, Hst |- *.
  destruct (init_synced _ _ _ Hm) as (Hsync & Hpath & _).
  pose proof (loop_synced _ _ _ _ _ _ _ _ _ _ Hsync Hst Hl) as Hsync'.
  destruct (loop_forward env test_mode (last_index_sent (state m0) + 1) bl df
              (last_index_sent (state m0) + 1)
              (Z.to_nat (Z.of_nat (length df) - (last_index_sent (state m0) + 1)))
              m0 fs) as (m'' & Hl' & Htok & Hp & _).
  assert (m'' = m') as -> by congruence.
  unfold init. unfold synced in Hsync'. rewrite Hp, Hpath in Hsync'.
  rewrite Hsync'. f_equal. destruct m' as [tok path s]. simpl in *.
  unfold init in Hm. destruct (load _ fs); [|done].
  injection Hm as <-. simpl in *. by subst.
Qed.

(** X15. A run that completes with test mode off leaves no row after the
    cursor unaccounted for: the ledger file holds the ledger in memory, and
    every such row is blocked, or in the ledger, or the run has reported a
    failure for its position (no content, or a delivery that failed for
    another reason than the quota). When the generator returns content for
    every row and the transport delivers every message, every such row is
    blocked or in the ledger. *)
Theorem completed_run_accounts_for_every_row self env df fs blocked_mgr m0 :
  BlockedDomainsManager.init BLOCKED_DOMAINS_FILE fs = Returns blocked_mgr →
  init (JobApplicationSystem.sender_email self) fs = Returns m0 →
  let r := run_sending_process self env (Some df) false fs in
  status r = Completed →
  ∃ m', ledger r = Some m'
        ∧ init (JobApplicationSystem.sender_email self) (disk r) = Returns m'
        ∧ (∀ j row, last_index_sent (state m0) < j → iloc df j = Some row →
             BlockedDomainsManager.is_blocked blocked_mgr (email row) = true
             ∨ was_sent m' (email row) = true
             ∨ ∃ ev, ev ∈ trace r ∧ ev_index ev = j ∧ is_failure ev = true)
        ∧ ((∀ j row, generate_email_content env j row ≠ None) →
           (∀ j, api env j = ApiOk) →
           ∀ j row, last_index_sent (state m0) < j → iloc df j = Some row →
             BlockedDomainsManager.is_blocked blocked_mgr (email row) = true
             ∨ was_sent m' (email row) = true).
Proof.
  intros Hbl Hm r Hst.
  assert (r = loop env false (last_index_sent (state m0) + 1) blocked_mgr df
                (last_index_sent (state m0) + 1)
                (Z.to_nat (Z.of_nat (length df) - (last_index_sent (state m0) + 1)))
                m0 fs) as Hr.
  { subst r. unfold run_sending_process in *.
    destruct (JobApplicationSystem.gmail_service self); [|done].
    simpl. by rewrite Hbl, Hm. }
  rewrite Hr in Hst.
  destruct (loop_accounted env false (last_index_sent (state m0) + 1) blocked_mgr df
              (last_index_sent (state m0) + 1)
              (Z.to_nat (Z.of_nat (length df) - (last_index_sent (state m0) + 1)))
              m0 fs eq_refl Hst) as (m' & Hl & Hall).
  rewrite <- Hr in Hst, Hl, Hall.
  assert (∀ j row, last_index_sent (state m0) < j → iloc df j = Some row →
            last_index_sent (state m0) + 1 ≤ j
            < last_index_sent (state m0) + 1
              + Z.of_nat (Z.to_nat (Z.of_nat (length df)
                                    - (last_index_sent (state m0) + 1)))) as Hrange.
  { intros j row Hj Hrow.
    assert (is_Some (iloc df j)) as Hj' by eauto. apply iloc_is_Some in Hj'. lia. }
  exists m'. split; [done|]. split; [|split].
  - apply run_synced; [exact Hl|]. intros e. fold r. by rewrite Hst.
  - intros j row Hj Hrow.
    destruct (Hall j row (Hrange j row Hj Hrow) Hrow) as [?|[?|(ev & ? & ? & ? & _)]];
      [by left|by right; left|].
    right. right. by exists ev.
  - intros Hg Ha j row Hj Hrow.
    destruct (Hall j row (Hrange j row Hj Hrow) Hrow) as [?|[?|(ev & _ & _ & _ & Hwhy)]];
      [by left|by right|].
    destruct Hwhy as [Hnone|Hapi]; [by destruct (Hg j row)|by destruct Hapi].
Qed.

(** X16. A run in test mode previews at most three rows, however long the
    list is. *)
Theorem dry_run_previews_at_most_three self env recipients fs :
  (length (filter is_preview
             (trace (run_sending_process self env recipients true fs))) ≤ 3)%nat.
Proof.
  destruct (run_cases self env recipients true fs)
    as [(-> & _)|(df & bl & m0 & -> & Hbl & Hm & ->)]; [simpl; lia|].
  etrans; [by apply loop_previews|]. lia.
Qed.

(** X17. A run never calls the transport twice without a [time.sleep] in
    between. *)
Theorem run_is_paced self env recipients test_mode fs :
  paced (trace (run_sending_process self env recipients test_mode fs)) = true.
Proof.
  destruct (run_cases self env recipients test_mode fs)
    as [(-> & _)|(df & bl & m0 & -> & Hbl & Hm & ->)]; [done|].
  apply loop_paced.
Qed.

(** X18. After a run that does not end in an exception, a manager built
    again from the files for the same sender is the manager the run ended
    with: every delivery the run recorded is on disk. *)
Theorem run_leaves_ledger_on_disk self env recipients test_mode fs m' :
  let r := run_sending_process self env recipients test_mode fs in
  ledger r = Some m' →
  (∀ e, status r ≠ Raised e) →
  init (JobApplicationSystem.sender_email self) (disk r) = Returns m'.
Proof. intros r. apply run_synced. Qed.

(** X19. A run writes no file but the ledger file of its sender. *)
Theorem run_touches_only_its_ledger self env recipients test_mode fs :
  delete (state_file (JobApplicationSystem.sender_email self))
    (disk (run_sending_process self env recipients test_mode fs))
  = delete (state_file (JobApplicationSystem.sender_email self)) fs.
Proof.
  apply map_eq. intros path.
  destruct (decide (path = state_file (JobApplicationSystem.sender_email self)))
    as [->|Hne].
  { by rewrite !lookup_delete_eq. }
  rewrite !lookup_delete_ne by done.
  destruct (run_cases self env recipients test_mode fs)
    as [(_ & _ & -> & _)|(df & bl & m0 & -> & Hbl & Hm & ->)]; [done|].
  apply loop_other_files. apply init_synced in Hm as (_ & -> & _). done.
Qed.

(** X20. A run leaves out no position: the positions of its events are all
    the positions from the one after the cursor up to the one it ends at,
    and when the run completes these are all the positions up to the end of
    the list. *)
Theorem run_visits_every_position self env recipients test_mode fs m0 :
  init (JobApplicationSystem.sender_email self) fs = Returns m0 →
  let r := run_sending_process self env recipients test_mode fs in
  (∀ ev j, ev ∈ trace r → last_index_sent (state m0) < j ≤ ev_index ev →
           ∃ ev', ev' ∈ trace r ∧ ev_index ev' = j)
  ∧ (status r = Completed →
     ∀ df j, recipients = Some df →
             last_index_sent (state m0) < j < Z.of_nat (length df) →
             ∃ ev', ev' ∈ trace r ∧ ev_index ev' = j).
Proof.
  intros Hm r. subst r.
  destruct (run_cases self env recipients test_mode fs)
    as [(-> & _ & _ & Hst & _)|(df & bl & m0' & -> & Hbl & Hm' & ->)].
  { split; [by intros ev j ?%elem_of_nil|]. done. }
  assert (m0' = m0) as -> by congruence.
  destruct (loop_visits env test_mode (last_index_sent (state m0) + 1) bl df
              (last_index_sent (state m0) + 1)
              (Z.to_nat (Z.of_nat (length df) - (last_index_sent (state m0) + 1)))
              m0 fs) as [H1 H2].
  split.
  - intros ev j Hev Hj. apply (H1 ev j Hev). lia.
  - intros Hst df' j [= <-] Hj. apply (H2 Hst j). lia.
Qed.

(** X21. The cursor after a run is the position of the run's last
    [mark_sent]; a run without any [mark_sent] leaves the ledger in memory
    and all files as they were. *)
Theorem run_cursor_is_last_mark self env recipients test_mode fs m0 m' :
  init (JobApplicationSystem.sender_email self) fs = Returns m0 →
  let r := run_sending_process self env recipients test_mode fs in
  ledger r = Some m' →
  match last (filter is_mark (trace r)) with
  | None => m' = m0 ∧ disk r = fs
  | Some ev => last_index_sent (state m') = ev_index ev
  end.
Proof.
  intros Hm r Hl. subst r.
  destruct (run_cases self env recipients test_mode fs)
    as [(_ & Hnone & _)|(df & bl & m0' & -> & Hbl & Hm' & Hr)]; [congruence|].
  assert (m0' = m0) as -> by congruence.
  rewrite Hr in Hl |- *.
  destruct (loop_cursor env test_mode (last_index_sent (state m0) + 1) bl df
              (last_index_sent (state m0) + 1)
              (Z.to_nat (Z.of_nat (length df) - (last_index_sent (state m0) + 1)))
              m0 fs) as (m'' & Hl' & Hlast).
  by assert (m'' = m') as -> by congruence.
Qed.

(** X22. A domain added with [add_domains] is in force for the next run:
    when the write of the blocklist file completes, a row whose address is
    at that domain leaves no event in the run but its skip. *)
Theorem added_domain_is_skipped self env df test_mode fs bm domains d row j pre :
  BlockedDomainsManager.file_path bm = BLOCKED_DOMAINS_FILE →
  d ∈ domains →
  Str.lower (Str.strip d) ≠ "" →
  Str.contains "@" (Str.lower (Str.strip d)) = false →
  iloc df j = Some row →
  Str.lower (Str.strip (email row)) = pre +:+ String "@" (Str.lower (Str.strip d)) →
  let fs' := (BlockedDomainsManager.add_domains WriteOk domains bm fs).1.2 in
  ∀ ev, ev ∈ trace (run_sending_process self env (Some df) test_mode fs') →
        ev_index ev = j → ev = EvSkip j (email row).
Proof.
  intros Hpath Hd Hne Hat Hrow Hrowd fs' ev Hev Hj. subst fs'.
  assert (BlockedDomainsManager.is_blocked
            (BlockedDomainsManager.add_domains WriteOk domains bm fs).1.1 (email row)
          = true) as Hblocked.
  { apply is_blocked_iff. right. rewrite Hrowd, domain_of_at by done.
    rewrite add_domains_data. simpl. apply add_entries_elem. right. eauto. }
  assert (BlockedDomainsManager.init BLOCKED_DOMAINS_FILE
            (BlockedDomainsManager.add_domains WriteOk domains bm fs).1.2
          = Returns (BlockedDomainsManager.add_domains WriteOk domains bm fs).1.1)
    as Hinit.
  { rewrite add_domains_data. unfold BlockedDomainsManager.add_domains. simpl.
    unfold BlockedDomainsManager.init, BlockedDomainsManager.load.
    by rewrite Hpath, lookup_insert_eq. }
  destruct (run_cases self env (Some df) test_mode
              (BlockedDomainsManager.add_domains WriteOk domains bm fs).1.2)
    as [(Ht & _)|(df' & bl & m0 & [= <-] & Hbl & Hm & Hr)].
  { rewrite Ht in Hev. by apply elem_of_nil in Hev. }
  assert (bl = (BlockedDomainsManager.add_domains WriteOk domains bm fs).1.1)
    as Hbl' by congruence.
  rewrite Hr, Hbl' in Hev.
  apply (loop_skip _ _ _ _ _ _ _ _ _ j row Hrow) in Hev; [done| |done].
  by rewrite Hblocked.
Qed.

(** X23. A cursor outside the list. When the cursor is at or beyond the last
    row, the run completes at once: nothing is generated or sent and nothing
    changes. When the cursor is so far below zero that the first position
    is before the list counted from its end, the run raises [IndexError]
    before it does anything. *)
Theorem run_outside_the_list self env df test_mode fs blocked_mgr m0 :
  JobApplicationSystem.gmail_service self = true →
  BlockedDomainsManager.init BLOCKED_DOMAINS_FILE fs = Returns blocked_mgr →
  init (JobApplicationSystem.sender_email self) fs = Returns m0 →
  let r := run_sending_process self env (Some df) test_mode fs in
  (Z.of_nat (length df) ≤ last_index_sent (state m0) + 1 →
     status r = Completed ∧ trace r = [] ∧ disk r = fs ∧ ledger r = Some m0)
  ∧ (last_index_sent (state m0) + 1 < - Z.of_nat (length df) →
     status r = Raised IndexError ∧ trace r = [] ∧ disk r = fs ∧ ledger r = Some m0).
Proof.
  intros Hauth Hbl Hm r. subst r. unfold run_sending_process.
  rewrite Hauth, Hbl, Hm. simpl. split; intros Hlen.
  - by replace (Z.to_nat _) with O by lia.
  - destruct (Z.to_nat _) as [|n] eqn:En; [lia|]. simpl.
    destruct (iloc df (last_index_sent (state m0) + 1)) as [row|] eqn:Hrow; [|done].
    assert (is_Some (iloc df (last_index_sent (state m0) + 1))) as Hs by eauto.
    apply iloc_is_Some in Hs. lia.
Qed.

End RunMore.

(** ** Replies of the text generator *)

Section ReplyFacts.

Import Reply.

Implicit Types (s t pre post mid : string) (c : ascii).

Lemma from_first_Some c s t :
  from_first c s = Some t ↔
  ∃ pre t', s = pre +:+ t ∧ t = String c t' ∧ Str.contains c pre = false.
Proof.
  revert t. induction s as [|a s IH]; intros t; simpl.
  - split; [done|]. intros (pre & t' & Hs & -> & _). by destruct pre.
  - destruct (decide (a = c)) as [->|Ha].
    + split.
      * intros [= <-]. by exists "", s.
      * intros (pre & t' & Hs & -> & Hpre). destruct pre as [|b pre].
        { by rewrite Hs. }
        rewrite string_app_cons in Hs. injection Hs as <- _.
        simpl in Hpre. by rewrite decide_True in Hpre.
    + rewrite IH. split.
      * intros (pre & t' & -> & -> & Hpre). exists (String a pre), t'.
        split; [done|]. split; [done|]. simpl. by rewrite decide_False.
      * intros (pre & t' & Hs & -> & Hpre). destruct pre as [|b pre].
        { injection Hs as -> _. done. }
        rewrite string_app_cons in Hs. injection Hs as <- ->.
        simpl in Hpre. rewrite decide_False in Hpre by done. eauto.
Qed.

Lemma from_first_None c s : from_first c s = None ↔ Str.contains c s = false.
Proof.
  induction s as [|a s IH]; simpl; [done|]. by case_decide.
Qed.

Lemma upto_last_None c s : upto_last c s = None ↔ Str.contains c s = false.
Proof.
  induction s as [|a s IH]; simpl; [done|].
  destruct (upto_last c s) as [t|].
  - split; [done|]. case_decide; [done|]. intros Hc. by apply IH in Hc.
  - case_decide; [done|]. by rewrite <- IH.
Qed.

Lemma upto_last_snoc c s post :
  Str.contains c post = false →
  upto_last c (s +:+ String c post) = Some (s +:+ String c "").
Proof.
  intros Hpost. induction s as [|a s IH].
  - change ("" +:+ String c post) with (String c post). simpl.
    apply upto_last_None in Hpost. rewrite Hpost. by rewrite decide_True.
  - rewrite !string_app_cons. simpl. by rewrite IH.
Qed.

Lemma upto_last_Some c s j :
  upto_last c s = Some j ↔
  ∃ j' post, s = j +:+ post ∧ j = j' +:+ String c "" ∧ Str.contains c post = false.
Proof.
  split.
  - revert j. induction s as [|a s IH]; intros j; simpl; [done|].
    destruct (upto_last c s) as [t|] eqn:Ht.
    + intros [= <-]. destruct (IH t eq_refl) as (j' & post & -> & -> & Hpost).
      exists (String a j'), post. done.
    + case_decide as Ha; [|done]. intros [= <-]. subst a.
      exists "", s. split; [done|]. split; [done|]. by apply upto_last_None.
  - intros (j' & post & -> & -> & Hpost).
    rewrite string_app_assoc. by apply upto_last_snoc.
Qed.

Lemma search_braces_Some s j :
  search_braces s = Some j ↔
  ∃ pre mid post,
    s = pre +:+ j +:+ post ∧ j = String "{" (mid +:+ "}")
    ∧ Str.contains "{" pre = false ∧ Str.contains "}" post = false.
Proof.
  unfold search_braces. split.
  - destruct (from_first "{" s) as [t|] eqn:Ht; [|done]. intros Hj.
    apply from_first_Some in Ht as (pre & t' & -> & -> & Hpre).
    apply upto_last_Some in Hj as (j' & post & Ht & -> & Hpost).
    exists pre. destruct j' as [|b j'].
    + by injection Ht.
    + rewrite !string_app_cons in Ht. injection Ht as <- ->.
      exists j', post. done.
  - intros (pre & mid & post & -> & -> & Hpre & Hpost).
    assert (from_first "{" (pre +:+ String "{" (mid +:+ "}") +:+ post)
            = Some (String "{" (mid +:+ "}") +:+ post)) as ->.
    { apply from_first_Some. exists pre, ((mid +:+ "}") +:+ post). done. }
    apply upto_last_Some. exists (String "{" mid), post. done.
Qed.

(** X24. What the regular expression finds in a reply. The text handed on
    is [j] exactly when the reply is [pre], [j], [post] in a row, where [j]
    begins with [{] and ends with [}], [pre] has no [{] and [post] has no
    [}]: surrounding prose or a code fence is dropped, and two objects in
    one reply are handed on as one text from the first [{] to the last [}].
    Nothing is found exactly when the reply has no [{], or no [}] after its
    first [{]. *)
Theorem search_braces_spec s :
  (∀ j, search_braces s = Some j ↔
        ∃ pre mid post,
          s = pre +:+ j +:+ post ∧ j = String "{" (mid +:+ "}")
          ∧ Str.contains "{" pre = false ∧ Str.contains "}" post = false)
  ∧ (search_braces s = None ↔
       Str.contains "{" s = false
       ∨ ∃ pre rest, s = pre +:+ String "{" rest
                     ∧ Str.contains "{" pre = false ∧ Str.contains "}" rest = false).
Proof.
  split; [intros j; apply search_braces_Some|].
  unfold search_braces. destruct (from_first "{" s) as [t|] eqn:Ht.
  - apply from_first_Some in Ht as (pre & t' & -> & -> & Hpre).
    rewrite upto_last_None. simpl. split.
    + intros Hrest. right. eauto.
    + intros [Hc|(pre' & rest & Hs & Hpre' & Hrest)].
      { rewrite contains_app in Hc. simpl in Hc. by rewrite orb_true_r in Hc. }
      assert (from_first "{" (pre +:+ String "{" t') = Some (String "{" t')) as H1.
      { apply from_first_Some. eauto. }
      assert (from_first "{" (pre +:+ String "{" t') = Some (String "{" rest)) as H2.
      { rewrite Hs. apply from_first_Some. eauto. }
      rewrite H1 in H2. by injection H2 as ->.
  - apply from_first_None in Ht. split; [auto|done].
Qed.

Section Decoder.

Variable J : Type.
Variable json_loads : string → option J.
Variable has_email : J → bool.

Lemma truthy_search s j : search_braces s = Some j → Str.truthy s = true.
Proof. destruct s; [done|done]. Qed.

(** X25. [generate_email_content] returns a value exactly when the reply of
    the text generator is [pre], a text that begins with [{] and ends with
    [}], and [post], with no [{] in [pre] and no [}] in [post], and
    [json.loads] accepts that text; the value is what [json.loads] returns
    for it. In every other case (no reply, an empty reply, no braces, text
    that does not parse) it returns [None] and raises nothing. *)
Theorem generate_email_content_spec result_str v :
  generate_email_content J json_loads result_str = Some v ↔
  ∃ s pre mid post,
    result_str = Some s
    ∧ s = pre +:+ String "{" (mid +:+ "}") +:+ post
    ∧ Str.contains "{" pre = false ∧ Str.contains "}" post = false
    ∧ json_loads (String "{" (mid +:+ "}")) = Some v.
Proof.
  unfold generate_email_content. split.
  - destruct result_str as [s|]; [|done].
    destruct (Str.truthy s); [|done].
    destruct (search_braces s) as [j|] eqn:Hj; [|done]. intros Hv.
    apply search_braces_Some in Hj as (pre & mid & post & -> & -> & ? & ?).
    eauto 10.
  - intros (s & pre & mid & post & -> & Hs & Hpre & Hpost & Hv).
    assert (search_braces s = Some (String "{" (mid +:+ "}"))) as Hj.
    { apply search_braces_Some. eauto 10. }
    by rewrite (truthy_search _ _ Hj), Hj.
Qed.

Lemma contact_of_generate result_str :
  contact_of J json_loads has_email result_str
  = match generate_email_content J json_loads result_str with
    | Some contact => if has_email contact then Some contact else None
    | None => None
    end.
Proof.
  unfold contact_of, generate_email_content.
  destruct result_str as [s|]; [|done]. destruct (Str.truthy s); [|done].
  by destruct (search_braces s).
Qed.

Lemma omap_nil_iff {A B} (f : A → option B) (l : list A) :
  omap f l = [] ↔ ∀ x, x ∈ l → f x = None.
Proof.
  induction l as [|a l IH]; simpl.
  - split; [|done]. by intros _ x ?%elem_of_nil.
  - destruct (f a) eqn:Ha.
    + split; [done|]. intros H. specialize (H a). rewrite Ha in H.
      by specialize (H (list_elem_of_here _ _)).
    + rewrite IH. split.
      * intros H x [->|Hx]%elem_of_cons; auto.
      * intros H x Hx. apply H. by right.
Qed.

Lemma omap_length_le {A B} (f : A → option B) (l : list A) :
  (length (omap f l) ≤ length l)%nat.
Proof.
  induction l as [|a l IH]; [done|].
  change (omap f (a :: l))
    with (match f a with Some y => y :: omap f l | None => omap f l end).
  destruct (f a); simpl; lia.
Qed.

(** X26. A search that finds no contact with an address leaves the
    recipients file as it was, an earlier list included. A search that
    finds some replaces the file by the contacts found: one per job at
    most, in the order of the jobs, each with an address; a job whose reply
    is missing, has no braces, does not parse or has no address is passed
    over and the search goes on. *)
Theorem scrape_and_find_contacts_spec {Job : Type} (jobs : list Job)
    (replies : Job → option string) (csv : option (list J)) :
  let found := omap (λ job, contact_of J json_loads has_email (replies job)) jobs in
  let csv' := scrape_and_find_contacts J json_loads has_email (Some jobs) replies csv in
  ((∀ job, job ∈ jobs → contact_of J json_loads has_email (replies job) = None) →
     csv' = csv)
  ∧ (∀ job, job ∈ jobs →
       contact_of J json_loads has_email (replies job) ≠ None → csv' = Some found)
  ∧ Forall (λ contact, has_email contact = true) found
  ∧ (length found ≤ length jobs)%nat
  ∧ (∀ contact, contact ∈ found ↔
       ∃ job, job ∈ jobs
              ∧ generate_email_content J json_loads (replies job) = Some contact
              ∧ has_email contact = true).
Proof.
  intros found csv'. subst csv'. unfold scrape_and_find_contacts. fold found.
  split; [|split; [|split; [|split]]].
  - intros Hnone. apply omap_nil_iff in Hnone. fold found in Hnone. by rewrite Hnone.
  - intros job Hjob Hsome. destruct found as [|c l] eqn:E; [|done].
    apply omap_nil_iff with (x := job) in E; done.
  - apply Forall_forall. intros c Hc. unfold found in Hc.
    apply list_elem_of_omap in Hc as (job & _ & Hjob).
    rewrite contact_of_generate in Hjob.
    destruct (generate_email_content _ _ _) as [c'|]; [|done].
    destruct (has_email c') eqn:Hc'; [|done]. by injection Hjob as <-.
  - apply omap_length_le.
  - intros c. unfold found. rewrite list_elem_of_omap. split.
    + intros (job & Hjob & Hc). exists job. split; [done|].
      rewrite contact_of_generate in Hc.
      destruct (generate_email_content _ _ _) as [c'|]; [|done].
      destruct (has_email c') eqn:Hc'; [|done]. by injection Hc as <-.
    + intros (job & Hjob & Hg & Hc). exists job. split; [done|].
      by rewrite contact_of_generate, Hg, Hc.
Qed.

End Decoder.

End ReplyFacts.

(** ** The blocklist step of [main] *)

Section MainFacts.

Import BlockedDomainsManager.

Implicit Types (c : ascii) (s : string) (pieces : list string) (fs : FS).

Lemma split_app c s1 s2 :
  Str.split c (s1 +:+ String c s2) = Str.split c s1 ++ Str.split c s2.
Proof.
  induction s1 as [|a s1 IH].
  - change ("" +:+ String c s2) with (String c s2). simpl. by rewrite decide_True.
  - rewrite string_app_cons. simpl. rewrite IH.
    case_decide; [done|].
    pose proof (split_nonempty c s1). by destruct (Str.split c s1).
Qed.

(** A line typed for pieces without commas is read back as these pieces. *)
Lemma split_join c pieces :
  pieces ≠ [] →
  Forall (λ piece, Str.contains c piece = false) pieces →
  Str.split c (Main.join c pieces) = pieces.
Proof.
  intros Hne Hall. induction Hall as [|p rest Hp Hrest IH]; [done|].
  destruct rest as [|q rest].
  - simpl. by apply split_no_sep.
  - change (Main.join c (p :: q :: rest))
      with (p +:+ String c (Main.join c (q :: rest))).
    rewrite split_app, (split_no_sep _ _ Hp), IH; done.
Qed.

(** X27. The blocklist step of [main]. Any answer but [y] or [Y] leaves the
    files and the loaded blocklist as they are. After a yes, a line typed
    as comma-separated pieces is read back as these pieces: each piece that
    is a domain (non-empty after trimming, no [@]) is blocked from then on
    in the manager [main] goes on with, for every address at that domain;
    and when the write completes, a manager built from the blocklist file
    is that manager. *)
Theorem main_blocks_typed_domains w answer pieces fs blocked_mgr :
  init BLOCKED_DOMAINS_FILE fs = Returns blocked_mgr →
  pieces ≠ [] →
  Forall (λ piece, Str.contains "," piece = false) pieces →
  let '(fs', r) := Main.update_blocked_domains w answer (Main.join "," pieces) fs in
  (Str.lower answer ≠ "y" → fs' = fs ∧ r = Returns blocked_mgr)
  ∧ (Str.lower answer = "y" →
     let m' := (add_domains w pieces blocked_mgr fs).1.1 in
     (w = WriteOk → r = Returns m' ∧ init BLOCKED_DOMAINS_FILE fs' = Returns m')
     ∧ (w ≠ WriteOk → r = Raises OSError)
     ∧ ∀ d e pre,
         d ∈ pieces →
         Str.lower (Str.strip d) ≠ "" →
         Str.contains "@" (Str.lower (Str.strip d)) = false →
         Str.lower (Str.strip e) = pre +:+ String "@" (Str.lower (Str.strip d)) →
         is_blocked m' e = true).
Proof.
  intros Hinit Hne Hall. unfold Main.update_blocked_domains.
  rewrite Hinit, (split_join _ _ Hne Hall).
  assert (file_path blocked_mgr = BLOCKED_DOMAINS_FILE) as Hpath.
  { unfold init in Hinit. destruct (load _ fs); [|done]. by injection Hinit as <-. }
  destruct (decide (Str.lower answer = "y")) as [Hy|Hn].
  - pose proof (add_domains_data w pieces blocked_mgr fs) as Hdata.
    unfold add_domains in *.
    set (m1 := mk (file_path blocked_mgr)
                 (mkData (foldl add_entry _ pieces) _)) in *.
    pose proof (save_load w m1 fs) as Hsave.
    destruct (save w m1 fs) as [fs1 r1]. simpl in *.
    split; [done|]. intros _. split; [|split].
    + intros ->. destruct Hsave as [-> Hload]. by rewrite <- Hpath.
    + intros Hw. destruct w; [done|..]; by destruct Hsave as [-> _].
    + intros d e pre Hd Hdne Hat He.
      apply is_blocked_iff. right. rewrite He, domain_of_at by done.
      subst m1. simpl. apply add_entries_elem. right. eauto.
  - split; [done|]. intros Hy. done.
Qed.

End MainFacts.

(** ** The further properties at concrete inputs *)

Section MoreWitnesses.

Import SendingStateManager.

Local Abbreviation BDM_mk := BlockedDomainsManager.mk.

Lemma spam_only_normal : BlockedDomainsManager.normal_entries ["spam.example"].
Proof.
  split; [apply NoDup_singleton|].
  constructor; [|constructor]. split; [done|reflexivity].
Defined.

(** X1 on a store with one domain, given one new, one known and one blank
    entry. *)
Lemma add_domains_keeps_store_witness :
  let m := BDM_mk BLOCKED_DOMAINS_FILE (mkData ["spam.example"] []) in
  let m' := (BlockedDomainsManager.add_domains WriteOk
               [" Evil.ORG "; "SPAM.example"; "  "] m ∅).1.1 in
  BlockedDomainsManager.normal_entries (blocked_domains (BlockedDomainsManager.data m))
  ∧ blocked_domains (BlockedDomainsManager.data m') = ["spam.example"; "evil.org"]
  ∧ BlockedDomainsManager.normal_entries (blocked_domains (BlockedDomainsManager.data m')).
Proof.
  intros m m'. split; [exact spam_only_normal|]. split; [reflexivity|].
  exact (proj1 (add_domains_keeps_store WriteOk [" Evil.ORG "; "SPAM.example"; "  "]
                  m ∅ spam_only_normal)).
Defined.

(** X2 on a store with one address, given the same address in capitals. *)
Lemma add_emails_keeps_store_witness :
  let m := BDM_mk BLOCKED_DOMAINS_FILE (mkData [] ["spam.example"]) in
  let m' := (BlockedDomainsManager.add_emails WriteOk ["SPAM.EXAMPLE"; "x@y.org"] m ∅).1.1 in
  BlockedDomainsManager.normal_entries (blocked_emails (BlockedDomainsManager.data m))
  ∧ blocked_emails (BlockedDomainsManager.data m') = ["spam.example"; "x@y.org"]
  ∧ BlockedDomainsManager.normal_entries (blocked_emails (BlockedDomainsManager.data m')).
Proof.
  intros m m'. split; [exact spam_only_normal|]. split; [reflexivity|].
  exact (proj1 (add_emails_keeps_store WriteOk ["SPAM.EXAMPLE"; "x@y.org"]
                  m ∅ spam_only_normal)).
Defined.

(** X3 on the blocklist built by one [add_domains] from the empty store. *)
Lemma reachable_normal_witness :
  let d := BlockedDomainsManager.data
             (BlockedDomainsManager.add_domains WriteOk [" Spam.Example"; "spam.example"]
                (BDM_mk BLOCKED_DOMAINS_FILE BlockedDomainsManager.empty) ∅).1.1 in
  BlockedDomainsManager.reachable d
  ∧ blocked_domains d = ["spam.example"]
  ∧ BlockedDomainsManager.normal_entries (blocked_domains d).
Proof.
  intros d.
  assert (BlockedDomainsManager.reachable d) as Hr.
  { apply BlockedDomainsManager.reach_add_domains, BlockedDomainsManager.reach_empty. }
  split; [exact Hr|]. split; [reflexivity|].
  exact (proj1 (reachable_normal d Hr)).
Defined.

(** X5 on a domain typed with capitals and a leading blank. *)
Lemma add_domains_blocks_witness :
  let m := BDM_mk BLOCKED_DOMAINS_FILE BlockedDomainsManager.empty in
  " Spam.Example" ∈ [" Spam.Example"; "other.org"]
  ∧ Str.lower (Str.strip " Spam.Example") = "spam.example"
  ∧ Str.lower (Str.strip "Bob@SPAM.example ") = "bob" +:+ String "@" "spam.example"
  ∧ BlockedDomainsManager.is_blocked
      (BlockedDomainsManager.add_domains DumpFails [" Spam.Example"; "other.org"] m ∅).1.1
      "Bob@SPAM.example " = true.
Proof.
  intros m.
  assert (" Spam.Example" ∈ [" Spam.Example"; "other.org"]) as Hin by (by left).
  split; [exact Hin|]. split; [reflexivity|]. split; [reflexivity|].
  apply (add_domains_blocks DumpFails [" Spam.Example"; "other.org"] m ∅
           " Spam.Example" "Bob@SPAM.example " "bob" Hin); [done|reflexivity|reflexivity].
Defined.

(** X6 on an address typed in capitals. *)
Lemma add_emails_blocks_witness :
  let m := BDM_mk BLOCKED_DOMAINS_FILE BlockedDomainsManager.empty in
  "HR@Acme.com" ∈ ["HR@Acme.com"]
  ∧ Str.lower (Str.strip " hr@ACME.com") = Str.lower (Str.strip "HR@Acme.com")
  ∧ BlockedDomainsManager.is_blocked
      (BlockedDomainsManager.add_emails WriteOk ["HR@Acme.com"] m ∅).1.1 " hr@ACME.com"
    = true.
Proof.
  intros m.
  assert ("HR@Acme.com" ∈ ["HR@Acme.com"]) as Hin by (by left).
  split; [exact Hin|]. split; [reflexivity|].
  apply (add_emails_blocks WriteOk ["HR@Acme.com"] m ∅ "HR@Acme.com" " hr@ACME.com" Hin);
    [done|reflexivity].
Defined.

(** X7 on an address blocked by its domain. *)
Lemma add_never_unblocks_witness :
  let m := BDM_mk BLOCKED_DOMAINS_FILE (mkData ["spam.example"] []) in
  BlockedDomainsManager.is_blocked m "x@spam.example" = true
  ∧ BlockedDomainsManager.is_blocked
      (BlockedDomainsManager.add_domains WriteOk ["other.org"] m ∅).1.1 "x@spam.example"
    = true
  ∧ BlockedDomainsManager.is_blocked
      (BlockedDomainsManager.add_emails WriteOk ["other.org"] m ∅).1.1 "x@spam.example"
    = true.
Proof.
  intros m. split; [reflexivity|].
  exact (add_never_unblocks WriteOk ["other.org"] m ∅ "x@spam.example" eq_refl).
Defined.

(** X11 on two [mark_sent] calls for one address in two cases. *)
Lemma mark_sent_keeps_addresses_distinct_witness :
  let calls := [mkCall Scenario.timestamp WriteOk 0 "A@x.com";
                mkCall Scenario.timestamp WriteOk 1 "a@X.com"] in
  let m' := (mark_sent_many calls Scenario.fresh_manager ∅).1 in
  NoDup (Str.lower <$> sent_emails (state Scenario.fresh_manager))
  ∧ sent_emails (state m') = ["a@x.com"]
  ∧ NoDup (Str.lower <$> sent_emails (state m')).
Proof.
  intros calls m'.
  assert (NoDup (Str.lower <$> sent_emails (state Scenario.fresh_manager))) as Hnd
    by constructor.
  split; [exact Hnd|]. split; [reflexivity|].
  exact (proj1 (mark_sent_keeps_addresses_distinct calls Scenario.fresh_manager ∅ Hnd)).
Defined.

(** X14 on a run over rows whose third address repeats the first. *)
Lemma run_marks_each_address_once_witness :
  let r := run_sending_process Scenario.system Scenario.env_ok
             (Some Scenario.rows_with_duplicate) false ∅ in
  init "me@gmail.com" ∅ = Returns Scenario.fresh_manager
  ∧ omap marked_address (trace r) = ["a@x.com"; "b@x.com"]
  ∧ NoDup (omap marked_address (trace r)).
Proof.
  intros r.
  assert (init "me@gmail.com" ∅ = Returns Scenario.fresh_manager) as Hm by reflexivity.
  split; [exact Hm|]. split; [vm_compute; reflexivity|].
  exact (proj1 (run_marks_each_address_once Scenario.system Scenario.env_ok
                  (Some Scenario.rows_with_duplicate) false ∅ Scenario.fresh_manager Hm)).
Defined.

(** X15 on a run that completes after it failed to generate content for
    the first row. *)
Lemma completed_run_witness :
  let r := run_sending_process Scenario.system (Scenario.env_no_content_then_quota 0 5)
             (Some Scenario.two_rows) false ∅ in
  BlockedDomainsManager.init BLOCKED_DOMAINS_FILE ∅
    = Returns (BDM_mk BLOCKED_DOMAINS_FILE BlockedDomainsManager.empty)
  ∧ init "me@gmail.com" ∅ = Returns Scenario.fresh_manager
  ∧ status r = Completed
  ∧ ∃ m', ledger r = Some m'
          ∧ init "me@gmail.com" (disk r) = Returns m'
          ∧ (∀ j row, -1 < j → iloc Scenario.two_rows j = Some row →
               BlockedDomainsManager.is_blocked
                 (BDM_mk BLOCKED_DOMAINS_FILE BlockedDomainsManager.empty) (email row) = true
               ∨ was_sent m' (email row) = true
               ∨ ∃ ev, ev ∈ trace r ∧ ev_index ev = j ∧ is_failure ev = true).
Proof.
  intros r.
  assert (BlockedDomainsManager.init BLOCKED_DOMAINS_FILE ∅
          = Returns (BDM_mk BLOCKED_DOMAINS_FILE BlockedDomainsManager.empty)) as Hbl
    by reflexivity.
  assert (init "me@gmail.com" ∅ = Returns Scenario.fresh_manager) as Hm by reflexivity.
  assert (status r = Completed) as Hst by (vm_compute; reflexivity).
  split; [exact Hbl|]. split; [exact Hm|]. split; [exact Hst|].
  destruct (completed_run_accounts_for_every_row Scenario.system
              (Scenario.env_no_content_then_quota 0 5) Scenario.two_rows ∅ _
              Scenario.fresh_manager Hbl Hm Hst) as (m' & Hl & Hd & Hall & _).
  exists m'. split; [exact Hl|]. split; [exact Hd|]. exact Hall.
Defined.

(** X18 on the run of scenario C, which stops on the quota. *)
Lemma run_leaves_ledger_on_disk_witness :
  let r := run_sending_process Scenario.system (Scenario.env_quota_at 1)
             (Some Scenario.three_rows) false ∅ in
  let m' := mk "me_at_gmail_com" Scenario.ledger_path Scenario.one_sent in
  ledger r = Some m'
  ∧ status r = Stopped
  ∧ init "me@gmail.com" (disk r) = Returns m'.
Proof.
  intros r m'.
  assert (ledger r = Some m') as Hl by (vm_compute; reflexivity).
  assert (status r = Stopped) as Hst by (vm_compute; reflexivity).
  split; [exact Hl|]. split; [exact Hst|].
  apply (run_leaves_ledger_on_disk Scenario.system (Scenario.env_quota_at 1)
           (Some Scenario.three_rows) false ∅ m' Hl).
  intros e. fold r. rewrite Hst. discriminate.
Defined.

(** X20 on the run of scenario A. *)
Lemma run_visits_every_position_witness :
  let r := run_sending_process Scenario.system Scenario.env_ok
             (Some Scenario.three_rows) false ∅ in
  init "me@gmail.com" ∅ = Returns Scenario.fresh_manager
  ∧ status r = Completed
  ∧ ∀ j, -1 < j < 3 → ∃ ev', ev' ∈ trace r ∧ ev_index ev' = j.
Proof.
  intros r.
  assert (init "me@gmail.com" ∅ = Returns Scenario.fresh_manager) as Hm by reflexivity.
  assert (status r = Completed) as Hst by (vm_compute; reflexivity).
  split; [exact Hm|]. split; [exact Hst|]. intros j Hj.
  exact (proj2 (run_visits_every_position Scenario.system Scenario.env_ok
                  (Some Scenario.three_rows) false ∅ Scenario.fresh_manager Hm)
           Hst Scenario.three_rows j eq_refl Hj).
Defined.

(** X21 on the run of scenario C. *)
Lemma run_cursor_is_last_mark_witness :
  let r := run_sending_process Scenario.system (Scenario.env_quota_at 1)
             (Some Scenario.three_rows) false ∅ in
  let m' := mk "me_at_gmail_com" Scenario.ledger_path Scenario.one_sent in
  init "me@gmail.com" ∅ = Returns Scenario.fresh_manager
  ∧ ledger r = Some m'
  ∧ last (filter is_mark (trace r)) = Some (EvMarkSent 0 "A@x.com")
  ∧ last_index_sent (state m') = 0.
Proof.
  intros r m'.
  assert (init "me@gmail.com" ∅ = Returns Scenario.fresh_manager) as Hm by reflexivity.
  assert (ledger r = Some m') as Hl by (vm_compute; reflexivity).
  assert (last (filter is_mark (trace r)) = Some (EvMarkSent 0 "A@x.com")) as Hlast
    by (vm_compute; reflexivity).
  split; [exact Hm|]. split; [exact Hl|]. split; [exact Hlast|].
  pose proof (run_cursor_is_last_mark Scenario.system (Scenario.env_quota_at 1)
                (Some Scenario.three_rows) false ∅ Scenario.fresh_manager m' Hm Hl) as Hc.
  fold r in Hc. rewrite Hlast in Hc. exact Hc.
Defined.

(** X22 on the rows of scenario D, the domain being added just before the
    run. *)
Lemma added_domain_is_skipped_witness :
  let bm := BDM_mk BLOCKED_DOMAINS_FILE BlockedDomainsManager.empty in
  let fs' := (BlockedDomainsManager.add_domains WriteOk [" Spam.Example"] bm ∅).1.2 in
  let r := run_sending_process Scenario.system Scenario.env_ok
             (Some Scenario.rows_with_spam) false fs' in
  iloc Scenario.rows_with_spam 1 = Some (Scenario.row "x@spam.example")
  ∧ ∀ ev, ev ∈ trace r → ev_index ev = 1 → ev = EvSkip 1 "x@spam.example".
Proof.
  intros bm fs' r. split; [reflexivity|].
  apply (added_domain_is_skipped Scenario.system Scenario.env_ok Scenario.rows_with_spam
           false ∅ bm [" Spam.Example"] " Spam.Example" (Scenario.row "x@spam.example")
           1 "x"); try reflexivity; [by left|done].
Defined.

(** X23 on a ledger whose cursor is at the last of three rows. *)
Lemma run_outside_the_list_witness :
  let m0 := mk "me_at_gmail_com" Scenario.ledger_path
              (mkState 2 ["a@x.com"] (Some Scenario.timestamp)) in
  let fs : FS := {[ Scenario.ledger_path := StateDoc (state m0) ]} in
  let r := run_sending_process Scenario.system Scenario.env_ok
             (Some Scenario.three_rows) false fs in
  init "me@gmail.com" fs = Returns m0
  ∧ Z.of_nat (length Scenario.three_rows) ≤ last_index_sent (state m0) + 1
  ∧ status r = Completed ∧ trace r = [] ∧ disk r = fs ∧ ledger r = Some m0.
Proof.
  intros m0 fs r.
  assert (init "me@gmail.com" fs = Returns m0) as Hm by (vm_compute; reflexivity).
  assert (Z.of_nat (length Scenario.three_rows) ≤ last_index_sent (state m0) + 1) as Hlen
    by (simpl; lia).
  split; [exact Hm|]. split; [exact Hlen|].
  refine (proj1 (run_outside_the_list Scenario.system Scenario.env_ok Scenario.three_rows
                   false fs (BDM_mk BLOCKED_DOMAINS_FILE BlockedDomainsManager.empty)
                   m0 eq_refl _ Hm) Hlen).
  vm_compute; reflexivity.
Defined.

(** X27 on a line of two domains. *)
Lemma main_blocks_typed_domains_witness :
  let pieces := ["Spam.com"; " evil.org"] in
  let bm := BDM_mk BLOCKED_DOMAINS_FILE BlockedDomainsManager.empty in
  let m' := (BlockedDomainsManager.add_domains WriteOk pieces bm ∅).1.1 in
  BlockedDomainsManager.init BLOCKED_DOMAINS_FILE ∅ = Returns bm
  ∧ Main.join "," pieces = "Spam.com, evil.org"
  ∧ (Main.update_blocked_domains WriteOk "Y" "Spam.com, evil.org" ∅).2 = Returns m'
  ∧ BlockedDomainsManager.is_blocked m' "Jo@EVIL.org" = true.
Proof.
  intros pieces bm m'.
  assert (BlockedDomainsManager.init BLOCKED_DOMAINS_FILE ∅ = Returns bm) as Hinit
    by reflexivity.
  assert (pieces ≠ []) as Hne by done.
  assert (Forall (λ piece, Str.contains "," piece = false) pieces) as Hall
    by (repeat constructor).
  pose proof (main_blocks_typed_domains WriteOk "Y" pieces ∅ bm Hinit Hne Hall) as H.
  change (Main.join "," pieces) with "Spam.com, evil.org" in H.
  destruct (Main.update_blocked_domains WriteOk "Y" "Spam.com, evil.org" ∅) as [fs' r].
  destruct H as [_ H]. destruct (H eq_refl) as (Hok & _ & Hblocked).
  split; [exact Hinit|]. split; [reflexivity|]. split; [exact (proj1 (Hok eq_refl))|].
  apply (Hblocked " evil.org" "Jo@EVIL.org" "jo"); [by right; left|done|reflexivity..].
Defined.

End MoreWitnesses.

(** ** Rows the run could not serve *)

Section Failures.

Import SendingStateManager.

Variable env : Env.
Variable test_mode : bool.
Variable start_index : Z.
Variable blocked_mgr : BlockedDomainsManager.t.
Variable df : list Recipient.

Implicit Types (m : SendingStateManager.t) (fs : FS) (row : Recipient).

Local Abbreviation body := (loop_body env test_mode start_index blocked_mgr).
Local Abbreviation run_loop := (loop env test_mode start_index blocked_mgr df).

(** After a failure message the body goes on to the next row with the
    ledger and the files as they were. *)
Lemma body_failure i row m fs evs m' fs' c ev :
  body i row m fs = (evs, m', fs', c) →
  ev ∈ evs → is_failure ev = true →
  c = Continue ∧ m' = m ∧ fs' = fs ∧ filter is_mark evs = [].
Proof.
  intros Hb Hin Hf. unfold loop_body in Hb.
  repeat match type of Hb with
         | context [if ?b then _ else _] => destruct b eqn:?
         | context [match ?x with _ => _ end] => destruct x eqn:?
         end; simplify_eq;
    repeat (apply elem_of_cons in Hin as [Hin|Hin]; [subst ev; try discriminate|]);
    try (by apply elem_of_nil in Hin); done.
Qed.

Lemma loop_failure i n m fs ev :
  ev ∈ trace (run_loop i n m fs) → is_failure ev = true →
  is_Some (iloc df (ev_index ev))
  ∧ (∀ ev', ev' ∈ trace (run_loop i n m fs) →
            ev_index ev' = ev_index ev → is_mark ev' = false)
  ∧ (ev_index ev + 1 < i + Z.of_nat n → is_Some (iloc df (ev_index ev + 1)) →
     ∃ ev', ev' ∈ trace (run_loop i n m fs) ∧ ev_index ev' = ev_index ev + 1).
Proof.
  intros Hin Hf. revert Hin.
  pattern i, n, m, fs, (run_loop i n m fs). apply loop_ind; clear - Hf; simpl.
  - by intros i m fs ?%elem_of_nil.
  - by intros i n m fs _ ?%elem_of_nil.
  - intros i n m fs row evs m' fs' Hrow Hb IH Hin.
    pose proof Hb as Hb'. apply body_index in Hb' as [_ Hidx].
    rewrite Forall_forall in Hidx.
    apply elem_of_app in Hin as [Hin|Hin].
    + destruct (body_failure _ _ _ _ _ _ _ _ _ Hb Hin Hf) as (_ & _ & _ & Hmk).
      rewrite (Hidx _ Hin). split; [eauto|]. split.
      * intros ev' [Hev'|Hev']%elem_of_app Hi.
        { destruct (is_mark ev') eqn:Hm; [|done].
          assert (ev' ∈ filter is_mark evs) as Hfl
            by (apply list_elem_of_filter; by rewrite Hm).
          rewrite Hmk in Hfl. by apply elem_of_nil in Hfl. }
        apply loop_index in Hev'. lia.
      * intros Hlt Hnext.
        destruct (loop_head env test_mode start_index blocked_mgr df (i + 1) n m' fs'
                    Hnext) as (ev' & rest & Htr & Hi'); [lia|].
        exists ev'. split; [|done]. apply elem_of_app. right. rewrite Htr. by left.
    + destruct (IH Hin) as (Hsome & Hmk & Hnext).
      pose proof (loop_index _ _ _ _ _ _ _ _ _ _ Hin) as Hk.
      split; [done|]. split.
      * intros ev' [Hev'|Hev']%elem_of_app Hi; [|by apply Hmk].
        rewrite (Hidx _ Hev') in Hi. lia.
      * intros Hlt Hn. destruct Hnext as (ev' & Hev' & Hi'); [lia|done|].
        exists ev'. split; [|done]. apply elem_of_app. by right.
  - intros i n m fs row evs m' fs' Hrow Hb Hin.
    by destruct (body_failure _ _ _ _ _ _ _ _ _ Hb Hin Hf).
  - intros i n m fs row evs m' fs' e Hrow Hb Hin.
    by destruct (body_failure _ _ _ _ _ _ _ _ _ Hb Hin Hf).
Qed.

End Failures.

Section FailuresRun.

Import SendingStateManager.

(** X28. A row for which no content could be generated, or whose delivery
    failed for another reason than the quota, does not end the run and is
    not recorded: [mark_sent] is not called for its position, and unless it
    is the last row the run goes on to the next position. *)
Theorem failed_row_is_passed_over (self : JobApplicationSystem.t) env df test_mode fs ev :
  let r := run_sending_process self env (Some df) test_mode fs in
  ev ∈ trace r →
  is_failure ev = true →
  (∀ ev', ev' ∈ trace r → ev_index ev' = ev_index ev → is_mark ev' = false)
  ∧ (ev_index ev + 1 < Z.of_nat (length df) →
     ∃ ev', ev' ∈ trace r ∧ ev_index ev' = ev_index ev + 1).
Proof.
  intros r Hin Hf. subst r.
  destruct (run_cases self env (Some df) test_mode fs)
    as [(Ht & _)|(df' & bl & m0 & [= <-] & Hbl & Hm & Hr)].
  { rewrite Ht in Hin. by apply elem_of_nil in Hin. }
  rewrite Hr in Hin |- *.
  destruct (loop_failure _ _ _ _ _ _ _ _ _ _ Hin Hf) as (Hsome & Hmk & Hnext).
  split; [done|]. intros Hlt. apply iloc_is_Some in Hsome.
  apply Hnext; [|apply iloc_is_Some; lia].
  apply loop_index in Hin. lia.
Qed.

(** X28 on a run whose first row gets no content. *)
Lemma failed_row_is_passed_over_witness :
  let env := Scenario.env_no_content_then_quota 0 5 in
  let r := run_sending_process Scenario.system env (Some Scenario.two_rows) false ∅ in
  EvContentFailed 0 "a@x.com" ∈ trace r
  ∧ (∃ ev', ev' ∈ trace r ∧ ev_index ev' = 1)
  ∧ filter is_mark (trace r) = [EvMarkSent 1 "b@x.com"].
Proof.
  intros env r.
  assert (EvContentFailed 0 "a@x.com" ∈ trace r) as Hin.
  { apply list_elem_of_In. vm_compute. auto 10. }
  split; [exact Hin|]. split; [|vm_compute; reflexivity].
  apply (proj2 (failed_row_is_passed_over Scenario.system env Scenario.two_rows false ∅
                  (EvContentFailed 0 "a@x.com") Hin eq_refl)).
  simpl. lia.
Defined.

End FailuresRun.
